(** * Downloads Organizer (organizer_safe.py): rule matching, name
    templating, collision-safe moves and the organizing pass.

    The Python functions of [organizer_safe.py] are embedded as Rocq
    functions of the same names.  Strings are [string]; a [Path] is the
    list of the components of a resolved absolute path (POSIX flavour, no
    symbolic links); the file system is a finite map from paths to nodes
    and is threaded through the effectful functions by a small state and
    exception monad that also records the file-system calls made. *)

From Stdlib Require Import Ascii DecimalString DecimalNat.
From Stdlib Require String.
From stdpp Require Import gmap strings list sorting.

Local Open Scope Z_scope.

(** ** Python [str] methods *)

Module Str.

(** [s.startswith(p)] *)
Definition startswith (s p : string) : bool := String.prefix p s.

(** [s.endswith(p)] *)
Fixpoint endswith (s p : string) : bool :=
  if String.eqb s p then true
  else match s with
       | EmptyString => false
       | String _ s' => endswith s' p
       end.

(** [s.lstrip(c)] for a single character [c] *)
Fixpoint lstrip (c : ascii) (s : string) : string :=
  match s with
  | String a s' => if Ascii.eqb a c then lstrip c s' else s
  | EmptyString => EmptyString
  end.

(** [c in s] for a character [c] *)
Fixpoint contains (c : ascii) (s : string) : bool :=
  match s with
  | EmptyString => false
  | String a s' => Ascii.eqb a c || contains c s'
  end.

(** The scan of [s.replace(old, new)] for a non-empty [old]: occurrences
    are found left to right and do not overlap; [skip] counts the
    characters of the occurrence just replaced that are still to be
    passed over. *)
Fixpoint replace_from (old new : string) (skip : nat) (s : string) : string :=
  match s with
  | EmptyString => EmptyString
  | String c s' =>
      match skip with
      | S k => replace_from old new k s'
      | O =>
          if String.prefix old s
          then new +:+ replace_from old new (Nat.pred (String.length old)) s'
          else String c (replace_from old new O s')
      end
  end.

(** With an empty [old], Python puts [new] before every character and at
    the end. *)
Fixpoint intersperse (new s : string) : string :=
  match s with
  | EmptyString => new
  | String c s' => new +:+ String c (intersperse new s')
  end.

(** [s.replace(old, new)] *)
Definition replace (old new s : string) : string :=
  match old with
  | EmptyString => intersperse new s
  | String _ _ => replace_from old new O s
  end.

(** [str(n)] for a non-negative integer *)
Definition of_nat (n : nat) : string := NilEmpty.string_of_uint (Nat.to_uint n).

(** [s.rjust(w, "0")]: zero padding on the left, as [strftime] does *)
Definition zfill (w : nat) (s : string) : string :=
  String.string_of_list_ascii (replicate (w - String.length s)%nat "0"%char) +:+ s.

(** Truth value of a string: the empty string is false. *)
Definition truthy (s : string) : bool := negb (String.eqb s EmptyString).

(** Splits [s] at its last dot: the text before it, and the text from the
    dot on ([s.rfind(".")]). *)
Fixpoint rsplit_dot (s : string) : option (string * string) :=
  match s with
  | EmptyString => None
  | String c s' =>
      match rsplit_dot s' with
      | Some (a, b) => Some (String c a, b)
      | None => if Ascii.eqb c "." then Some (EmptyString, s) else None
      end
  end.

(** The characters of [s] are all equal to [c]. *)
Fixpoint all_char (c : ascii) (s : string) : bool :=
  match s with
  | EmptyString => true
  | String a s' => Ascii.eqb a c && all_char c s'
  end.

(** ASCII lower-casing, the restriction of [str.lower] to ASCII text. *)
Definition ascii_lower_char (c : ascii) : ascii :=
  let n := nat_of_ascii c in
  if (65 <=? n)%nat && (n <=? 90)%nat then ascii_of_nat (n + 32) else c.

Fixpoint ascii_lower (s : string) : string :=
  match s with
  | EmptyString => EmptyString
  | String c s' => String (ascii_lower_char c) (ascii_lower s')
  end.

End Str.

(** ** Paths *)

(** A path is the list of its components below the root, resolved: no
  [.] or [..] component and no symbolic link, so [Path.resolve()] is the
  identity on it.  It stands for the entry of the file system that a
  [Path] of the program names. *)
Abbreviation Path := (list string).

(** A single path segment, as the names of entries are: a name that is not
    empty, holds no separator and is neither [.] nor [..]. *)
Definition is_segment (s : string) : bool :=
  Str.truthy s && negb (Str.contains "/" s)
  && negb (String.eqb s ".") && negb (String.eqb s "..").

Module PathLib.

(** [path.name]: the final component *)
Definition name (p : Path) : string := List.last p EmptyString.

(** [dir / s] for a single path segment [s] ([is_segment]): the entry [s]
    of [dir].  For another string the [/] of [pathlib] names no entry of
    [dir] by that string: it drops an empty string and [.], steps up at
    [..] and splits at a separator.  The properties that depend on what
    [dir / s] names are stated for segments. *)
Definition join (dir : Path) (s : string) : Path := dir ++ [s].

(** [PurePath.suffix] of a final component: the text from the last dot
    on, unless that dot is the first or the last character. *)
Definition suffix_of (nm : string) : string :=
  match Str.rsplit_dot nm with
  | Some (String _ _, String d (String c b)) => String d (String c b)
  | _ => EmptyString
  end.

(** [PurePath.stem] of a final component *)
Definition stem_of (nm : string) : string :=
  match Str.rsplit_dot nm with
  | Some (String c a, String _ (String _ _)) => String c a
  | _ => nm
  end.

(** [os.path.splitext] of a name without separator: the split at the last
    dot, leading dots not counting as an extension. *)
Definition splitext (nm : string) : string * string :=
  match Str.rsplit_dot nm with
  | Some (a, b) => if Str.all_char "." a then (nm, EmptyString) else (a, b)
  | None => (nm, EmptyString)
  end.

(** [a in b.parents]: [a] is a proper ancestor of [b] *)
Definition is_parent_of (a b : Path) : bool :=
  bool_decide (a `prefix_of` b) && negb (bool_decide (a = b)).

End PathLib.

(** ** The platform: library functions the program calls *)

(** What [organizer_safe.py] takes from the Python library and the operating
  system.  The program is stated over any platform; [Posix.platform] below
  is a concrete one. *)
Class Platform := {
  (** [str.lower] *)
  lower : string -> string;
  (** [mimetypes.guess_type(name)[0]] *)
  guess_type : string -> option string;
  (** [fnmatch.fnmatch(name, pattern)] *)
  fnmatch : string -> string -> bool;
  (** [os.path.expandvars] *)
  expandvars : string -> string;
  (** [os.path.expanduser] *)
  expanduser : string -> string;
  (** The entry that [Path(s)] names: the components of
      [Path(s).resolve()].  The program keeps [Path(s)] as it is written;
      see [expand_path]. *)
  to_path : string -> Path;
}.

(** ** Rules and configuration *)

(** A rule of the configuration.  Absent list keys read as the empty list
  ([r.get(key, [])]), an absent [match_all] as false, an absent
  [ensure_unique] as true and an absent [name] as the empty string. *)
Record Rule := {
  rule_name : string;
  match_ext : list string;
  match_mime : list string;
  match_glob : list string;
  match_all : bool;
  to_dir : option string;
  rename : option string;
  ensure_unique : bool;
}.

Section Matching.
Context `{Platform}.

(** [src.suffix.lower().lstrip(".")] *)
Definition ext_of (nm : string) : string :=
  Str.lstrip "." (lower (PathLib.suffix_of nm)).

(** The body of the loop of [match_rule] for one rule: [true] where the
    source returns [r]. *)
Definition rule_hit (nm ext : string) (mime : option string) (r : Rule) : bool :=
  let exts := lower <$> match_ext r in
  if negb (bool_decide (exts = [])) && bool_decide (ext ∈ exts) then true
  else
    let mp := lower <$> match_mime r in
    if (negb (bool_decide (mp = [])) && from_option Str.truthy false mime)
       && existsb (fun pref => from_option (fun m => Str.truthy m && Str.startswith (lower m) pref) false mime) mp
    then true
    else if existsb (fun g => fnmatch nm g) (match_glob r) then true
    else if match_all r then true
    else false.

(** The [for r in rules] loop, returning at the first hit. *)
Fixpoint match_rule_loop (nm ext : string) (mime : option string) (rules : list Rule) : option Rule :=
  match rules with
  | [] => None
  | r :: rest => if rule_hit nm ext mime r then Some r else match_rule_loop nm ext mime rest
  end.

(** [match_rule(src, rules)]; [nm] is [src.name]. *)
Definition match_rule (nm : string) (rules : list Rule) : option Rule :=
  match_rule_loop nm (ext_of nm) (guess_type nm) rules.

(** The four match predicates, as the specification words them. *)
Definition ext_matches (nm : string) (r : Rule) : Prop :=
  ext_of nm ∈ lower <$> match_ext r.

Definition mime_matches (nm : string) (r : Rule) : Prop :=
  ∃ m pref, guess_type nm = Some m ∧ m ≠ EmptyString ∧
            pref ∈ lower <$> match_mime r ∧ String.prefix pref (lower m) = true.

Definition glob_matches (nm : string) (r : Rule) : Prop :=
  ∃ g, g ∈ match_glob r ∧ fnmatch nm g = true.

Definition rule_matches (nm : string) (r : Rule) : Prop :=
  ext_matches nm r ∨ mime_matches nm r ∨ glob_matches nm r ∨ match_all r = true.

End Matching.

(** ** Timestamps and templates *)

(** The fields of a [datetime] value. *)
Record Datetime := {
  year : nat;
  month : nat;
  day : nat;
  hour : nat;
  minute : nat;
  second : nat;
  microsecond : nat;
}.

(** [dt.strftime("%Y")], [("%m")], [("%d")], [("%Y%m%d")], [("%H%M%S")] *)
Definition strftime_Y (dt : Datetime) : string := Str.zfill 4 (Str.of_nat (year dt)).
Definition strftime_m (dt : Datetime) : string := Str.zfill 2 (Str.of_nat (month dt)).
Definition strftime_d (dt : Datetime) : string := Str.zfill 2 (Str.of_nat (day dt)).
Definition strftime_date (dt : Datetime) : string :=
  strftime_Y dt +:+ strftime_m dt +:+ strftime_d dt.
Definition strftime_time (dt : Datetime) : string :=
  Str.zfill 2 (Str.of_nat (hour dt)) +:+ Str.zfill 2 (Str.of_nat (minute dt))
  +:+ Str.zfill 2 (Str.of_nat (second dt)).

(** [for k, v in repl.items(): p = p.replace(k, v)]: the keys are replaced
    one after the other, in the insertion order of the dictionary. *)
Definition replace_all (repl : list (string * string)) (s : string) : string :=
  foldl (fun acc kv => Str.replace kv.1 kv.2 acc) s repl.

(** The dictionary [repl] of [expand_path] *)
Definition path_repl (dt : Datetime) : list (string * string) :=
  [ ("{YYYY}", strftime_Y dt); ("{MM}", strftime_m dt); ("{DD}", strftime_d dt);
    ("{date}", strftime_date dt); ("{time}", strftime_time dt) ].

(** [str(counter)] for an integer *)
Definition str_of_int (z : Z) : string :=
  if z <? 0 then String "-" (Str.of_nat (Z.to_nat (- z))) else Str.of_nat (Z.to_nat z).

(** The characters that [build_target_name] replaces: less-than,
    greater-than, colon, double quote (code 34), slash, backslash, bar,
    question mark and star. *)
Definition bad_chars : list ascii :=
  [ "<"; ">"; ":"; "034"; "/"; "\"; "|"; "?"; "*" ]%char.

(** The loop [for bad in ...: name = name.replace(bad, underscore)] *)
Definition sanitize (s : string) : string :=
  foldl (fun acc bad => Str.replace (String bad EmptyString) "_" acc) s bad_chars.

Section Templates.
Context `{Platform}.

(** The string that [expand_path] hands to [Path]. *)
Definition expand_path_str (p : string) (dt : Datetime) : string :=
  let p := replace_all (path_repl dt) p in
  let p := expandvars p in
  let p := expanduser p in
  p.

(** [expand_path(p, dt)], as the entry that the path returned names.  The
    source returns [Path(p)] as it is written, not resolved, and the
    system follows a [..] of it through the folder named before it, which
    [mkdir(parents=True)] makes first.  For a string without [..]
    ([no_dot_dot] below) the path written and the entry are the same in
    every call; the properties that follow the calls made on a
    destination are stated for such strings. *)
Definition expand_path (p : string) (dt : Datetime) : Path :=
  to_path (expand_path_str p dt).

(** The dictionary [repl] of [build_target_name] *)
Definition name_repl (src : Path) (dt : Datetime) (counter : Z) : list (string * string) :=
  [ ("{stem}", PathLib.stem_of (PathLib.name src));
    ("{ext}", ext_of (PathLib.name src));
    ("{date}", strftime_date dt);
    ("{time}", strftime_time dt);
    ("{counter}", if counter =? 0 then EmptyString else str_of_int counter) ].

(** [rule.get("rename") or "{stem}"] *)
Definition rename_template (rule : Rule) : string :=
  match rename rule with
  | Some t => if Str.truthy t then t else "{stem}"
  | None => "{stem}"
  end.

(** [build_target_name(src, rule, dt, counter)] *)
Definition build_target_name (src : Path) (rule : Rule) (dt : Datetime) (counter : Z) : string :=
  let ext := ext_of (PathLib.name src) in
  let name := rename_template rule in
  let name := replace_all (name_repl src dt counter) name in
  let name := sanitize name in
  name +:+ (if Str.truthy ext then "." +:+ ext else EmptyString).

End Templates.

(** ** The file system *)

(** A node is a regular file or a directory, with its modification time
    ([st_mtime]) in seconds. *)
Inductive Node :=
| File (mtime : Z)
| Dir (mtime : Z).

Definition mtime_of (n : Node) : Z :=
  match n with File t | Dir t => t end.

Definition with_mtime (t : Z) (n : Node) : Node :=
  match n with File _ => File t | Dir _ => Dir t end.

(** The exceptions raised by the calls the program makes. *)
Inductive Exn :=
| FileNotFoundError
| FileExistsError
| NotADirectoryError
| ShutilError
| KeyError
| LoopBound.

(** [isinstance(e, OSError)]; [shutil.Error] is a subclass of [OSError]. *)
Definition is_OSError (e : Exn) : bool :=
  match e with
  | FileNotFoundError | FileExistsError | NotADirectoryError | ShutilError => true
  | KeyError | LoopBound => false
  end.

(** The lines written through [log]. *)
Inductive LogLine :=
| LogWatchMissing (watch_dir : Path)
| LogDryFile (src : Path) (out_dir : Path) (name : string) (rule : string)
| LogMovedFile (src : Path) (target : Path) (rule : string)
| LogDryDir (src : Path) (target_root : Path)
| LogMovedDir (src : Path) (moved : Path).

(** The calls that reach the file system or the log. *)
Inductive Event :=
| EvListdir (d : Path) (listing : list Path)
| EvMkdir (p : Path)
| EvRename (src dst : Path)
| EvTouch (p : Path)
| EvLog (line : LogLine).

(** An event that changes the file system. *)
Definition is_mutation (e : Event) : bool :=
  match e with
  | EvMkdir _ | EvRename _ _ | EvTouch _ => true
  | EvListdir _ _ | EvLog _ => false
  end.

(** The state a pass runs in: the file system, the reading of
    [time.time()] (one reading for the whole pass) and the calls made so
    far, oldest first. *)
Record World := {
  files : gmap Path Node;
  clock : Z;
  calls : list Event;
}.

Definition set_files (fs : gmap Path Node) (w : World) : World :=
  {| files := fs; clock := clock w; calls := calls w |}.

(** ** State and exception monad *)

Inductive Outcome (A : Type) :=
| Ok (a : A)
| Raised (e : Exn).
Arguments Ok {A} a.
Arguments Raised {A} e.

Definition M (A : Type) : Type := World -> Outcome A * World.

Definition ret {A} (a : A) : M A := fun w => (Ok a, w).

Definition bind {A B} (m : M A) (k : A -> M B) : M B :=
  fun w => match m w with
           | (Ok a, w') => k a w'
           | (Raised e, w') => (Raised e, w')
           end.

Definition raise {A} (e : Exn) : M A := fun w => (Raised e, w).

(** [try: m except ...: h e]; a handler re-raises what it does not catch. *)
Definition catch {A} (m : M A) (h : Exn -> M A) : M A :=
  fun w => match m w with
           | (Ok a, w') => (Ok a, w')
           | (Raised e, w') => h e w'
           end.

Notation "x <- m ; k" := (bind m (fun x => k))
  (at level 20, m at level 100, k at level 200, only parsing).
Notation "'exec' m ; k" := (bind m (fun _ => k))
  (at level 20, m at level 100, k at level 200, only parsing).

Definition get_files : M (gmap Path Node) := fun w => (Ok (files w), w).
Definition get_clock : M Z := fun w => (Ok (clock w), w).
Definition put_files (fs : gmap Path Node) : M unit := fun w => (Ok tt, set_files fs w).
Definition emit (e : Event) : M unit :=
  fun w => (Ok tt, {| files := files w; clock := clock w; calls := calls w ++ [e] |}).

(** What other processes do to the file system between two calls. *)
Definition interfere (other : gmap Path Node -> gmap Path Node) : M unit :=
  fun w => (Ok tt, set_files (other (files w)) w).

(** [for x in l: ...] with the local variables of the loop in [s] *)
Fixpoint for_loop {A S} (l : list A) (body : A -> S -> M S) (s : S) : M S :=
  match l with
  | [] => ret s
  | x :: l' => s' <- body x s ; for_loop l' body s'
  end.

(** ** File-system calls *)

(** [path.parent] *)
Definition parent (p : Path) : Path := removelast p.

(** [p] is an entry of the directory [d]. *)
Definition is_child (d p : Path) : Prop := p ≠ [] ∧ parent p = d.

(** The directory [d] gets the modification time [t]. *)
Definition bump (t : Z) (d : Path) (fs : gmap Path Node) : gmap Path Node :=
  alter (with_mtime t) d fs.

(** [path.exists()], [path.is_file()], [path.is_dir()] *)
Definition path_exists (p : Path) : M bool :=
  fs <- get_files ; ret (bool_decide (is_Some (fs !! p))).

Definition is_file (p : Path) : M bool :=
  fs <- get_files ; ret (match fs !! p with Some (File _) => true | _ => false end).

Definition is_dir (p : Path) : M bool :=
  fs <- get_files ; ret (match fs !! p with Some (Dir _) => true | _ => false end).

(** The error of a call on a path at which no entry is found.  The system
    walks the components from the root: [seen] is the part walked, [rest]
    the part to come.  A regular file met on the way is [ENOTDIR]
    ([NotADirectoryError]); a missing entry, on the way or at the end, is
    [ENOENT] ([FileNotFoundError]). *)
Fixpoint lookup_error (fs : gmap Path Node) (seen : Path) (rest : list string) : Exn :=
  match rest with
  | [] => FileNotFoundError
  | s :: rest' =>
      match fs !! seen with
      | Some (Dir _) => lookup_error fs (seen ++ [s]) rest'
      | Some (File _) => NotADirectoryError
      | None => FileNotFoundError
      end
  end.

(** [path.stat().st_mtime] *)
Definition stat_mtime (p : Path) : M Z :=
  fs <- get_files ;
  match fs !! p with
  | Some n => ret (mtime_of n)
  | None => raise (lookup_error fs [] p)
  end.

(** Lexicographic order of paths, by the code points of their components. *)
Fixpoint path_leb (a b : Path) : bool :=
  match a, b with
  | [], _ => true
  | _ :: _, [] => false
  | x :: a', y :: b' =>
      match String.compare x y with
      | Lt => true
      | Gt => false
      | Eq => path_leb a' b'
      end
  end.

Definition path_le (a b : Path) : Prop := path_leb a b = true.

#[global] Instance path_le_dec : RelDecision path_le :=
  fun a b => decide (path_leb a b = true).

(** [sorted(paths)] *)
Definition sorted (l : list Path) : list Path := merge_sort path_le l.

(** The entries of the directory [d], in the order the system lists them. *)
Definition entries (fs : gmap Path Node) (d : Path) : list Path :=
  filter (is_child d) (elements (dom fs)).

(** [list(d.iterdir())] *)
Definition iterdir (d : Path) : M (list Path) :=
  fs <- get_files ;
  match fs !! d with
  | Some (Dir _) =>
      let listing := entries fs d in
      exec emit (EvListdir d listing) ; ret listing
  | Some (File _) => raise NotADirectoryError
  | None => raise FileNotFoundError
  end.

(** A new entry [p] holding [n] is made in an existing directory. *)
Definition create (p : Path) (n : Node) : M unit :=
  fs <- get_files ;
  match fs !! parent p with
  | Some (Dir _) =>
      t <- get_clock ;
      put_files (<[p := n]> (bump t (parent p) fs))
  | Some (File _) => raise NotADirectoryError
  | None => raise FileNotFoundError
  end.

(** [os.mkdir(p)] *)
Definition os_mkdir (p : Path) : M unit :=
  fs <- get_files ;
  if bool_decide (is_Some (fs !! p)) then raise FileExistsError
  else t <- get_clock ; exec create p (Dir t) ; emit (EvMkdir p).

(** The clause [except OSError: if not exist_ok or not self.is_dir(): raise]
    of [Path.mkdir], with [exist_ok=True] *)
Definition unless_is_dir (p : Path) (e : Exn) : M unit :=
  if is_OSError e
  then d <- is_dir p ; if d then ret tt else raise e
  else raise e.

(** [p.mkdir(parents=False, exist_ok=True)] *)
Definition mkdir_exist_ok (p : Path) : M unit :=
  catch (os_mkdir p)
    (fun e => match e with
              | FileNotFoundError => raise e
              | _ => unless_is_dir p e
              end).

(** [p.mkdir(parents=True, exist_ok=True)], by recursion on the reversed
    path: the parent of [reverse (s :: rp)] is [reverse rp]. *)
Fixpoint mkdir_parents_rev (rp : list string) : M unit :=
  let p := reverse rp in
  catch (os_mkdir p)
    (fun e => match e with
              | FileNotFoundError =>
                  match rp with
                  | [] => raise e
                  | _ :: rparent => exec mkdir_parents_rev rparent ; mkdir_exist_ok p
                  end
              | _ => unless_is_dir p e
              end).

Definition mkdir_parents (p : Path) : M unit := mkdir_parents_rev (reverse p).

(** [path.touch(exist_ok=True)]: [os.utime] on an existing entry, else the
    file is created. *)
Definition touch (p : Path) : M unit :=
  fs <- get_files ;
  t <- get_clock ;
  match fs !! p with
  | Some n => exec put_files (<[p := with_mtime t n]> fs) ; emit (EvTouch p)
  | None => exec create p (File t) ; emit (EvTouch p)
  end.

(** Where the entry at [k] is after [src] has been renamed to [dst]. *)
Definition retarget (src dst k : Path) : Path :=
  if bool_decide (src `prefix_of` k) then dst ++ drop (length src) k else k.

(** The file system after the directory [src], with all that is below it,
    has been renamed to [dst]. *)
Definition move_tree (src dst : Path) (fs : gmap Path Node) : gmap Path Node :=
  map_fold (fun k n acc => <[retarget src dst k := n]> acc) ∅ fs.

(** The file system after [os.rename(src, dst)] of the node [n]: a regular
    file takes the place of [dst], a directory goes with all its content. *)
Definition renamed (src dst : Path) (n : Node) (fs : gmap Path Node) : gmap Path Node :=
  match n with
  | File _ => <[dst := n]> (delete src fs)
  | Dir _ => move_tree src dst fs
  end.

(** [os.rename(src, real_dst)] as [shutil.move] calls it, with the errors
    of its fall-backs: an existing regular file at [real_dst] is replaced. *)
Definition rename_entry (src real_dst : Path) : M unit :=
  fs <- get_files ;
  match fs !! src with
  | None => raise FileNotFoundError
  | Some n =>
      if bool_decide (src = real_dst) then ret tt
      else
        match fs !! parent real_dst with
        | None => raise FileNotFoundError
        | Some (File _) => raise NotADirectoryError
        | Some (Dir _) =>
            if bool_decide (src `prefix_of` real_dst) then raise ShutilError
            else
              match n, fs !! real_dst with
              | Dir _, Some _ => raise FileExistsError
              | _, _ =>
                  t <- get_clock ;
                  exec put_files (bump t (parent src) (bump t (parent real_dst)
                                    (renamed src real_dst n fs))) ;
                  emit (EvRename src real_dst)
              end
        end
  end.

(** The [real_dst] of [shutil.move(src, dst)]: inside [dst] when it is a
    directory. *)
Definition real_destination (src dst : Path) : M Path :=
  d <- is_dir dst ;
  if d then
    if bool_decide (src = dst) then ret dst
    else
      let r := PathLib.join dst (PathLib.name src) in
      e <- path_exists r ;
      if e then raise ShutilError else ret r
  else ret dst.

(** [shutil.move(src, dst)] within one file system *)
Definition shutil_move (src dst : Path) : M unit :=
  real_dst <- real_destination src dst ;
  rename_entry src real_dst.

(** ** Candidates and markers *)

Section Candidates.
Context `{Platform}.

(** [is_candidate_file(path, min_age_sec, ignore_ext, ignore_names)].  The
    program runs next to other processes: [other] is what they do to the
    file system after the entry was seen and before [path.stat()]. *)
Definition is_candidate_file_with (other : gmap Path Node -> gmap Path Node)
    (path : Path) (min_age_sec : Z) (ignore_ext ignore_names : list string) : M bool :=
  f <- is_file path ;
  if negb f then ret false
  else if bool_decide (PathLib.name path ∈ ignore_names) then ret false
  else if existsb (fun ie => Str.endswith (lower (PathLib.name path)) (lower ie)) ignore_ext
  then ret false
  else
    exec interfere other ;
    catch (t <- get_clock ;
           m <- stat_mtime path ;
           ret (bool_decide (min_age_sec ≤ t - m)))
          (fun e => match e with
                    | FileNotFoundError => ret false
                    | _ => raise e
                    end).

(** The same with no other process at work, as within one pass. *)
Definition is_candidate_file := is_candidate_file_with id.

(** [is_candidate_dir(path, min_age_sec)] *)
Definition is_candidate_dir (path : Path) (min_age_sec : Z) : M bool :=
  d <- is_dir path ;
  if negb d then ret false
  else
    catch (t <- get_clock ;
           m <- stat_mtime path ;
           ret (bool_decide (min_age_sec ≤ t - m)))
          (fun e => match e with
                    | FileNotFoundError => ret false
                    | _ => raise e
                    end).

End Candidates.

(** [mark_managed_dir(dst_dir, marker_name)]: every exception is swallowed.
    The marker is the entry [marker_name] of [dst_dir], for a marker name
    that is a single path segment. *)
Definition mark_managed_dir (dst_dir : Path) (marker_name : string) : M unit :=
  catch (touch (PathLib.join dst_dir marker_name)) (fun _ => ret tt).

(** [is_managed_dir(path, marker_name)] *)
Definition is_managed_dir (path : Path) (marker_name : string) : M bool :=
  path_exists (PathLib.join path marker_name).

(** ** Collision-safe moves *)

(** [while candidate.exists(): i += 1; candidate = next(i)], on the state
    [(i, candidate)] of the loop; [fuel] bounds the number of rounds. *)
Fixpoint while_exists (fs : gmap Path Node) (next : nat -> Path)
    (fuel : nat) (i : nat) (candidate : Path) : option (nat * Path) :=
  if bool_decide (is_Some (fs !! candidate)) then
    match fuel with
    | O => None
    | S fuel' => while_exists fs next fuel' (S i) (next (S i))
    end
  else Some (i, candidate).

(** The loop run in the current file system; one round more than there are
    entries is always enough ([unique_candidate_total]). *)
Definition unique_candidate (next : nat -> Path) (candidate : Path) : M (nat * Path) :=
  fs <- get_files ;
  match while_exists fs next (S (size fs)) 0 candidate with
  | Some r => ret r
  | None => raise LoopBound
  end.

(** The file name probed in round [i]: [f"{stem}_{i}{ext}"] *)
Definition suffixed (stem ext : string) (i : nat) : string :=
  stem +:+ "_" +:+ Str.of_nat i +:+ ext.

(** [move_with_unique(src, dst_dir, target_name, ensure_unique)] *)
Definition move_with_unique (src dst_dir : Path) (target_name : string)
    (ensure_unique : bool) : M Path :=
  exec mkdir_parents dst_dir ;
  let candidate := PathLib.join dst_dir target_name in
  candidate <- (if ensure_unique then
                  let '(stem, ext) := PathLib.splitext (PathLib.name candidate) in
                  r <- unique_candidate (fun i => PathLib.join dst_dir (suffixed stem ext i)) candidate ;
                  ret r.2
                else ret candidate) ;
  exec shutil_move src candidate ;
  ret candidate.

(** [move_dir_with_unique(src, dst_dir, ensure_unique)] *)
Definition move_dir_with_unique (src dst_dir : Path) (ensure_unique : bool) : M Path :=
  exec mkdir_parents dst_dir ;
  let candidate := PathLib.join dst_dir (PathLib.name src) in
  candidate <- (if ensure_unique then
                  r <- unique_candidate
                         (fun i => PathLib.join dst_dir (suffixed (PathLib.name src) EmptyString i))
                         candidate ;
                  ret r.2
                else ret candidate) ;
  exec shutil_move src candidate ;
  ret candidate.

(** ** Configuration and the organizing pass *)

(** The configuration mapping.  [watch_dir] is required; keys that the
    program reads with a default are optional here; absent lists read as
    empty and an absent [collect_unmanaged_dirs] as false. *)
Record Config := {
  watch_dir : string;
  min_age_sec : option Z;
  ignore_ext : list string;
  ignore_names : list string;
  managed_marker : option string;
  collect_unmanaged_dirs : bool;
  unmanaged_dirs_exclude : list string;
  unmanaged_dir_target : option string;
  rules : list Rule;
}.

(** [cfg.get("unmanaged_dir_target", ...)] with its default *)
Definition unmanaged_target_template (cfg : Config) : string :=
  default "%USERPROFILE%/Downloads/_Folders/{YYYY}-{MM}" (unmanaged_dir_target cfg).

(** [p.relative_to(wd).parts], or [None] where it raises [ValueError] *)
Definition relative_to (p wd : Path) : option (list string) :=
  if bool_decide (wd `prefix_of` p) then Some (drop (length wd) p) else None.

Section Pass.
Context `{Platform}.

(** [build_unmanaged_exclude_paths(cfg, now, watch_dir)].  The paths of the
    set are resolved in the source as they are here; [(wd / name).resolve()]
    is the entry [name] of [wd] for a name that is a single path segment
    ([plain_names] below). *)
Definition build_unmanaged_exclude_paths (cfg : Config) (now : Datetime) (wd : Path)
    : gset Path :=
  let paths : gset Path :=
    foldl (fun acc nm => acc ∪ {[ PathLib.join wd nm ]}) ∅ (unmanaged_dirs_exclude cfg) in
  let paths : gset Path :=
    foldl (fun acc r =>
             let td := default EmptyString (to_dir r) in
             if negb (Str.truthy td) then acc
             else
               match relative_to (expand_path td now) wd with
               | Some (top :: _) => acc ∪ {[ PathLib.join wd top ]}
               | _ => acc
               end)
          paths (rules cfg) in
  paths ∪ {[ expand_path (unmanaged_target_template cfg) now ]}.

(** [_skip_by_excludes(dr)] *)
Definition skip_by_excludes (exclude_paths : gset Path) (dr : Path) : bool :=
  existsb (fun ep => bool_decide (dr = ep) || PathLib.is_parent_of dr ep
                     || PathLib.is_parent_of ep dr)
          (elements exclude_paths).

(** The body of the loop over files. *)
Definition file_step (cfg : Config) (dry : bool) (now : Datetime)
    (p : Path) (processed : nat) : M nat :=
  let min_age := default 10 (min_age_sec cfg) in
  let marker := default ".dorg_managed" (managed_marker cfg) in
  c <- is_candidate_file p min_age (ignore_ext cfg) (ignore_names cfg) ;
  if negb c then ret processed
  else
    match match_rule (PathLib.name p) (rules cfg) with
    | None => ret processed
    | Some rule =>
        td <- (match to_dir rule with Some td => ret td | None => raise KeyError end) ;
        let out_dir := expand_path td now in
        let name := build_target_name p rule now 0 in
        if dry then
          exec emit (EvLog (LogDryFile p out_dir name (rule_name rule))) ;
          ret (S processed)
        else
          target <- move_with_unique p out_dir name (ensure_unique rule) ;
          exec mark_managed_dir out_dir marker ;
          exec emit (EvLog (LogMovedFile p target (rule_name rule))) ;
          ret (S processed)
    end.

(** The body of the loop over directories. *)
Definition dir_step (cfg : Config) (dry : bool) (exclude_paths : gset Path)
    (target_root : Path) (d : Path) (processed : nat) : M nat :=
  let min_age := default 10 (min_age_sec cfg) in
  let marker := default ".dorg_managed" (managed_marker cfg) in
  c <- is_candidate_dir d min_age ;
  if negb c then ret processed
  else if bool_decide (PathLib.name d ∈ ignore_names cfg) then ret processed
  else if Str.startswith (PathLib.name d) "." then ret processed
  else
    m <- is_managed_dir d marker ;
    if m then ret processed
    else if skip_by_excludes exclude_paths d then ret processed
    else if dry then
      exec emit (EvLog (LogDryDir d target_root)) ;
      ret (S processed)
    else
      moved <- move_dir_with_unique d target_root true ;
      exec emit (EvLog (LogMovedDir d moved)) ;
      ret (S processed).

(** Part 1 of [process_once]: the loop over the files of the watch
    directory. *)
Definition file_phase (cfg : Config) (dry : bool) (now : Datetime) (watch : Path)
    (processed : nat) : M nat :=
  listing <- iterdir watch ;
  for_loop (sorted listing) (file_step cfg dry now) processed.

(** Part 2 of [process_once]: the collection of the folders that are not
    managed. *)
Definition dir_phase (cfg : Config) (dry : bool) (now : Datetime) (watch : Path)
    (processed : nat) : M nat :=
  let wd := watch in
  let exclude_paths := build_unmanaged_exclude_paths cfg now wd in
  let target_root := expand_path (unmanaged_target_template cfg) now in
  listing <- iterdir watch ;
  for_loop (sorted listing) (dir_step cfg dry exclude_paths target_root) processed.

(** [process_once(cfg, dry)]; [now] is the reading of [datetime.now()]. *)
Definition process_once (cfg : Config) (dry : bool) (now : Datetime) : M nat :=
  let watch := expand_path (watch_dir cfg) now in
  e <- path_exists watch ;
  if negb e then
    exec emit (EvLog (LogWatchMissing watch)) ;
    ret O
  else
    processed <- file_phase cfg dry now watch O ;
    if collect_unmanaged_dirs cfg then dir_phase cfg dry now watch processed
    else ret processed.

End Pass.

(** ** A concrete platform: POSIX *)

Module Posix.

(** The environment of the process. *)
Record Env := {
  (** [os.environ] *)
  environ : list (string * string);
  (** [os.getcwd()] *)
  cwd : Path;
  (** the home directories of the password database, by user name; the
      entry of the current user is under the empty name *)
  passwd : list (string * string);
}.

Definition lookup_assoc (k : string) (l : list (string * string)) : option string :=
  snd <$> List.find (fun kv => String.eqb kv.1 k) l.

(** An excerpt of the table of [mimetypes], by lower-cased extension. *)
Definition mime_table : list (string * string) :=
  [ ("pdf", "application/pdf"); ("zip", "application/zip");
    ("png", "image/png"); ("jpg", "image/jpeg"); ("jpeg", "image/jpeg");
    ("txt", "text/plain"); ("html", "text/html");
    ("mp3", "audio/mpeg"); ("mp4", "video/mp4") ].

Definition guess (nm : string) : option string :=
  lookup_assoc (Str.lstrip "." (Str.ascii_lower (PathLib.suffix_of nm))) mime_table.

(** [fnmatch] for patterns made of literal characters, [?] and [*]. *)
Fixpoint wildcard (pat : string) : string -> bool :=
  match pat with
  | EmptyString => fun s => String.eqb s EmptyString
  | String c pat' =>
      if Ascii.eqb c "*" then
        fix star (s : string) : bool :=
          wildcard pat' s || match s with
                             | EmptyString => false
                             | String _ s' => star s'
                             end
      else
        fun s => match s with
                 | EmptyString => false
                 | String a s' => (Ascii.eqb c "?" || Ascii.eqb c a) && wildcard pat' s'
                 end
  end.

Definition glob (nm pat : string) : bool := wildcard pat nm.

(** A character of [\w] (ASCII). *)
Definition is_word_char (c : ascii) : bool :=
  let n := nat_of_ascii c in
  ((48 <=? n) && (n <=? 57) || (65 <=? n) && (n <=? 90)
   || (97 <=? n) && (n <=? 122) || (n =? 95))%nat.

Fixpoint span_word (s : string) : string :=
  match s with
  | String c s' => if is_word_char c then String c (span_word s') else EmptyString
  | EmptyString => EmptyString
  end.

Fixpoint until_brace (s : string) : option string :=
  match s with
  | EmptyString => None
  | String c s' =>
      if Ascii.eqb c "}" then Some EmptyString
      else String c <$> until_brace s'
  end.

(** The variable reference that starts after a dollar sign: the name, and
    the number of characters of the reference after the dollar sign. *)
Definition var_ref (s : string) : option (string * nat) :=
  match s with
  | String "{" s' =>
      (fun nm => (nm, String.length nm + 2)%nat) <$> until_brace s'
  | _ =>
      let nm := span_word s in
      if String.eqb nm EmptyString then None else Some (nm, String.length nm)
  end.

(** The scan of [posixpath.expandvars]: [skip] characters of a replaced
    reference are still to be dropped, [keep] characters of an unknown
    reference are still to be copied. *)
Fixpoint expandvars_from (env : list (string * string)) (skip keep : nat) (s : string) : string :=
  match s with
  | EmptyString => EmptyString
  | String c s' =>
      match skip, keep with
      | S k, _ => expandvars_from env k keep s'
      | O, S k => String c (expandvars_from env O k s')
      | O, O =>
          if Ascii.eqb c "$" then
            match var_ref s' with
            | Some (nm, n) =>
                match lookup_assoc nm env with
                | Some v => v +:+ expandvars_from env n O s'
                | None => String c (expandvars_from env O n s')
                end
            | None => String c (expandvars_from env O O s')
            end
          else String c (expandvars_from env O O s')
      end
  end.

Definition expand_vars (e : Env) (s : string) : string :=
  expandvars_from (environ e) O O s.

(** [s.rstrip(c)] *)
Fixpoint rstrip (c : ascii) (s : string) : string :=
  match s with
  | EmptyString => EmptyString
  | String a s' =>
      let r := rstrip c s' in
      if Ascii.eqb a c && String.eqb r EmptyString then EmptyString else String a r
  end.

(** The text before the first slash, and the text from it on. *)
Fixpoint break_slash (s : string) : string * string :=
  match s with
  | EmptyString => (EmptyString, EmptyString)
  | String c s' =>
      if Ascii.eqb c "/" then (EmptyString, s)
      else let '(a, b) := break_slash s' in (String c a, b)
  end.

(** [posixpath.expanduser] *)
Definition expand_user (e : Env) (s : string) : string :=
  match s with
  | String "~" rest =>
      let '(user, tail) := break_slash rest in
      let home :=
        if String.eqb user EmptyString then
          match lookup_assoc "HOME" (environ e) with
          | Some h => Some h
          | None => lookup_assoc EmptyString (passwd e)
          end
        else lookup_assoc user (passwd e) in
      match home with
      | Some h =>
          let r := rstrip "/" h +:+ tail in
          if String.eqb r EmptyString then "/" else r
      | None => s
      end
  | _ => s
  end.

(** The segments of a path string. *)
Fixpoint split_slash (s : string) : list string :=
  match s with
  | EmptyString => [EmptyString]
  | String c s' =>
      if Ascii.eqb c "/" then EmptyString :: split_slash s'
      else match split_slash s' with
           | h :: t => String c h :: t
           | [] => [String c EmptyString]
           end
  end.

(** [Path(s).resolve()] without symbolic links *)
Definition locate (e : Env) (s : string) : Path :=
  foldl (fun acc seg =>
           if String.eqb seg EmptyString || String.eqb seg "." then acc
           else if String.eqb seg ".." then removelast acc
           else acc ++ [seg])
        (if Str.startswith s "/" then [] else cwd e)
        (split_slash s).

Definition platform (e : Env) : Platform := {|
  lower := Str.ascii_lower;
  guess_type := guess;
  fnmatch := glob;
  expandvars := expand_vars e;
  expanduser := expand_user e;
  to_path := locate e;
|}.

End Posix.

(** ** Vocabulary of the properties *)

(** [old in s]: [old] occurs in [s] as a substring. *)
Fixpoint occurs (old s : string) : bool :=
  String.prefix old s ||
  match s with
  | EmptyString => false
  | String _ s' => occurs old s'
  end.

(** None of the [keys] occurs in [s]. *)
Definition no_placeholder (keys : list string) (s : string) : Prop :=
  Forall (fun k => occurs k s = false) keys.

(** Two timestamps that [strftime] cannot tell apart: they agree up to the
    second. *)
Definition same_second (a b : Datetime) : Prop :=
  year a = year b ∧ month a = month b ∧ day a = day b ∧
  hour a = hour b ∧ minute a = minute b ∧ second a = second b.

(** The extension part that [build_target_name] appends. *)
Definition ext_part (ext : string) : string :=
  if Str.truthy ext then "." +:+ ext else EmptyString.

(** The keys of the two dictionaries of placeholders. *)
Definition path_keys : list string := ["{YYYY}"; "{MM}"; "{DD}"; "{date}"; "{time}"].
Definition name_keys : list string := ["{stem}"; "{ext}"; "{date}"; "{time}"; "{counter}"].

(** ** Sample data for the examples *)

Module Sample.

(** A process with [HOME=/home/u], started in [/home/u]. *)
Definition env : Posix.Env := {|
  Posix.environ := [("HOME", "/home/u")];
  Posix.cwd := ["home"; "u"];
  Posix.passwd := [];
|}.

Definition posix : Platform := Posix.platform env.

(** 3 November 2026, 09:05:07 *)
Definition now : Datetime := {|
  year := 2026; month := 11; day := 3;
  hour := 9; minute := 5; second := 7; microsecond := 0;
|}.

(** The same second, some microseconds later. *)
Definition later : Datetime := {|
  year := 2026; month := 11; day := 3;
  hour := 9; minute := 5; second := 7; microsecond := 250;
|}.

Definition downloads : Path := ["home"; "u"; "Downloads"].

Definition rule_pdf : Rule := {|
  rule_name := "pdf";
  match_ext := ["PDF"]; match_mime := []; match_glob := []; match_all := false;
  to_dir := Some "~/Downloads/out/{YYYY}";
  rename := Some "{stem}_{date}";
  ensure_unique := true;
|}.

Definition rule_images : Rule := {|
  rule_name := "images";
  match_ext := []; match_mime := ["image/"]; match_glob := []; match_all := false;
  to_dir := Some "~/Downloads/Images";
  rename := None;
  ensure_unique := true;
|}.

Definition rule_rest : Rule := {|
  rule_name := "rest";
  match_ext := []; match_mime := []; match_glob := []; match_all := true;
  to_dir := Some "~/Sorted";
  rename := None;
  ensure_unique := true;
|}.

(** The watch directory [/home/u/Downloads] at time 100. *)
Definition tree : gmap Path Node :=
  list_to_map [
    ([], Dir 0); (["home"], Dir 0); (["home"; "u"], Dir 0); (downloads, Dir 0);
    (downloads ++ ["report.pdf"], File 50);
    (downloads ++ ["a.PNG"], File 50);
    (downloads ++ ["b.part.crdownload"], File 50);
    (downloads ++ [".dorg_managed"], File 50);
    (downloads ++ ["misc"], Dir 50);
    (downloads ++ ["misc"; "x"], File 50);
    (downloads ++ [".hidden"], Dir 50);
    (downloads ++ ["young"], Dir 95);
    (["home"; "u"; "Sorted"], Dir 0);
    (["home"; "u"; "Sorted"; "report.pdf"], File 1);
    (["home"; "u"; "Sorted"; "report_1.pdf"], File 2) ].

Definition world : World := {| files := tree; clock := 100; calls := [] |}.

Definition config : Config := {|
  watch_dir := "~/Downloads";
  min_age_sec := None;
  ignore_ext := [".crdownload"];
  ignore_names := ["desktop.ini"];
  managed_marker := None;
  collect_unmanaged_dirs := true;
  unmanaged_dirs_exclude := [];
  unmanaged_dir_target := Some "~/Downloads/_Folders/{YYYY}-{MM}";
  rules := [rule_pdf; rule_images];
|}.

(** The same with the folder [misc] kept out of the collection. *)
Definition config_keep : Config := {|
  watch_dir := "~/Downloads";
  min_age_sec := None;
  ignore_ext := [".crdownload"];
  ignore_names := ["desktop.ini"];
  managed_marker := None;
  collect_unmanaged_dirs := true;
  unmanaged_dirs_exclude := ["misc"];
  unmanaged_dir_target := Some "~/Downloads/_Folders/{YYYY}-{MM}";
  rules := [rule_pdf; rule_images];
|}.

(** A rule that sorts the files of the watch directory into the watch
    directory itself. *)
Definition rule_stay : Rule := {|
  rule_name := "stay";
  match_ext := []; match_mime := []; match_glob := []; match_all := true;
  to_dir := Some "~/Downloads";
  rename := None;
  ensure_unique := true;
|}.

Definition tree_stay : gmap Path Node :=
  list_to_map [
    ([], Dir 0); (["home"], Dir 0); (["home"; "u"], Dir 0); (downloads, Dir 0);
    (downloads ++ ["#a.txt"], File 50);
    (downloads ++ [".dorg_managed"], File 50) ].

Definition world_stay : World := {| files := tree_stay; clock := 100; calls := [] |}.

Definition config_stay : Config := {|
  watch_dir := "~/Downloads";
  min_age_sec := None;
  ignore_ext := [];
  ignore_names := [];
  managed_marker := None;
  collect_unmanaged_dirs := false;
  unmanaged_dirs_exclude := [];
  unmanaged_dir_target := None;
  rules := [rule_stay];
|}.

(** A rule whose destination is taken by a regular file. *)
Definition rule_blocked : Rule := {|
  rule_name := "blocked";
  match_ext := []; match_mime := []; match_glob := []; match_all := true;
  to_dir := Some "~/Sorted";
  rename := None;
  ensure_unique := true;
|}.

Definition tree_blocked : gmap Path Node :=
  list_to_map [
    ([], Dir 0); (["home"], Dir 0); (["home"; "u"], Dir 0); (downloads, Dir 0);
    (downloads ++ ["a.txt"], File 50);
    (["home"; "u"; "Sorted"], File 1) ].

Definition world_blocked : World := {| files := tree_blocked; clock := 100; calls := [] |}.

Definition config_blocked : Config := {|
  watch_dir := "~/Downloads";
  min_age_sec := None;
  ignore_ext := [];
  ignore_names := [];
  managed_marker := None;
  collect_unmanaged_dirs := false;
  unmanaged_dirs_exclude := [];
  unmanaged_dir_target := None;
  rules := [rule_blocked];
|}.

(** A process started in the folder [sub] of the watch directory, and a rule
    with an empty destination: the files go to the working directory. *)
Definition env_sub : Posix.Env := {|
  Posix.environ := [("HOME", "/home/u")];
  Posix.cwd := downloads ++ ["sub"];
  Posix.passwd := [];
|}.

Definition posix_sub : Platform := Posix.platform env_sub.

Definition rule_here : Rule := {|
  rule_name := "here";
  match_ext := []; match_mime := []; match_glob := []; match_all := true;
  to_dir := Some EmptyString;
  rename := None;
  ensure_unique := true;
|}.

Definition tree_sub : gmap Path Node :=
  list_to_map [
    ([], Dir 0); (["home"], Dir 0); (["home"; "u"], Dir 0); (downloads, Dir 0);
    (downloads ++ ["a.txt"], File 50);
    (downloads ++ ["sub"], Dir 50) ].

Definition world_sub : World := {| files := tree_sub; clock := 100; calls := [] |}.

Definition config_sub : Config := {|
  watch_dir := "~/Downloads";
  min_age_sec := None;
  ignore_ext := [];
  ignore_names := [];
  managed_marker := None;
  collect_unmanaged_dirs := true;
  unmanaged_dirs_exclude := [];
  unmanaged_dir_target := Some "~/Folders";
  rules := [rule_here];
|}.

(** A rule that lists its extension with the dot. *)
Definition rule_dotted : Rule := {|
  rule_name := "dotted";
  match_ext := [".pdf"]; match_mime := []; match_glob := []; match_all := false;
  to_dir := Some "~/Sorted";
  rename := None;
  ensure_unique := true;
|}.

(** A rule without destination. *)
Definition rule_no_dir : Rule := {|
  rule_name := "nowhere";
  match_ext := []; match_mime := []; match_glob := []; match_all := true;
  to_dir := None;
  rename := None;
  ensure_unique := true;
|}.

Definition config_no_dir : Config := {|
  watch_dir := "~/Downloads";
  min_age_sec := None;
  ignore_ext := [];
  ignore_names := [];
  managed_marker := None;
  collect_unmanaged_dirs := false;
  unmanaged_dirs_exclude := [];
  unmanaged_dir_target := None;
  rules := [rule_no_dir];
|}.



End Sample.

(** A file is a candidate, in the words of the specification: it is a
    regular file, its name is not ignored, its lower-cased name ends with
    no ignored suffix, and it is at least [min_age_sec] old. *)
Definition candidate_file `{Platform} (fs : gmap Path Node) (time : Z)
    (path : Path) (min_age_sec : Z) (ignore_ext ignore_names : list string) : Prop :=
  ∃ m, fs !! path = Some (File m) ∧
       (PathLib.name path ∉ ignore_names) ∧
       Forall (fun ie => Str.endswith (lower (PathLib.name path)) (lower ie) = false) ignore_ext ∧
       min_age_sec ≤ time - m.

(** The regular file at [q], by its modification time, and the directory
    at [q]. *)
Definition fview (fs : gmap Path Node) (q : Path) : option Z :=
  match fs !! q with Some (File m) => Some m | _ => None end.

Definition dview (fs : gmap Path Node) (q : Path) : option Z :=
  match fs !! q with Some (Dir t) => Some t | _ => None end.

(** The file system is a tree: every entry but the root lies in a
    directory. *)
Definition tree_shaped (fs : gmap Path Node) : Prop :=
  ∀ q n, fs !! q = Some n → q ≠ [] → ∃ t, fs !! parent q = Some (Dir t).

(** A computation whose every run relates the world before and the world
    after by [T]. *)
Definition respects {A} (T : World -> World -> Prop) (m : M A) : Prop :=
  ∀ w, T w (m w).2.

(** The calls of a run, all satisfying [P], are added to the record. *)
Definition adds_calls (P : Event -> Prop) (w w' : World) : Prop :=
  ∃ delta, calls w' = calls w ++ delta ∧ Forall P delta.

(** The file system and the clock are left as they are. *)
Definition same_files (w w' : World) : Prop :=
  files w' = files w ∧ clock w' = clock w.

(** What making directories on the way to [p] may change: the clock and
    the regular files stay, entries that are not a prefix of [p] stay,
    directories stay directories, and a tree stays a tree. *)
Definition mkdir_effect (p : Path) (w w' : World) : Prop :=
  clock w' = clock w ∧
  (∀ q, fview (files w') q = fview (files w) q) ∧
  (∀ q, ¬ q `prefix_of` p → files w' !! q = files w !! q) ∧
  (∀ q t, files w !! q = Some (Dir t) → ∃ t', files w' !! q = Some (Dir t')) ∧
  (tree_shaped (files w) → tree_shaped (files w')).

(** The paths probed by [move_with_unique]: the plain name in round 0, the
    name with the counter put before the extension from round 1 on. *)
Definition probe (dst_dir : Path) (target_name : string) (i : nat) : Path :=
  match i with
  | O => PathLib.join dst_dir target_name
  | S _ =>
      PathLib.join dst_dir
        (suffixed (PathLib.splitext target_name).1 (PathLib.splitext target_name).2 i)
  end.


(** The answers of [is_candidate_file] and [is_candidate_dir] in a given
    file system at a given time. *)
Definition candidate_fileb `{Platform} (fs : gmap Path Node) (time : Z)
    (path : Path) (min_age_sec : Z) (ignore_ext ignore_names : list string) : bool :=
  match fs !! path with
  | Some (File m) =>
      negb (bool_decide (PathLib.name path ∈ ignore_names))
      && negb (existsb (fun ie => Str.endswith (lower (PathLib.name path)) (lower ie)) ignore_ext)
      && bool_decide (min_age_sec ≤ time - m)
  | _ => false
  end.

Definition candidate_dirb (fs : gmap Path Node) (time : Z) (path : Path) (min_age_sec : Z) : bool :=
  match fs !! path with
  | Some (Dir t) => bool_decide (min_age_sec ≤ time - t)
  | _ => false
  end.

(** [cfg.get("min_age_sec", 10)] and [cfg.get("managed_marker", ...)] *)
Definition min_age (cfg : Config) : Z := default 10 (min_age_sec cfg).
Definition marker_name (cfg : Config) : string := default ".dorg_managed" (managed_marker cfg).


(** The same as a boolean, in the order of the tests of the loop. *)
Definition dir_skippedb (cfg : Config) (exclude_paths : gset Path)
    (fs : gmap Path Node) (time : Z) (d : Path) : bool :=
  negb (candidate_dirb fs time d (min_age cfg))
  || bool_decide (PathLib.name d ∈ ignore_names cfg)
  || Str.startswith (PathLib.name d) "."
  || bool_decide (is_Some (fs !! PathLib.join d (marker_name cfg)))
  || skip_by_excludes exclude_paths d.


(** The name built for [src] when the counter placeholder is replaced by
    the empty string. *)
Definition name_without_counter `{Platform} (src : Path) (rule : Rule) (dt : Datetime) : string :=
  sanitize
    (Str.replace "{counter}" EmptyString
       (replace_all [ ("{stem}", PathLib.stem_of (PathLib.name src));
                      ("{ext}", ext_of (PathLib.name src));
                      ("{date}", strftime_date dt);
                      ("{time}", strftime_time dt) ]
          (rename_template rule)))
  +:+ ext_part (ext_of (PathLib.name src)).

(** The names probed by [move_with_unique] for the name [nm]: the name
    itself in round 0, the name with the counter of the mover put before
    the extension from round 1 on. *)
Definition probe_name (nm : string) (i : nat) : string :=
  match i with
  | O => nm
  | S _ => suffixed (PathLib.splitext nm).1 (PathLib.splitext nm).2 i
  end.

(** What the log says of a processed file, [rule] being the rule that
    [match_rule] returns for it.  The name reported by a dry run is the
    name in which the counter placeholder is replaced by the empty string.
    The target reported by a real run, when that name is a single path
    segment, is named by a probe name of it: the name itself, or the name
    with the suffix of the mover; without [ensure_unique] it is the name
    itself. *)
Definition built_with_counter_zero `{Platform} (cfg : Config) (now : Datetime) (e : Event) : Prop :=
  match e with
  | EvLog (LogDryFile src _ nm _) =>
      ∃ rule, match_rule (PathLib.name src) (rules cfg) = Some rule ∧
              nm = name_without_counter src rule now
  | EvLog (LogMovedFile src target _) =>
      ∃ rule, match_rule (PathLib.name src) (rules cfg) = Some rule ∧
              (is_segment (name_without_counter src rule now) = true →
               ∃ i, PathLib.name target = probe_name (name_without_counter src rule now) i ∧
                    (ensure_unique rule = false → i = O))
  | _ => True
  end.


(** The world after one more call. *)
Definition with_call (e : Event) (w : World) : World :=
  {| files := files w; clock := clock w; calls := calls w ++ [e] |}.

(** Frames: what a run leaves as it is outside a set [S] of paths, for the
    entries themselves, for the regular files and for the directories. *)
Definition lframe (S : Path -> Prop) (w w' : World) : Prop :=
  clock w' = clock w ∧ ∀ q, ¬ S q → files w' !! q = files w !! q.

Definition fframe (S : Path -> Prop) (w w' : World) : Prop :=
  clock w' = clock w ∧ ∀ q, ¬ S q → fview (files w') q = fview (files w) q.

Definition dframe (S : Path -> Prop) (w w' : World) : Prop :=
  clock w' = clock w ∧ ∀ q, ¬ S q → dview (files w') q = dview (files w) q.

(** The paths that the processing of the file [p] towards the directory
    [out] may change: as entries, as regular files, as directories. *)
Definition file_step_lset (out p q : Path) : Prop :=
  q `prefix_of` out ∨ q = p ∨ q = parent p ∨ is_child out q
  ∨ ∃ c, is_child out c ∧ q = PathLib.join c (PathLib.name p).

Definition file_step_fset (out p q : Path) : Prop :=
  q = p ∨ q = parent p ∨ is_child out q
  ∨ ∃ c, is_child out c ∧ q = PathLib.join c (PathLib.name p).

Definition file_step_dset (out p q : Path) : Prop :=
  q `prefix_of` out ∨ q = parent p ∨ is_child out q.

(** The rule that the loop over files applies to [p], if any: [p] is a
    candidate and a rule matches its name. *)
Definition file_choice `{Platform} (cfg : Config) (fs : gmap Path Node) (time : Z)
    (p : Path) : option Rule :=
  if candidate_fileb fs time p (min_age cfg) (ignore_ext cfg) (ignore_names cfg)
  then match_rule (PathLib.name p) (rules cfg)
  else None.

(** The destinations of the rules are usable for a comparison of the dry
    run with the real run: no rule has an empty destination template, and
    no destination is the watch directory itself. *)
Definition destinations_apart `{Platform} (cfg : Config) (now : Datetime) (watch : Path) : Prop :=
  ∀ rule td, rule ∈ rules cfg → to_dir rule = Some td →
             td ≠ EmptyString ∧ expand_path td now ≠ watch.

(** What the sweep reads of a directory entry [d]: the directory at [d]
    and the presence of the marker in it. *)
Definition sweep_view (cfg : Config) (fs : gmap Path Node) (d : Path) : option Z * bool :=
  (dview fs d, bool_decide (is_Some (fs !! PathLib.join d (marker_name cfg)))).

(** Two file systems look the same to the sweep at every entry of the
    watch directory that the exclusion set does not cover. *)
Definition sweep_agree (cfg : Config) (excl : gset Path) (watch : Path)
    (fs fs' : gmap Path Node) : Prop :=
  ∀ d, is_child watch d → skip_by_excludes excl d = false →
       sweep_view cfg fs d = sweep_view cfg fs' d.

(** What the move of [d] into [root] may change: the entries on the way to
    [root] and below it, the entries below [d], and the directory that
    holds [d]. *)
Definition dir_step_lset (root d q : Path) : Prop :=
  q `prefix_of` root ∨ root `prefix_of` q ∨ d `prefix_of` q ∨ q = parent d.

(** The entries of a listing that the sweep acts upon. *)
Definition swept (cfg : Config) (excl : gset Path) (fs : gmap Path Node) (time : Z)
    (l : list Path) : list Path :=
  filter (fun d => dir_skippedb cfg excl fs time d = false) l.

(** The character that the sanitizing loop leaves in the place of [c]. *)
Definition clean_char (c : ascii) : ascii :=
  if bool_decide (c ∈ bad_chars) then "_"%char else c.

(** [s] with every character replaced by its image under [f]. *)
Fixpoint map_chars (f : ascii -> ascii) (s : string) : string :=
  match s with
  | EmptyString => EmptyString
  | String c s' => String (f c) (map_chars f s')
  end.


(** What a pass may move: an entry of the watch directory whose name is not
    ignored, and that is either named like a file to sort (no ignored
    suffix, and a rule for the name) or like a folder to collect (the
    collection is switched on, no leading dot, and the exclusion set does
    not cover it). *)
Definition movable `{Platform} (cfg : Config) (now : Datetime) (watch src : Path) : Prop :=
  is_child watch src ∧ (PathLib.name src ∉ ignore_names cfg) ∧
  ((existsb (fun ie => Str.endswith (lower (PathLib.name src)) (lower ie)) (ignore_ext cfg)
    = false ∧ is_Some (match_rule (PathLib.name src) (rules cfg)))
   ∨ (collect_unmanaged_dirs cfg = true ∧ Str.startswith (PathLib.name src) "." = false ∧
      skip_by_excludes (build_unmanaged_exclude_paths cfg now watch) src = false)).

(** A call that is no move, or the move of a movable entry. *)
Definition moves_movable `{Platform} (cfg : Config) (now : Datetime) (watch : Path)
    (e : Event) : Prop :=
  match e with
  | EvRename src _ => movable cfg now watch src
  | _ => True
  end.

(** The paths probed by [move_dir_with_unique]: the name of the folder in
    round 0, the name followed by the counter from round 1 on. *)
Definition probe_dir (dst_dir : Path) (nm : string) (i : nat) : Path :=
  match i with
  | O => PathLib.join dst_dir nm
  | S _ => PathLib.join dst_dir (suffixed nm EmptyString i)
  end.

(** A log line that reports one item, processed or to be processed. *)
Definition is_report (e : Event) : bool :=
  match e with
  | EvLog (LogDryFile _ _ _ _) | EvLog (LogMovedFile _ _ _)
  | EvLog (LogDryDir _ _) | EvLog (LogMovedDir _ _) => true
  | _ => false
  end.

(** The number of items reported by a list of calls. *)
Definition reports (evs : list Event) : nat :=
  length (filter (fun e => is_report e = true) evs).

(** A run that adds calls reporting [k] items. *)
Definition counted (k : nat) (w w' : World) : Prop :=
  ∃ delta, calls w' = calls w ++ delta ∧ reports delta = k.

(** ** Well-formed configurations *)

(** The path string [s] has no [..] component.  The program keeps
    [Path(s)] as it is written, and the system follows a [..] through the
    folder named before it; without [..] the path written and
    [Path(s).resolve()] name the same entry in every call, whether or not
    the folders on the way exist. *)
Definition no_dot_dot (s : string) : bool :=
  negb (existsb (String.eqb "..") (Posix.split_slash s)).

(** The components of the path that [Path(s)] is as it is written, below
    its anchor: the segments of [s] without the empty ones and without
    [.]; a [..] stays. *)
Definition written_parts (s : string) : list string :=
  filter (fun seg => seg ≠ EmptyString ∧ seg ≠ ".") (Posix.split_slash s).

(** The marker and the names of [unmanaged_dirs_exclude] are single path
    segments, as names of entries are: [dir / name] is then the entry
    [name] of [dir]. *)
Definition plain_names (cfg : Config) : Prop :=
  is_segment (marker_name cfg) = true ∧
  Forall (fun nm => is_segment nm = true) (unmanaged_dirs_exclude cfg).

(** The watch directory, the destinations of the rules and the archive
    root are written without [..]. *)
Definition plain_paths `{Platform} (cfg : Config) (now : Datetime) : Prop :=
  no_dot_dot (expand_path_str (watch_dir cfg) now) = true ∧
  Forall (fun rule => from_option (fun td => no_dot_dot (expand_path_str td now)) true
                        (to_dir rule) = true) (rules cfg) ∧
  no_dot_dot (expand_path_str (unmanaged_target_template cfg) now) = true.

(** The names built for the entries of the listing [l] are single path
    segments. *)
Definition plain_built_names `{Platform} (cfg : Config) (now : Datetime) (l : list Path) : Prop :=
  Forall (fun p => from_option (fun rule => is_segment (build_target_name p rule now 0)) true
                     (match_rule (PathLib.name p) (rules cfg)) = true) l.

(** ** The text of the configuration file *)

(** The three substitutions of [_load_config_text], on the text read from
    the file: a [string] is the list of the characters of the text, for a
    text of code points below 256. *)

(** [re.sub(r'//.*', '', text)]: from a double slash to the end of the
    line, the line feed not included ([.] matches every character but the
    line feed); [inside] tells that the scan is within a match. *)
Fixpoint sub_line_comments (inside : bool) (s : string) : string :=
  match s with
  | EmptyString => EmptyString
  | String c s' =>
      if inside then
        if Ascii.eqb c "010" then String c (sub_line_comments false s')
        else sub_line_comments true s'
      else if String.prefix "//" s then sub_line_comments true s'
      else String c (sub_line_comments false s')
  end.

(** The number of characters before the first [*/] of [s]. *)
Fixpoint find_close (s : string) : option nat :=
  match s with
  | EmptyString => None
  | String _ s' => if String.prefix "*/" s then Some O else S <$> find_close s'
  end.

(** [s[1:]] *)
Definition tail (s : string) : string :=
  match s with
  | EmptyString => EmptyString
  | String _ s' => s'
  end.

(** [re.sub(r'/\*.*?\*/', '', text, flags=re.S)]: from [/*] to the first
    [*/] after it, line feeds included; a [/*] that is never closed stays.
    [skip] counts the characters of the match that are still to be passed
    over. *)
Fixpoint sub_block_comments (skip : nat) (s : string) : string :=
  match s with
  | EmptyString => EmptyString
  | String c s' =>
      match skip with
      | S k => sub_block_comments k s'
      | O =>
          if String.prefix "/*" s then
            match find_close (tail s') with
            | Some k => sub_block_comments (k + 3) s'
            | None => String c (sub_block_comments O s')
            end
          else String c (sub_block_comments O s')
      end
  end.

(** [\s] on the characters below 256: the characters for which
    [str.isspace] holds. *)
Definition is_space (c : ascii) : bool :=
  let n := nat_of_ascii c in
  ((9 <=? n) && (n <=? 13) || (28 <=? n) && (n <=? 32) || (n =? 133) || (n =? 160))%nat.

(** The length of the run of white space at the head of [s]. *)
Fixpoint span_space (s : string) : nat :=
  match s with
  | String c s' => if is_space c then S (span_space s') else O
  | EmptyString => O
  end.

(** A closing brace or bracket. *)
Definition is_close (c : ascii) : bool := Ascii.eqb c "}" || Ascii.eqb c "]".

(** [re.sub(r',\s*([}\]])', r'\1', text)]: a comma that is followed, after
    any white space, by a closing brace or bracket is dropped with that
    white space. *)
Fixpoint sub_trailing_commas (skip : nat) (s : string) : string :=
  match s with
  | EmptyString => EmptyString
  | String c s' =>
      match skip with
      | S k => sub_trailing_commas k s'
      | O =>
          if Ascii.eqb c "," && from_option is_close false (String.get (span_space s') s')
          then sub_trailing_commas (span_space s') s'
          else String c (sub_trailing_commas O s')
      end
  end.

(** [_load_config_text(path)], of the text read from [path] *)
Definition _load_config_text (text : string) : string :=
  let text := sub_line_comments false text in
  let text := sub_block_comments O text in
  let text := sub_trailing_commas O text in
  text.

(** The part of the file system that a pass works in: the watch directory
    with all that is below it, the destinations of the rules with what is
    above and below them and, when folders are collected, the archive root
    with what is above and below it. *)
Definition pass_footprint `{Platform} (cfg : Config) (now : Datetime) (q : Path) : Prop :=
  expand_path (watch_dir cfg) now `prefix_of` q
  ∨ (∃ rule td, rule ∈ rules cfg ∧ to_dir rule = Some td ∧
                (q `prefix_of` expand_path td now ∨ expand_path td now `prefix_of` q))
  ∨ (collect_unmanaged_dirs cfg = true ∧
     (q `prefix_of` expand_path (unmanaged_target_template cfg) now
      ∨ expand_path (unmanaged_target_template cfg) now `prefix_of` q)).



(** * Properties *)

(** ** The sample configuration is well formed *)

Lemma sample_plain_names : plain_names Sample.config.
Proof. split; [reflexivity|constructor]. Defined.

Lemma sample_plain_paths : @plain_paths Sample.posix Sample.config Sample.now.
Proof.
  split; [vm_compute; reflexivity|]. split; [|vm_compute; reflexivity].
  repeat constructor.
Defined.

(** ** Rule matching *)

Section MatchingFacts.
Context `{Platform}.

Lemma existsb_elem_of {A} (f : A -> bool) (l : list A) :
  existsb f l = true ↔ ∃ x, x ∈ l ∧ f x = true.
Proof.
  rewrite existsb_exists. split; intros (x & Hx & Hf); exists x; split; auto;
    by apply list_elem_of_In.
Qed.

Lemma truthy_true s : Str.truthy s = true ↔ s ≠ EmptyString.
Proof.
  unfold Str.truthy. rewrite negb_true_iff. apply String.eqb_neq.
Qed.

(** One round of the loop returns the rule exactly when one of the four
    predicates holds for it. *)
Lemma rule_hit_matches nm r :
  rule_hit nm (ext_of nm) (guess_type nm) r = true ↔ rule_matches nm r.
Proof.
  unfold rule_hit, rule_matches, ext_matches, mime_matches, glob_matches.
  set (exts := lower <$> match_ext r). set (mp := lower <$> match_mime r).
  split.
  - destruct (negb (bool_decide (exts = [])) && bool_decide (ext_of nm ∈ exts)) eqn:He.
    { intros _. left. apply andb_true_iff in He as [_ He].
      by apply bool_decide_eq_true in He. }
    destruct ((negb (bool_decide (mp = [])) && from_option Str.truthy false (guess_type nm))
              && existsb _ mp) eqn:Hm.
    { intros _. right. left.
      apply andb_true_iff in Hm as [_ Hm].
      apply existsb_elem_of in Hm as (pref & Hin & Hp).
      destruct (guess_type nm) as [m|]; [|done]. cbn [from_option] in Hp.
      apply andb_true_iff in Hp as [Ht Hp]. apply truthy_true in Ht.
      exists m, pref. by repeat split. }
    destruct (existsb _ (match_glob r)) eqn:Hg.
    { intros _. right. right. left.
      apply existsb_elem_of in Hg as (g & Hin & Hg). by exists g. }
    destruct (match_all r); [by auto|done].
  - intros [He|[(m & pref & Hgt & Hm & Hin & Hp)|[(g & Hin & Hg)|Ha]]].
    + assert (negb (bool_decide (exts = [])) && bool_decide (ext_of nm ∈ exts) = true) as ->; [|done].
      apply andb_true_iff; split; [|by apply bool_decide_eq_true].
      apply negb_true_iff, bool_decide_eq_false. intros E. rewrite E in He. by apply elem_of_nil in He.
    + destruct (_ && bool_decide (ext_of nm ∈ exts)); [done|].
      assert ((negb (bool_decide (mp = [])) && from_option Str.truthy false (guess_type nm))
              && existsb (fun pref => from_option (fun m => Str.truthy m && Str.startswith (lower m) pref)
                                        false (guess_type nm)) mp = true) as ->; [|done].
      rewrite Hgt. cbn [from_option]. apply truthy_true in Hm.
      repeat (apply andb_true_iff; split); try done.
      * apply negb_true_iff, bool_decide_eq_false. intros E. rewrite E in Hin. by apply elem_of_nil in Hin.
      * apply existsb_elem_of. exists pref. split; [done|]. by apply andb_true_iff.
    + destruct (_ && bool_decide (ext_of nm ∈ exts)); [done|].
      destruct (_ && existsb _ mp); [done|].
      assert (existsb (fun g => fnmatch nm g) (match_glob r) = true) as ->; [|done].
      apply existsb_elem_of. by exists g.
    + destruct (_ && bool_decide (ext_of nm ∈ exts)); [done|].
      destruct (_ && existsb _ mp); [done|].
      destruct (existsb _ (match_glob r)); [done|]. by rewrite Ha.
Qed.

(** C1.  [match_rule] returns the first rule of the list, in list order,
    for which the extension, MIME-prefix, glob or catch-all predicate
    holds: the rules before it match nothing, whatever the rules after it
    match; it returns [None] exactly when no rule matches. *)
Theorem match_rule_first_match (nm : string) (rules : list Rule) :
  match match_rule nm rules with
  | Some r =>
      ∃ before after,
        rules = before ++ r :: after ∧
        Forall (fun r' => ¬ rule_matches nm r') before ∧
        rule_matches nm r
  | None => Forall (fun r' => ¬ rule_matches nm r') rules
  end.
Proof.
  unfold match_rule. induction rules as [|r rest IH]; simpl; [constructor|].
  destruct (rule_hit nm (ext_of nm) (guess_type nm) r) eqn:Hhit.
  - exists [], rest. split; [done|]. split; [constructor|]. by apply rule_hit_matches.
  - assert (¬ rule_matches nm r) as Hno.
    { intros Hm. apply rule_hit_matches in Hm. congruence. }
    destruct (match_rule_loop nm (ext_of nm) (guess_type nm) rest) as [r'|].
    + destruct IH as (before & after & -> & Hb & Hr).
      exists (r :: before), after. split; [done|]. split; [by constructor|done].
    + by constructor.
Qed.

End MatchingFacts.

(** ** The path written and the entry it names *)

Lemma split_slash_segment (s : string) :
  Str.contains "/" s = false → Posix.split_slash s = [s].
Proof.
  induction s as [|c s IH]; [done|]. cbn [Str.contains Posix.split_slash].
  intros [Hc Hs]%orb_false_iff. rewrite Hc, (IH Hs). done.
Qed.

(** A single path segment is the one component of the path it writes. *)
Lemma written_parts_segment (s : string) : is_segment s = true → written_parts s = [s].
Proof.
  unfold is_segment, written_parts.
  intros [[[Ht Hc]%andb_true_iff Hd]%andb_true_iff Hdd]%andb_true_iff.
  apply negb_true_iff in Hc, Hd. rewrite (split_slash_segment s Hc).
  apply truthy_true in Ht. apply String.eqb_neq in Hd.
  cbn. rewrite decide_True; done.
Qed.

(** Without [..], resolving changes nothing: the entry that a path string
    names has the components written, below the root or below the working
    directory. *)
Lemma locate_written (e : Posix.Env) (s : string) :
  no_dot_dot s = true →
  Posix.locate e s
  = (if Str.startswith s "/" then [] else Posix.cwd e) ++ written_parts s.
Proof.
  unfold no_dot_dot, Posix.locate, written_parts. intros Hn%negb_true_iff.
  generalize (if Str.startswith s "/" then [] else Posix.cwd e) as base.
  revert Hn. generalize (Posix.split_slash s) as l. clear s.
  induction l as [|seg l IH]; intros Hn base; cbn [foldl filter existsb] in *.
  - by rewrite app_nil_r.
  - apply orb_false_iff in Hn as [Hseg Hn]. rewrite (IH Hn). clear IH.
    rewrite filter_cons.
    destruct (String.eqb seg EmptyString) eqn:E1; cbn [orb].
    + apply String.eqb_eq in E1. subst seg. rewrite decide_False; [done|]. by intros [? _].
    + destruct (String.eqb seg ".") eqn:E2.
      * apply String.eqb_eq in E2. subst seg. rewrite decide_False; [done|]. by intros [_ ?].
      * rewrite String.eqb_sym in Hseg. rewrite Hseg.
        apply String.eqb_neq in E1, E2. rewrite decide_True by done.
        by rewrite <- app_assoc.
Qed.

(** ** Strings *)

#[local] Arguments String.append !_ _ / : simpl nomatch.

Lemma append_nil_r (s : string) : s +:+ EmptyString = s.
Proof. induction s; simpl; congruence. Qed.

Lemma append_assoc (a b c : string) : (a +:+ b) +:+ c = a +:+ (b +:+ c).
Proof. induction a; simpl; congruence. Qed.

Lemma length_append (a b : string) :
  String.length (a +:+ b) = (String.length a + String.length b)%nat.
Proof. induction a; simpl; congruence. Qed.

Lemma endswith_append (a b : string) : Str.endswith (a +:+ b) b = true.
Proof.
  induction a as [|c a IH].
  - destruct b; cbn [Str.endswith String.append]; by rewrite String.eqb_refl.
  - cbn [Str.endswith String.append].
    by destruct (String.eqb (String c (a +:+ b)) b).
Qed.

Lemma contains_append (c : ascii) (a b : string) :
  Str.contains c (a +:+ b) = Str.contains c a || Str.contains c b.
Proof. induction a as [|x a IH]; simpl; [done|]. by rewrite IH, orb_assoc. Qed.

Lemma prefix_char (b a : ascii) (s : string) :
  String.prefix (String b EmptyString) (String a s) = Ascii.eqb b a.
Proof.
  cbn [String.prefix].
  destruct (ascii_dec b a) as [E|E], (Ascii.eqb_spec b a) as [E'|E']; try congruence.
  by destruct s.
Qed.

(** Replacing the character [b] by an underscore removes [b] and brings in
    no character other than the underscore. *)
Lemma contains_replace_char (c b : ascii) (s : string) :
  c ≠ "_"%char →
  Str.contains c (Str.replace (String b EmptyString) "_" s)
  = negb (Ascii.eqb b c) && Str.contains c s.
Proof.
  intros Hc. unfold Str.replace. induction s as [|a s IH].
  - cbn. by rewrite andb_false_r.
  - cbn [Str.replace_from]. rewrite prefix_char.
    assert (Ascii.eqb "_" c = false) as Hu.
    { apply Ascii.eqb_neq. congruence. }
    destruct (Ascii.eqb_spec b a) as [->|Hba];
      cbn [String.length Nat.pred String.append Str.contains]; rewrite IH.
    + rewrite Hu. by destruct (Ascii.eqb a c).
    + destruct (Ascii.eqb_spec a c) as [->|Hac]; [|done].
      apply Ascii.eqb_neq in Hba. by rewrite Hba.
Qed.

(** After the loop over the bad characters none of them is left. *)
Lemma sanitize_clean (s : string) :
  Forall (fun c => Str.contains c (sanitize s) = false) bad_chars.
Proof.
  unfold sanitize, bad_chars. cbn [foldl].
  repeat constructor; by rewrite !contains_replace_char by discriminate.
Qed.

(** A key that does not occur is not replaced. *)
Lemma replace_absent (old new s : string) :
  occurs old s = false → Str.replace old new s = s.
Proof.
  destruct old as [|o old]; [by destruct s|].
  unfold Str.replace. induction s as [|c s IH]; [done|].
  intros Hocc. cbn [occurs] in Hocc. apply orb_false_iff in Hocc as [Hp Ho].
  cbn [Str.replace_from]. rewrite Hp. by rewrite IH.
Qed.

Lemma replace_all_absent (repl : list (string * string)) (s : string) :
  no_placeholder repl.*1 s → replace_all repl s = s.
Proof.
  unfold replace_all, no_placeholder. induction repl as [|[k v] repl IH]; [done|].
  rewrite fmap_cons, Forall_cons. intros [Hk Hrest]. cbn [foldl fst snd].
  rewrite replace_absent by done. by apply IH.
Qed.

Lemma path_repl_same_second (a b : Datetime) :
  same_second a b → path_repl a = path_repl b.
Proof.
  intros (Hy & Hm & Hd & Hh & Hmi & Hs).
  unfold path_repl, strftime_date, strftime_time, strftime_Y, strftime_m, strftime_d.
  by rewrite Hy, Hm, Hd, Hh, Hmi, Hs.
Qed.

(** ** Templates *)

Section TemplateFacts.
Context `{Platform}.

(** C3, as amended.  The name built for a file is the template, expanded
    and then sanitized, followed by a dot and the lower-cased source
    extension when that extension is not empty ([ext_part]); so it ends in
    that extension part whatever the template holds.  The sanitized part
    holds none of the nine bad characters; the appended extension is not
    sanitized, so the whole name holds a bad character exactly when the
    source extension holds it. *)
Theorem build_target_name_shape (src : Path) (rule : Rule) (dt : Datetime) (counter : Z) :
  let ext := ext_of (PathLib.name src) in
  let body := sanitize (replace_all (name_repl src dt counter) (rename_template rule)) in
  let result := build_target_name src rule dt counter in
  result = body +:+ ext_part ext ∧
  Forall (fun c => Str.contains c body = false) bad_chars ∧
  Str.endswith result (ext_part ext) = true ∧
  Forall (fun c => Str.contains c result = Str.contains c ext) bad_chars.
Proof.
  intros ext body result.
  assert (result = body +:+ ext_part ext) as Hres by done.
  split; [done|]. split; [apply sanitize_clean|]. split.
  { rewrite Hres. apply endswith_append. }
  pose proof (sanitize_clean (replace_all (name_repl src dt counter) (rename_template rule)))
    as Hclean. fold body in Hclean.
  rewrite Hres. unfold ext_part.
  eapply Forall_impl; [eapply Forall_and; split; [exact Hclean|]|].
  - instantiate (1 := fun c => Ascii.eqb "."%char c = false).
    unfold bad_chars. by repeat constructor.
  - intros c [Hb Hdot]. cbn beta in *. rewrite contains_append, Hb. cbn [orb].
    destruct (Str.truthy ext) eqn:Ht.
    + change ("." +:+ ext) with (String "." ext). cbn [Str.contains]. by rewrite Hdot.
    + apply negb_false_iff, String.eqb_eq in Ht. by rewrite Ht.
Qed.

End TemplateFacts.

(** A source extension may itself hold a bad character: the name built for
    [a.b?c] still holds the question mark. *)
Lemma build_target_name_bad_extension :
  let result := @build_target_name Sample.posix
                  (Sample.downloads ++ ["a.b?c"]) Sample.rule_images Sample.now 0 in
  result = "a.b?c" ∧
  ¬ Forall (fun c => Str.contains c result = false) bad_chars.
Proof.
  split; [by vm_compute|].
  rewrite Forall_forall. intros Hall.
  specialize (Hall "?"%char). vm_compute in Hall.
  enough (true = false) by discriminate.
  apply Hall. do 7 right. left.
Qed.

Section ExpansionFacts.
Context `{Platform}.

Lemma expand_path_str_same_second (q : string) (a b : Datetime) :
  same_second a b → expand_path_str q a = expand_path_str q b.
Proof.
  intros Hab. unfold expand_path_str. by rewrite (path_repl_same_second a b).
Qed.

Lemma build_target_name_same_second (src : Path) (rule : Rule) (counter : Z) (a b : Datetime) :
  same_second a b → build_target_name src rule a counter = build_target_name src rule b counter.
Proof.
  intros (Hy & Hm & Hd & Hh & Hmi & Hs).
  unfold build_target_name, name_repl, strftime_date, strftime_time,
    strftime_Y, strftime_m, strftime_d.
  by rewrite Hy, Hm, Hd, Hh, Hmi, Hs.
Qed.

(** C6, as amended.  On a template that holds no recognized placeholder the
    substitution step changes nothing.  In the path context the result is
    the template after the expansion of environment variables and of the
    home-directory shorthand; it is the template itself exactly when these
    two leave it unchanged, and expansion is then idempotent on it.  In the
    file-name context the result is the sanitized template followed by the
    extension part.  Both expansions give the same output for timestamps
    that agree up to the second. *)
Theorem expand_no_placeholder (p : string) (dt : Datetime) :
  no_placeholder path_keys p →
  expand_path_str p dt = expanduser (expandvars p) ∧
  expand_path p dt = to_path (expanduser (expandvars p)) ∧
  (expand_path_str p dt = p ↔ expanduser (expandvars p) = p) ∧
  (expanduser (expandvars p) = p →
   expand_path_str (expand_path_str p dt) dt = expand_path_str p dt) ∧
  (∀ src rule counter,
     no_placeholder name_keys (rename_template rule) →
     build_target_name src rule dt counter
     = sanitize (rename_template rule) +:+ ext_part (ext_of (PathLib.name src))) ∧
  (∀ q src rule counter dt',
     same_second dt dt' →
     expand_path_str q dt' = expand_path_str q dt ∧
     build_target_name src rule dt' counter = build_target_name src rule dt counter).
Proof.
  intros Hp.
  assert (expand_path_str p dt = expanduser (expandvars p)) as Hstr.
  { unfold expand_path_str. by rewrite replace_all_absent. }
  split; [done|]. split; [unfold expand_path; by rewrite Hstr|].
  split; [by rewrite Hstr|]. split; [intros Hos; by rewrite Hstr, Hos, Hstr|].
  split.
  - intros src rule counter Hn. unfold build_target_name.
    by rewrite replace_all_absent.
  - intros q src rule counter dt' Hs. split.
    + symmetry. by apply expand_path_str_same_second.
    + symmetry. by apply build_target_name_same_second.
Qed.

End ExpansionFacts.

Lemma expand_no_placeholder_witness :
  no_placeholder path_keys "/srv/inbox" ∧
  @expand_path_str Sample.posix "/srv/inbox" Sample.now
  = @expanduser Sample.posix (@expandvars Sample.posix "/srv/inbox").
Proof.
  assert (no_placeholder path_keys "/srv/inbox") as Hp.
  { unfold no_placeholder, path_keys. repeat constructor. }
  split; [exact Hp|].
  exact (proj1 (@expand_no_placeholder Sample.posix "/srv/inbox" Sample.now Hp)).
Defined.

(** A template without placeholder that expansion does change: the
    home-directory shorthand is expanded. *)
Lemma expand_path_changes_home_shorthand :
  no_placeholder path_keys "~/Downloads" ∧
  @expand_path_str Sample.posix "~/Downloads" Sample.now = "/home/u/Downloads" ∧
  @expand_path_str Sample.posix "~/Downloads" Sample.now ≠ "~/Downloads".
Proof.
  split; [unfold no_placeholder, path_keys; repeat constructor|].
  split; [by vm_compute|]. by vm_compute.
Qed.

(** ** Candidates *)

(** Unfolds the monad in a goal about the run of a computation. *)
Ltac run_monad :=
  unfold bind, ret, raise, catch, get_files, get_clock, put_files, emit, interfere;
  cbn [fst snd].

Lemma set_files_same (w : World) : set_files (files w) w = w.
Proof. by destruct w. Qed.

Section CandidateFacts.
Context `{Platform}.

Lemma existsb_false_Forall {A} (f : A -> bool) (l : list A) :
  existsb f l = false ↔ Forall (fun x => f x = false) l.
Proof.
  induction l as [|x l IH]; simpl.
  - split; [constructor|done].
  - rewrite orb_false_iff, Forall_cons, IH. done.
Qed.

(** C7, as amended.  [is_candidate_file] raises nothing, changes nothing
    and answers true exactly for a regular file whose name is not ignored,
    whose lower-cased name ends with no ignored suffix and which is old
    enough.  The name beginning with a dot plays no part: no dotfile or
    marker exclusion is applied to files. *)
Theorem is_candidate_file_decision (path : Path) (min_age_sec : Z)
    (ignore_ext ignore_names : list string) (w : World) :
  ∃ b, is_candidate_file path min_age_sec ignore_ext ignore_names w = (Ok b, w) ∧
       (b = true ↔
        candidate_file (files w) (clock w) path min_age_sec ignore_ext ignore_names).
Proof.
  unfold is_candidate_file, is_candidate_file_with, is_file, stat_mtime, candidate_file.
  run_monad. unfold id.
  destruct (files w !! path) as [[m|t]|] eqn:Hp.
  2,3: exists false; split; [done|]; split; [done|]; by intros (m' & ? & _).
  cbn [negb].
  destruct (bool_decide (PathLib.name path ∈ ignore_names)) eqn:Hn.
  { exists false. split; [done|]. split; [done|].
    intros (m' & _ & Hnot & _). by apply bool_decide_eq_true in Hn. }
  destruct (existsb _ ignore_ext) eqn:He.
  { exists false. split; [done|]. split; [done|].
    intros (m' & _ & _ & Hall & _). apply existsb_false_Forall in Hall. congruence. }
  rewrite set_files_same, Hp. cbn [mtime_of].
  exists (bool_decide (min_age_sec ≤ clock w - m)). split; [done|].
  apply bool_decide_eq_false in Hn. apply existsb_false_Forall in He.
  rewrite bool_decide_eq_true. split.
  - intros Hage. exists m. by repeat split.
  - intros (m' & Hm' & _ & _ & Hage). by simplify_eq.
Qed.




End CandidateFacts.



(** The marker file of a managed directory, lying in the watch directory
    and old enough, is a candidate although its name begins with a dot. *)
Lemma is_candidate_file_accepts_dotfile :
  let marker := Sample.downloads ++ [".dorg_managed"] in
  Str.startswith (PathLib.name marker) "." = true ∧
  (@is_candidate_file Sample.posix marker 10 [".crdownload"] ["desktop.ini"] Sample.world).1
  = Ok true.
Proof. split; by vm_compute. Qed.

(** ** The monad *)

Section RespectFacts.
Context (T : World -> World -> Prop) `{!Reflexive T, !Transitive T}.

Lemma respects_ret {A} (a : A) : respects T (ret a).
Proof. intros w. apply reflexivity. Qed.

Lemma respects_raise {A} (e : Exn) : respects T (@raise A e).
Proof. intros w. apply reflexivity. Qed.

Lemma respects_bind {A B} (m : M A) (k : A -> M B) :
  respects T m → (∀ a, respects T (k a)) → respects T (bind m k).
Proof.
  intros Hm Hk w. unfold bind. specialize (Hm w).
  destruct (m w) as [[a|e] w1]; cbn [snd] in *; [|done].
  etrans; [exact Hm|apply Hk].
Qed.

Lemma respects_catch {A} (m : M A) (h : Exn -> M A) :
  respects T m → (∀ e, respects T (h e)) → respects T (catch m h).
Proof.
  intros Hm Hh w. unfold catch. specialize (Hm w).
  destruct (m w) as [[a|e] w1]; cbn [snd] in *; [done|].
  etrans; [exact Hm|apply Hh].
Qed.

Lemma respects_for_loop {A S} (l : list A) (body : A -> S -> M S) (s : S) :
  (∀ x s', respects T (body x s')) → respects T (for_loop l body s).
Proof.
  intros Hbody. revert s. induction l as [|x l IH]; intros s; cbn [for_loop].
  - apply respects_ret.
  - apply respects_bind; [apply Hbody|]. intros s'. apply IH.
Qed.

Lemma respects_if {A} (b : bool) (m1 m2 : M A) :
  respects T m1 → respects T m2 → respects T (if b then m1 else m2).
Proof. by destruct b. Qed.

End RespectFacts.

#[global] Instance adds_calls_refl P : Reflexive (adds_calls P).
Proof. intros w. exists []. by rewrite app_nil_r. Qed.

#[global] Instance adds_calls_trans P : Transitive (adds_calls P).
Proof.
  intros w1 w2 w3 (d1 & E1 & F1) (d2 & E2 & F2). exists (d1 ++ d2).
  rewrite E2, E1, app_assoc. split; [done|]. by apply Forall_app.
Qed.

#[global] Instance same_files_refl : Reflexive same_files.
Proof. by intros w. Qed.

#[global] Instance same_files_trans : Transitive same_files.
Proof. intros w1 w2 w3 [E1 C1] [E2 C2]. split; congruence. Qed.

Lemma adds_calls_weaken (P Q : Event -> Prop) (w w' : World) :
  (∀ e, P e → Q e) → adds_calls P w w' → adds_calls Q w w'.
Proof.
  intros HPQ (d & E & F). exists d. split; [done|]. by eapply Forall_impl.
Qed.

(** ** Paths *)

Lemma parent_join (d : Path) (s : string) : parent (PathLib.join d s) = d.
Proof. unfold parent, PathLib.join. apply removelast_last. Qed.

Lemma name_join (d : Path) (s : string) : PathLib.name (PathLib.join d s) = s.
Proof. unfold PathLib.name, PathLib.join. apply last_last. Qed.

Lemma join_inj (d d' : Path) (s s' : string) :
  PathLib.join d s = PathLib.join d' s' → d = d' ∧ s = s'.
Proof. unfold PathLib.join. intros E. by apply app_inj_tail in E. Qed.

Lemma parent_prefix (p : Path) : parent p `prefix_of` p.
Proof.
  unfold parent. destruct (decide (p = [])) as [->|Hne]; [done|].
  exists [List.last p EmptyString]. by apply app_removelast_last.
Qed.

Lemma is_child_join (d p : Path) : is_child d p ↔ ∃ s, p = PathLib.join d s.
Proof.
  unfold is_child, PathLib.join. split.
  - intros [Hne <-]. exists (List.last p EmptyString). by apply app_removelast_last.
  - intros [s ->]. split; [by destruct d|]. apply parent_join.
Qed.

Lemma join_not_prefix (d : Path) (s : string) : ¬ PathLib.join d s `prefix_of` d.
Proof.
  intros Hp. apply prefix_length in Hp. unfold PathLib.join in Hp.
  rewrite length_app in Hp. simpl in Hp. lia.
Qed.

(** A prefix of [d ++ [s]] is that path itself or a prefix of [d]. *)
Lemma prefix_join_inv (q d : Path) (s : string) :
  q `prefix_of` PathLib.join d s → q = PathLib.join d s ∨ q `prefix_of` d.
Proof.
  unfold PathLib.join. intros [k Hk].
  destruct (decide (k = [])) as [->|Hne].
  - left. by rewrite app_nil_r in Hk.
  - right. destruct (exists_last Hne) as (k' & x & ->).
    rewrite app_assoc in Hk. apply app_inj_tail in Hk as [-> _]. by exists k'.
Qed.

(** ** File-system calls *)

Lemma lookup_bump (t : Z) (d q : Path) (fs : gmap Path Node) :
  bump t d fs !! q = if decide (d = q) then with_mtime t <$> fs !! q else fs !! q.
Proof.
  unfold bump. rewrite lookup_alter. by case_decide; subst.
Qed.

Lemma fview_bump (t : Z) (d q : Path) (fs : gmap Path Node) :
  (∀ m, fs !! d ≠ Some (File m)) → fview (bump t d fs) q = fview fs q.
Proof.
  intros Hd. unfold fview. rewrite lookup_bump. case_decide; [subst|done].
  destruct (fs !! q) as [[m|t']|]; simpl; try done. by destruct (Hd m).
Qed.

Lemma bump_dir (t : Z) (d q : Path) (fs : gmap Path Node) (t0 : Z) :
  fs !! q = Some (Dir t0) → ∃ t', bump t d fs !! q = Some (Dir t').
Proof.
  intros Hq. rewrite lookup_bump. case_decide; rewrite Hq; simpl; eauto.
Qed.

#[global] Instance mkdir_effect_refl p : Reflexive (mkdir_effect p).
Proof. intros w. repeat split; eauto. Qed.

#[global] Instance mkdir_effect_trans p : Transitive (mkdir_effect p).
Proof.
  intros w1 w2 w3 (C1 & F1 & L1 & D1 & S1) (C2 & F2 & L2 & D2 & S2).
  split; [congruence|]. split; [intros q; by rewrite F2|].
  split; [intros q Hq; by rewrite L2, L1|]. split; [|by auto].
  intros q t Hq. destruct (D1 q t Hq) as [t' Hq']. eauto.
Qed.

Lemma mkdir_effect_parent (p : Path) (w w' : World) :
  mkdir_effect (parent p) w w' → mkdir_effect p w w'.
Proof.
  intros (C & F & L & D & S). repeat split; try done.
  intros q Hq. apply L. intros Hp. apply Hq. etrans; [exact Hp|apply parent_prefix].
Qed.

(** The run of [os.mkdir(p)], case by case. *)
Lemma os_mkdir_run (p : Path) (w : World) :
  os_mkdir p w =
  match files w !! p with
  | Some _ => (Raised FileExistsError, w)
  | None =>
      match files w !! parent p with
      | Some (Dir _) =>
          (Ok tt, {| files := <[p := Dir (clock w)]> (bump (clock w) (parent p) (files w));
                     clock := clock w;
                     calls := calls w ++ [EvMkdir p] |})
      | Some (File _) => (Raised NotADirectoryError, w)
      | None => (Raised FileNotFoundError, w)
      end
  end.
Proof.
  unfold os_mkdir, create. run_monad.
  destruct (files w !! p) as [n|] eqn:Hp.
  - by rewrite bool_decide_eq_true_2.
  - rewrite bool_decide_eq_false_2 by (by intros [? ?]).
    by destruct (files w !! parent p) as [[m|t]|].
Qed.

Lemma os_mkdir_raised (p : Path) (w : World) (e : Exn) :
  (os_mkdir p w).1 = Raised e → (os_mkdir p w).2 = w.
Proof.
  rewrite os_mkdir_run.
  destruct (files w !! p); [done|]. by destruct (files w !! parent p) as [[m|t]|].
Qed.

Lemma os_mkdir_ok (p : Path) (w : World) :
  (os_mkdir p w).1 = Ok tt → ∃ t, files (os_mkdir p w).2 !! p = Some (Dir t).
Proof.
  rewrite os_mkdir_run.
  destruct (files w !! p); [done|].
  destruct (files w !! parent p) as [[m|t]|]; try done.
  intros _. cbn. rewrite lookup_insert_eq. eauto.
Qed.

Lemma os_mkdir_effect (p : Path) : respects (mkdir_effect p) (os_mkdir p).
Proof.
  intros w. rewrite os_mkdir_run.
  destruct (files w !! p) as [n|] eqn:Hp; [apply reflexivity|].
  destruct (files w !! parent p) as [[m|t]|] eqn:Hpar; try apply reflexivity.
  cbn [snd]. split; [done|]. cbn [files].
  assert (∀ m, files w !! parent p ≠ Some (File m)) as Hnf by (intros m; congruence).
  split; [|split; [|split]].
  - intros q. unfold fview at 1. destruct (decide (p = q)) as [<-|Hne].
    + rewrite lookup_insert_eq. unfold fview. by rewrite Hp.
    + rewrite lookup_insert_ne by done. by apply fview_bump.
  - intros q Hq. rewrite lookup_insert_ne by (intros ->; by apply Hq).
    rewrite lookup_bump. rewrite decide_False; [done|].
    intros <-. apply Hq, parent_prefix.
  - intros q t0 Hq. rewrite lookup_insert_ne by congruence. by eapply bump_dir.
  - intros Htree q n Hq Hne.
    destruct (decide (p = q)) as [<-|Hpq].
    + rewrite lookup_insert_ne by congruence. by eapply bump_dir.
    + rewrite lookup_insert_ne in Hq by done.
      assert (is_Some (files w !! q)) as [n' Hq'].
      { rewrite lookup_bump in Hq. case_decide; [|by eauto].
        destruct (files w !! q); [by eauto|done]. }
      destruct (Htree q n' Hq' Hne) as [t0 Hpq'].
      rewrite lookup_insert_ne by congruence. by eapply bump_dir.
Qed.

Lemma is_dir_run (p : Path) (w : World) :
  is_dir p w = (Ok (bool_decide (is_Some (dview (files w) p))), w).
Proof.
  unfold is_dir, dview. run_monad. destruct (files w !! p) as [[m|t]|]; try done.
Qed.

Lemma unless_is_dir_run (p : Path) (e : Exn) (w : World) :
  unless_is_dir p e w =
  if is_OSError e && bool_decide (is_Some (dview (files w) p))
  then (Ok tt, w) else (Raised e, w).
Proof.
  unfold unless_is_dir. destruct (is_OSError e); [|done].
  unfold bind. rewrite is_dir_run. by destruct (bool_decide _).
Qed.

Lemma unless_is_dir_effect (p : Path) (e : Exn) : respects (mkdir_effect p) (unless_is_dir p e).
Proof.
  intros w. rewrite unless_is_dir_run. destruct (_ && _); apply reflexivity.
Qed.

Lemma unless_is_dir_ok (p : Path) (e : Exn) (w : World) :
  (unless_is_dir p e w).1 = Ok tt →
  ∃ t, files (unless_is_dir p e w).2 !! p = Some (Dir t).
Proof.
  rewrite unless_is_dir_run. destruct (is_OSError e); [|done]. cbn [andb].
  destruct (bool_decide _) eqn:Hd; [|done]. intros _. cbn.
  apply bool_decide_eq_true in Hd as [t Hd]. unfold dview in Hd.
  destruct (files w !! p) as [[m|t']|]; try done. eauto.
Qed.

Lemma mkdir_exist_ok_effect (p : Path) : respects (mkdir_effect p) (mkdir_exist_ok p).
Proof.
  unfold mkdir_exist_ok. apply respects_catch; [apply _|apply os_mkdir_effect|].
  intros e. destruct e; try apply unless_is_dir_effect. apply respects_raise, _.
Qed.

Lemma mkdir_exist_ok_ok (p : Path) (w : World) :
  (mkdir_exist_ok p w).1 = Ok tt → ∃ t, files (mkdir_exist_ok p w).2 !! p = Some (Dir t).
Proof.
  unfold mkdir_exist_ok, catch.
  pose proof (os_mkdir_ok p w) as Hok. pose proof (os_mkdir_raised p w) as Hr.
  destruct (os_mkdir p w) as [[[]|e] w1]; cbn [fst snd] in *; [by auto|].
  rewrite (Hr e eq_refl). destruct e; try apply unless_is_dir_ok. done.
Qed.

Lemma mkdir_parents_rev_effect (rp : list string) :
  respects (mkdir_effect (reverse rp)) (mkdir_parents_rev rp).
Proof.
  induction rp as [|s rp IH]; cbn [mkdir_parents_rev].
  - apply respects_catch; [apply _|apply os_mkdir_effect|].
    intros e. destruct e; try apply unless_is_dir_effect. apply respects_raise, _.
  - apply respects_catch; [apply _|apply os_mkdir_effect|].
    intros e. destruct e; try apply unless_is_dir_effect.
    apply respects_bind; [apply _| |intros _; apply mkdir_exist_ok_effect].
    intros w. apply mkdir_effect_parent.
    rewrite reverse_cons. unfold parent. rewrite removelast_last. apply IH.
Qed.

Lemma mkdir_parents_effect (p : Path) : respects (mkdir_effect p) (mkdir_parents p).
Proof.
  unfold mkdir_parents. pose proof (mkdir_parents_rev_effect (reverse p)) as Hr.
  by rewrite reverse_involutive in Hr.
Qed.

Lemma mkdir_parents_rev_ok (rp : list string) (w : World) :
  (mkdir_parents_rev rp w).1 = Ok tt →
  ∃ t, files (mkdir_parents_rev rp w).2 !! reverse rp = Some (Dir t).
Proof.
  destruct rp as [|s rp]; cbn [mkdir_parents_rev]; unfold catch.
  - pose proof (os_mkdir_ok (reverse []) w) as Hok.
    pose proof (os_mkdir_raised (reverse []) w) as Hr.
    destruct (os_mkdir (reverse []) w) as [[[]|e] w1]; cbn [fst snd] in *; [by auto|].
    rewrite (Hr e eq_refl). destruct e; try apply unless_is_dir_ok. done.
  - pose proof (os_mkdir_ok (reverse (s :: rp)) w) as Hok.
    pose proof (os_mkdir_raised (reverse (s :: rp)) w) as Hr.
    destruct (os_mkdir (reverse (s :: rp)) w) as [[[]|e] w1]; cbn [fst snd] in *; [by auto|].
    rewrite (Hr e eq_refl). destruct e; try apply unless_is_dir_ok.
    unfold bind. destruct (mkdir_parents_rev rp w) as [[[]|e'] w2]; [|done].
    apply mkdir_exist_ok_ok.
Qed.

Lemma mkdir_parents_ok (p : Path) (w : World) :
  (mkdir_parents p w).1 = Ok tt → ∃ t, files (mkdir_parents p w).2 !! p = Some (Dir t).
Proof.
  unfold mkdir_parents. intros Hok. apply mkdir_parents_rev_ok in Hok.
  by rewrite reverse_involutive in Hok.
Qed.

(** ** Collision-safe names *)

Lemma of_nat_inj (i j : nat) : Str.of_nat i = Str.of_nat j → i = j.
Proof.
  unfold Str.of_nat. intros E.
  apply (f_equal NilEmpty.uint_of_string) in E. rewrite !NilEmpty.usu in E.
  injection E as E. apply (f_equal Nat.of_uint) in E.
  by rewrite !DecimalNat.Unsigned.of_to in E.
Qed.

Lemma append_inj_l (a b c : string) : a +:+ b = a +:+ c → b = c.
Proof. induction a as [|x a IH]; simpl; [done|]. intros E. injection E as E. auto. Qed.

Lemma append_inj_r (a b c : string) : a +:+ c = b +:+ c → a = b.
Proof.
  revert b. induction a as [|x a IH]; intros [|y b] E; simpl in E.
  - done.
  - apply (f_equal String.length) in E. simpl in E. rewrite length_append in E. lia.
  - apply (f_equal String.length) in E. simpl in E. rewrite length_append in E. lia.
  - injection E as -> E. f_equal. by apply IH.
Qed.

Lemma suffixed_inj (stem ext : string) (i j : nat) :
  suffixed stem ext i = suffixed stem ext j → i = j.
Proof.
  unfold suffixed. intros E.
  apply append_inj_l, append_inj_l, append_inj_r in E. by apply of_nat_inj.
Qed.

(** What the [while] loop returns: the first free path from round [i] on. *)
Lemma while_exists_found (fs : gmap Path Node) (next : nat -> Path) (fuel i : nat)
    (c : Path) (k : nat) (c' : Path) :
  while_exists fs next fuel i c = Some (k, c') →
  (i ≤ k)%nat ∧ c' = (if decide (k = i) then c else next k) ∧ fs !! c' = None ∧
  ((i < k)%nat → is_Some (fs !! c)) ∧
  (∀ j, (i < j < k)%nat → is_Some (fs !! next j)).
Proof.
  revert i c. induction fuel as [|fuel IH]; intros i c; cbn [while_exists];
    destruct (bool_decide (is_Some (fs !! c))) eqn:Hc.
  - done.
  - intros [= <- <-]. apply bool_decide_eq_false in Hc.
    rewrite decide_True by done. rewrite eq_None_not_Some.
    repeat split; try done; intros; lia.
  - apply bool_decide_eq_true in Hc. intros Hw.
    destruct (IH _ _ Hw) as (Hle & -> & Hfree & Hfirst & Hmid).
    split; [lia|]. rewrite (decide_False (P := k = i)) by lia. split.
    { case_decide; [by subst|done]. }
    split; [by case_decide; subst|]. split; [done|].
    intros j Hj. destruct (decide (j = S i)) as [->|Hne].
    + destruct (decide (k = S i)); [lia|]. apply Hfirst. lia.
    + apply Hmid. lia.
  - intros [= <- <-]. apply bool_decide_eq_false in Hc.
    rewrite decide_True by done. rewrite eq_None_not_Some.
    repeat split; try done; intros; lia.
Qed.

(** When the loop gives up, every path it probed exists. *)
Lemma while_exists_none (fs : gmap Path Node) (next : nat -> Path) (fuel i : nat) (c : Path) :
  while_exists fs next fuel i c = None →
  ∀ j, (i < j ≤ i + fuel)%nat → is_Some (fs !! next j).
Proof.
  revert i c. induction fuel as [|fuel IH]; intros i c; cbn [while_exists];
    destruct (bool_decide (is_Some (fs !! c))) eqn:Hc; try done.
  - intros _ j Hj. lia.
  - intros Hw j Hj. destruct (decide (j = S i)) as [->|Hne].
    + destruct fuel; cbn [while_exists] in Hw;
        destruct (bool_decide (is_Some (fs !! next (S i)))) eqn:Hn; try done;
        by apply bool_decide_eq_true in Hn.
    + apply (IH _ _ Hw). lia.
Qed.

(** More distinct paths than the file system has entries cannot all exist:
    with one round more than there are entries the loop finds a free path. *)
Lemma while_exists_total (fs : gmap Path Node) (next : nat -> Path) (c : Path) :
  (∀ a b, next a = next b → a = b) →
  is_Some (while_exists fs next (S (size fs)) 0 c).
Proof.
  intros Hinj. destruct (while_exists fs next (S (size fs)) 0 c) as [r|] eqn:Hw; [by eauto|].
  exfalso. pose proof (while_exists_none _ _ _ _ _ Hw) as Hall.
  set (l := next <$> seq 1 (S (size fs))).
  assert (NoDup l) as Hnd.
  { apply NoDup_fmap_2_strong; [|apply NoDup_seq]. intros a b _ _. apply Hinj. }
  assert (l ⊆+ elements (dom fs)) as Hsub.
  { apply NoDup_submseteq; [done|]. intros x Hx.
    apply list_elem_of_fmap in Hx as (j & -> & Hj). apply elem_of_seq in Hj.
    apply elem_of_elements, elem_of_dom, Hall. lia. }
  apply submseteq_length in Hsub.
  unfold l in Hsub. rewrite length_fmap, length_seq in Hsub.
  change (length (elements (dom fs))) with (size (dom fs)) in Hsub.
  rewrite size_dom in Hsub. lia.
Qed.

Lemma unique_candidate_run (next : nat -> Path) (c : Path) (w : World) :
  (∀ a b, next a = next b → a = b) →
  ∃ k, unique_candidate next c w = (Ok (k, if decide (k = O) then c else next k), w) ∧
       files w !! (if decide (k = O) then c else next k) = None ∧
       ((0 < k)%nat → is_Some (files w !! c)) ∧
       (∀ j, (0 < j < k)%nat → is_Some (files w !! next j)).
Proof.
  intros Hinj. unfold unique_candidate. run_monad.
  destruct (while_exists_total (files w) next c Hinj) as [[k c'] Hw]. rewrite Hw.
  destruct (while_exists_found _ _ _ _ _ _ _ Hw) as (_ & -> & Hfree & Hfirst & Hmid).
  exists k. by repeat split.
Qed.

Lemma rsplit_dot_append (s a b : string) :
  Str.rsplit_dot s = Some (a, b) → a +:+ b = s.
Proof.
  revert a b. induction s as [|c s IH]; intros a b; cbn [Str.rsplit_dot]; [done|].
  destruct (Str.rsplit_dot s) as [[a' b']|].
  - intros [= <- <-]. simpl. f_equal. by apply IH.
  - destruct (Ascii.eqb c "."); [|done]. by intros [= <- <-].
Qed.

(** [splitext] cuts the name in two. *)
Lemma splitext_append (nm : string) :
  (PathLib.splitext nm).1 +:+ (PathLib.splitext nm).2 = nm.
Proof.
  unfold PathLib.splitext.
  destruct (Str.rsplit_dot nm) as [[a b]|] eqn:Hs; cbn [fst snd].
  - destruct (Str.all_char "." a); cbn [fst snd]; [apply append_nil_r|].
    by apply rsplit_dot_append.
  - apply append_nil_r.
Qed.

Lemma probe_inj (dst_dir : Path) (target_name : string) (a b : nat) :
  PathLib.join dst_dir
    (suffixed (PathLib.splitext target_name).1 (PathLib.splitext target_name).2 a)
  = PathLib.join dst_dir
      (suffixed (PathLib.splitext target_name).1 (PathLib.splitext target_name).2 b) →
  a = b.
Proof. intros E. apply join_inj in E as [_ E]. by apply suffixed_inj in E. Qed.

(** In a tree the proper ancestors of an entry are directories. *)
Lemma tree_ancestor_dir (fs : gmap Path Node) (q a : Path) (n : Node) :
  tree_shaped fs → fs !! q = Some n → a `prefix_of` q → a ≠ q →
  ∃ t, fs !! a = Some (Dir t).
Proof.
  intros Htree. revert n. induction q as [|x q IH] using rev_ind; intros n Hq Hpre Hne.
  - apply prefix_nil_inv in Hpre. done.
  - destruct (Htree _ _ Hq) as [t Hpar]; [by destruct q|].
    fold (PathLib.join q x) in *. rewrite parent_join in Hpar.
    apply prefix_join_inv in Hpre as [->|Hpre]; [done|].
    destruct (decide (a = q)) as [->|Hne']; [by eauto|]. by eapply IH.
Qed.

(** [shutil.move] to a path that does not exist. *)
Lemma shutil_move_fresh (src dst : Path) (w : World) :
  files w !! dst = None →
  shutil_move src dst w =
  match files w !! src with
  | None => (Raised FileNotFoundError, w)
  | Some n =>
      match files w !! parent dst with
      | None => (Raised FileNotFoundError, w)
      | Some (File _) => (Raised NotADirectoryError, w)
      | Some (Dir _) =>
          if bool_decide (src `prefix_of` dst) then (Raised ShutilError, w)
          else (Ok tt, {| files := bump (clock w) (parent src)
                                     (bump (clock w) (parent dst)
                                        (renamed src dst n (files w)));
                          clock := clock w;
                          calls := calls w ++ [EvRename src dst] |})
      end
  end.
Proof.
  intros Hdst. unfold shutil_move, real_destination, rename_entry, is_dir, path_exists.
  run_monad. rewrite Hdst.
  destruct (files w !! src) as [n|] eqn:Hsrc; [|done].
  rewrite bool_decide_eq_false_2 by congruence.
  destruct (files w !! parent dst) as [[m|t]|]; try done.
  destruct (bool_decide (src `prefix_of` dst)); [done|].
  destruct n; [done|by rewrite Hdst].
Qed.

(** C2.  With [ensure_unique] the move of a regular file into a directory
    that can be made never overwrites: it succeeds, the path it returns is
    the first free one among [name], [name_1], [name_2], ... (the counter
    put before the extension), every earlier path of that list being taken
    already; the file arrives there, and every other regular file is left
    as it was. *)
Theorem move_with_unique_never_overwrites (src dst_dir : Path) (target_name : string)
    (m : Z) (w : World) :
  is_segment target_name = true →
  tree_shaped (files w) →
  files w !! src = Some (File m) →
  (mkdir_parents dst_dir w).1 = Ok tt →
  ∃ i w',
    move_with_unique src dst_dir target_name true w = (Ok (probe dst_dir target_name i), w') ∧
    files w !! probe dst_dir target_name i = None ∧
    (∀ j, (j < i)%nat → is_Some (files w !! probe dst_dir target_name j)) ∧
    files w' !! probe dst_dir target_name i = Some (File m) ∧
    files w' !! src = None ∧
    (∀ q n, q ≠ src → files w !! q = Some (File n) → files w' !! q = Some (File n)) ∧
    (PathLib.splitext target_name).1 +:+ (PathLib.splitext target_name).2 = target_name.
Proof.
  intros _ Htree Hsrc Hmk.
  pose proof (mkdir_parents_effect dst_dir w) as (Hclock & Hfv & Hframe & Hdirs & Htree1).
  pose proof (mkdir_parents_ok dst_dir w Hmk) as [t Hdst].
  specialize (Htree1 Htree).
  unfold move_with_unique. unfold bind at 1.
  destruct (mkdir_parents dst_dir w) as [[[]|e] w1] eqn:Hrun; cbn [fst snd] in *; [|done].
  rewrite name_join.
  destruct (PathLib.splitext target_name) as [stem ext] eqn:Hsplit.
  assert (files w1 !! src = Some (File m)) as Hsrc1.
  { specialize (Hfv src). unfold fview in Hfv. rewrite Hsrc in Hfv.
    by destruct (files w1 !! src) as [[m'|t']|]; simplify_eq. }
  set (next := fun i => PathLib.join dst_dir (suffixed stem ext i)).
  assert (∀ a b, next a = next b → a = b) as Hinj.
  { intros a b. pose proof (probe_inj dst_dir target_name a b) as Hp.
    rewrite Hsplit in Hp. exact Hp. }
  destruct (unique_candidate_run next (PathLib.join dst_dir target_name) w1 Hinj)
    as (k & Huc & Hfree & Hfirst & Hmid).
  assert ((if decide (k = O) then PathLib.join dst_dir target_name else next k)
          = probe dst_dir target_name k) as Hprobe.
  { unfold probe. rewrite Hsplit. by destruct k. }
  rewrite Hprobe in Huc, Hfree.
  remember (probe dst_dir target_name k) as c eqn:Hceq.
  assert (parent c = dst_dir) as Hpar.
  { rewrite Hceq. unfold probe. destruct k; apply parent_join. }
  assert (∀ j, ¬ probe dst_dir target_name j `prefix_of` dst_dir) as Hnp.
  { intros j. unfold probe. destruct j; apply join_not_prefix. }
  assert (c ≠ src) as Hcs by (intros E; congruence).
  assert (¬ src `prefix_of` c) as Hnpre.
  { intros Hp.
    destruct (tree_ancestor_dir (files w1) dst_dir src (Dir t)) as [t' Ht']; try done.
    - assert (c = PathLib.join dst_dir (PathLib.name c)) as Hc.
      { rewrite Hceq. unfold probe. destruct k; by rewrite name_join. }
      rewrite Hc in Hp. apply prefix_join_inv in Hp as [E|Hp]; [|done].
      rewrite <- Hc in E. done.
    - intros E. congruence.
    - congruence. }
  exists k. eexists. rewrite <- !Hceq. split.
  { unfold bind. fold next. rewrite Huc. unfold ret. cbn [snd]. lazy beta iota.
    rewrite (shutil_move_fresh src c w1 Hfree), Hsrc1, Hpar, Hdst.
    rewrite bool_decide_eq_false_2 by done. reflexivity. }
  cbn [files renamed].
  assert (∀ q n, q ≠ [] → files w1 !! q = Some n → ∃ t', files w1 !! parent q = Some (Dir t'))
    as Hparent by (intros q n Hq Hn; by eapply Htree1).
  split; [by rewrite <- Hframe by (rewrite Hceq; apply Hnp)|]. split.
  { intros j Hj. rewrite <- Hframe by apply Hnp.
    destruct j; [apply Hfirst; lia|].
    unfold probe. rewrite Hsplit. apply Hmid. lia. }
  assert (∀ n, files w1 !! parent src ≠ Some (File n) ∨ src = []) as Hps.
  { intros n. destruct (decide (src = [])) as [->|Hne]; [by right|left].
    destruct (Hparent src _ Hne Hsrc1) as [t' Ht']. congruence. }
  split.
  { rewrite !lookup_bump. rewrite decide_False.
    - rewrite decide_False by (intros E; congruence).
      by rewrite lookup_insert_eq.
    - intros E. destruct (decide (src = [])) as [->|Hne]; [cbn in E; congruence|].
      destruct (Hparent src _ Hne Hsrc1) as [t' Ht']. rewrite E in Ht'. congruence. }
  split.
  { rewrite !lookup_bump.
    assert (<[c := File m]> (delete src (files w1)) !! src = None) as Hgone.
    { rewrite lookup_insert_ne by done. apply lookup_delete_eq. }
    repeat case_decide; by rewrite Hgone. }
  split; [|by rewrite <- Hsplit; apply splitext_append].
  intros q n Hq Hqn.
  assert (files w1 !! q = Some (File n)) as Hq1.
  { specialize (Hfv q). unfold fview in Hfv. rewrite Hqn in Hfv.
    by destruct (files w1 !! q) as [[m'|t']|]; simplify_eq. }
  assert (<[c := File m]> (delete src (files w1)) !! q = Some (File n)) as Hin.
  { rewrite lookup_insert_ne by (intros E; congruence).
    by rewrite lookup_delete_ne. }
  rewrite !lookup_bump. rewrite decide_False.
  - rewrite decide_False by (intros E; congruence). done.
  - intros E. destruct (decide (src = [])) as [->|Hne]; [cbn in E; congruence|].
    destruct (Hparent src _ Hne Hsrc1) as [t' Ht']. congruence.
Qed.

(** A check of the tree shape that can be evaluated. *)
Lemma tree_shaped_check (fs : gmap Path Node) :
  map_Forall (fun q _ => q = [] ∨ is_Some (dview fs (parent q))) fs → tree_shaped fs.
Proof.
  intros Hall q n Hq Hne. destruct (Hall q n Hq) as [|[t Ht]]; [done|].
  unfold dview in Ht. destruct (fs !! parent q) as [[m|t']|]; try done. eauto.
Qed.

Lemma move_with_unique_never_overwrites_witness :
  let src := Sample.downloads ++ ["report.pdf"] in
  let dst := ["home"; "u"; "Sorted"] in
  is_segment "report.pdf" = true ∧
  tree_shaped (files Sample.world) ∧
  files Sample.world !! src = Some (File 50) ∧
  (mkdir_parents dst Sample.world).1 = Ok tt ∧
  ∃ i w',
    move_with_unique src dst "report.pdf" true Sample.world
    = (Ok (probe dst "report.pdf" i), w') ∧
    files Sample.world !! probe dst "report.pdf" i = None.
Proof.
  intros src dst.
  assert (is_segment "report.pdf" = true) as Hseg by reflexivity.
  assert (tree_shaped (files Sample.world)) as Htree.
  { apply tree_shaped_check. apply (bool_decide_unpack _). vm_compute. exact I. }
  assert (files Sample.world !! src = Some (File 50)) as Hsrc
    by (vm_compute; reflexivity).
  assert ((mkdir_parents dst Sample.world).1 = Ok tt) as Hmk
    by (vm_compute; reflexivity).
  repeat (split; [assumption|]).
  destruct (move_with_unique_never_overwrites src dst "report.pdf" 50 Sample.world
              Hseg Htree Hsrc Hmk) as (i & w' & Hrun & Hfree & _).
  exists i, w'. split; assumption.
Defined.

(** ** The calls made by the file-system functions *)

Lemma respects_bind_ok {A B} (T : World -> World -> Prop) `{!Transitive T}
    (Q : A -> Prop) (m : M A) (k : A -> M B) :
  respects T m → (∀ w a, (m w).1 = Ok a → Q a) → (∀ a, Q a → respects T (k a)) →
  respects T (bind m k).
Proof.
  intros Hm HQ Hk w. unfold bind. specialize (Hm w). specialize (HQ w).
  destruct (m w) as [[a|e] w1]; cbn [fst snd] in *; [|done].
  etrans; [exact Hm|]. by apply Hk, HQ.
Qed.

(** A computation that leaves the world as it is respects every reflexive
    relation. *)
Lemma respects_reader {A} (T : World -> World -> Prop) `{!Reflexive T} (m : M A) :
  (∀ w, (m w).2 = w) → respects T m.
Proof. intros Hm w. rewrite Hm. apply reflexivity. Qed.

Lemma path_exists_world (p : Path) (w : World) : (path_exists p w).2 = w.
Proof. done. Qed.

Lemma is_file_world (p : Path) (w : World) : (is_file p w).2 = w.
Proof. done. Qed.

Lemma is_dir_world (p : Path) (w : World) : (is_dir p w).2 = w.
Proof. done. Qed.

Lemma stat_mtime_world (p : Path) (w : World) : (stat_mtime p w).2 = w.
Proof. unfold stat_mtime. run_monad. by destruct (files w !! p). Qed.

Lemma unique_candidate_world (next : nat -> Path) (c : Path) (w : World) :
  (unique_candidate next c w).2 = w.
Proof.
  unfold unique_candidate. run_monad. by destruct (while_exists _ _ _ _ _).
Qed.

Section CallFacts.
Context (P : Event -> Prop).

Lemma calls_same (w w' : World) : calls w' = calls w → adds_calls P w w'.
Proof. intros E. exists []. by rewrite app_nil_r. Qed.

Lemma emit_calls (e : Event) : P e → respects (adds_calls P) (emit e).
Proof. intros He w. exists [e]. split; [done|]. by constructor. Qed.

Lemma put_files_calls (fs : gmap Path Node) : respects (adds_calls P) (put_files fs).
Proof. intros w. by apply calls_same. Qed.

Lemma interfere_calls (other : gmap Path Node -> gmap Path Node) :
  respects (adds_calls P) (interfere other).
Proof. intros w. by apply calls_same. Qed.

Lemma create_calls (p : Path) (n : Node) : respects (adds_calls P) (create p n).
Proof.
  intros w. apply calls_same. unfold create. run_monad.
  by destruct (files w !! parent p) as [[m|t]|].
Qed.

Lemma iterdir_calls (d : Path) :
  (∀ l, P (EvListdir d l)) → respects (adds_calls P) (iterdir d).
Proof.
  intros HP w. unfold iterdir. run_monad.
  destruct (files w !! d) as [[m|t]|]; try apply reflexivity.
  cbn. exists [EvListdir d (entries (files w) d)]. split; [done|]. by constructor.
Qed.

Lemma os_mkdir_calls (p : Path) : P (EvMkdir p) → respects (adds_calls P) (os_mkdir p).
Proof.
  intros HP w. rewrite os_mkdir_run.
  destruct (files w !! p); [apply reflexivity|].
  destruct (files w !! parent p) as [[m|t]|]; try apply reflexivity.
  cbn. exists [EvMkdir p]. split; [done|]. by constructor.
Qed.

Lemma unless_is_dir_calls (p : Path) (e : Exn) : respects (adds_calls P) (unless_is_dir p e).
Proof. intros w. rewrite unless_is_dir_run. destruct (_ && _); apply reflexivity. Qed.

Lemma mkdir_exist_ok_calls (p : Path) :
  P (EvMkdir p) → respects (adds_calls P) (mkdir_exist_ok p).
Proof.
  intros HP. unfold mkdir_exist_ok.
  apply respects_catch; [apply _|by apply os_mkdir_calls|].
  intros e. destruct e; try apply unless_is_dir_calls. apply respects_raise, _.
Qed.

Lemma mkdir_parents_calls (p : Path) :
  (∀ q, P (EvMkdir q)) → respects (adds_calls P) (mkdir_parents p).
Proof.
  intros HP. unfold mkdir_parents. generalize (reverse p). clear p.
  intros rp. induction rp as [|s rp IH]; cbn [mkdir_parents_rev].
  - apply respects_catch; [apply _|by apply os_mkdir_calls|].
    intros e. destruct e; try apply unless_is_dir_calls. apply respects_raise, _.
  - apply respects_catch; [apply _|by apply os_mkdir_calls|].
    intros e. destruct e; try apply unless_is_dir_calls.
    apply respects_bind; [apply _|exact IH|]. intros _. by apply mkdir_exist_ok_calls.
Qed.

Lemma touch_calls (p : Path) : P (EvTouch p) → respects (adds_calls P) (touch p).
Proof.
  intros HP. unfold touch.
  apply respects_bind; [apply _|by apply respects_reader; try apply _|]. intros fs.
  apply respects_bind; [apply _|by apply respects_reader; try apply _|]. intros t.
  destruct (fs !! p).
  - apply respects_bind; [apply _|apply put_files_calls|]. intros _. by apply emit_calls.
  - apply respects_bind; [apply _|apply create_calls|]. intros _. by apply emit_calls.
Qed.

Lemma mark_managed_dir_calls (d : Path) (marker : string) :
  (∀ q, P (EvTouch q)) → respects (adds_calls P) (mark_managed_dir d marker).
Proof.
  intros HP. unfold mark_managed_dir.
  apply respects_catch; [apply _|by apply touch_calls|]. intros e. apply respects_ret, _.
Qed.

Lemma rename_entry_calls (src real_dst : Path) :
  P (EvRename src real_dst) → respects (adds_calls P) (rename_entry src real_dst).
Proof.
  intros HP. unfold rename_entry.
  apply respects_bind; [apply _|by apply respects_reader; try apply _|]. intros fs.
  destruct (fs !! src) as [n|]; [|apply respects_raise, _].
  destruct (bool_decide (src = real_dst)); [apply respects_ret, _|].
  destruct (fs !! parent real_dst) as [[m|t]|]; try apply respects_raise, _.
  destruct (bool_decide (src `prefix_of` real_dst)); [apply respects_raise, _|].
  assert (respects (adds_calls P)
            (t0 <- get_clock ;
             exec put_files (bump t0 (parent src) (bump t0 (parent real_dst)
                               (renamed src real_dst n fs))) ;
             emit (EvRename src real_dst))) as Hmove.
  { apply respects_bind; [apply _|by apply respects_reader; try apply _|]. intros t0.
    apply respects_bind; [apply _|apply put_files_calls|]. intros _. by apply emit_calls. }
  destruct n; [exact Hmove|]. destruct (fs !! real_dst); [apply respects_raise, _|exact Hmove].
Qed.

Lemma real_destination_world (src dst : Path) (w : World) :
  (real_destination src dst w).2 = w.
Proof.
  unfold real_destination, is_dir, path_exists. run_monad.
  destruct (files w !! dst) as [[m|t]|]; try done.
  destruct (bool_decide (src = dst)); [done|]. by destruct (bool_decide (is_Some _)).
Qed.

Lemma shutil_move_calls (src dst : Path) :
  (∀ q, P (EvRename src q)) → respects (adds_calls P) (shutil_move src dst).
Proof.
  intros HP. unfold shutil_move.
  apply respects_bind; [apply _| |].
  { apply respects_reader; [apply _|]. apply real_destination_world. }
  intros real_dst. by apply rename_entry_calls.
Qed.

Lemma unique_candidate_calls (next : nat -> Path) (c : Path) :
  respects (adds_calls P) (unique_candidate next c).
Proof. apply respects_reader; [apply _|apply unique_candidate_world]. Qed.

Lemma move_with_unique_calls (src dst_dir : Path) (nm : string) (eu : bool) :
  (∀ q, P (EvMkdir q)) → (∀ q, P (EvRename src q)) →
  respects (adds_calls P) (move_with_unique src dst_dir nm eu).
Proof.
  intros HPm HPr. unfold move_with_unique.
  apply respects_bind; [apply _|by apply mkdir_parents_calls|]. intros _.
  apply respects_bind; [apply _| |].
  { destruct eu; [|apply respects_ret, _].
    destruct (PathLib.splitext _) as [stem ext].
    apply respects_bind; [apply _|apply unique_candidate_calls|].
    intros r. apply respects_ret, _. }
  intros c. apply respects_bind; [apply _|by apply shutil_move_calls|].
  intros _. apply respects_ret, _.
Qed.

Lemma move_dir_with_unique_calls (src dst_dir : Path) (eu : bool) :
  (∀ q, P (EvMkdir q)) → (∀ q, P (EvRename src q)) →
  respects (adds_calls P) (move_dir_with_unique src dst_dir eu).
Proof.
  intros HPm HPr. unfold move_dir_with_unique.
  apply respects_bind; [apply _|by apply mkdir_parents_calls|]. intros _.
  apply respects_bind; [apply _| |].
  { destruct eu; [|apply respects_ret, _].
    apply respects_bind; [apply _|apply unique_candidate_calls|].
    intros r. apply respects_ret, _. }
  intros c. apply respects_bind; [apply _|by apply shutil_move_calls|].
  intros _. apply respects_ret, _.
Qed.

End CallFacts.

(** ** The steps of the pass *)

Section StepFacts.
Context `{Platform}.

Lemma is_candidate_file_run (p : Path) (min_age_sec : Z) (ie inames : list string) (w : World) :
  is_candidate_file p min_age_sec ie inames w
  = (Ok (candidate_fileb (files w) (clock w) p min_age_sec ie inames), w).
Proof.
  unfold is_candidate_file, is_candidate_file_with, is_file, stat_mtime, candidate_fileb.
  run_monad. unfold id.
  destruct (files w !! p) as [[m|t]|] eqn:Hp; try done. cbn [negb].
  destruct (bool_decide (PathLib.name p ∈ inames)); [done|].
  destruct (existsb _ ie); [done|].
  by rewrite set_files_same, Hp.
Qed.

Lemma is_candidate_dir_run (d : Path) (min_age_sec : Z) (w : World) :
  is_candidate_dir d min_age_sec w = (Ok (candidate_dirb (files w) (clock w) d min_age_sec), w).
Proof.
  unfold is_candidate_dir, is_dir, stat_mtime, candidate_dirb. run_monad.
  destruct (files w !! d) as [[m|t]|] eqn:Hp; cbn [negb]; by rewrite ?Hp.
Qed.

Lemma is_managed_dir_run (d : Path) (marker : string) (w : World) :
  is_managed_dir d marker w = (Ok (bool_decide (is_Some (files w !! PathLib.join d marker))), w).
Proof. done. Qed.

(** The run of one round of the loop over directories. *)
Lemma dir_step_run (cfg : Config) (dry : bool) (excl : gset Path) (root d : Path)
    (n : nat) (w : World) :
  dir_step cfg dry excl root d n w =
  if dir_skippedb cfg excl (files w) (clock w) d then (Ok n, w)
  else if dry then (exec emit (EvLog (LogDryDir d root)) ; ret (S n)) w
  else (moved <- move_dir_with_unique d root true ;
        exec emit (EvLog (LogMovedDir d moved)) ;
        ret (S n)) w.
Proof.
  unfold dir_step, dir_skippedb. fold (min_age cfg). fold (marker_name cfg).
  unfold bind at 1. rewrite is_candidate_dir_run.
  destruct (candidate_dirb _ _ _ _); [|done]. cbn [negb orb].
  destruct (bool_decide (PathLib.name d ∈ ignore_names cfg)); [done|]. cbn [orb].
  destruct (Str.startswith (PathLib.name d) "."); [done|]. cbn [orb].
  unfold bind at 1. rewrite is_managed_dir_run.
  destruct (bool_decide (is_Some _)); [done|]. cbn [orb].
  destruct (skip_by_excludes excl d); [done|by destruct dry].
Qed.

Lemma is_parent_of_spec (a b : Path) :
  PathLib.is_parent_of a b = true ↔ a `prefix_of` b ∧ a ≠ b.
Proof.
  unfold PathLib.is_parent_of.
  rewrite andb_true_iff, negb_true_iff, bool_decide_eq_true, bool_decide_eq_false. done.
Qed.

Lemma skip_by_excludes_spec (excl : gset Path) (d : Path) :
  skip_by_excludes excl d = true ↔
  ∃ ep, ep ∈ excl ∧ (d = ep ∨ (d `prefix_of` ep ∧ d ≠ ep) ∨ (ep `prefix_of` d ∧ ep ≠ d)).
Proof.
  unfold skip_by_excludes. rewrite existsb_elem_of.
  split; intros (ep & Hin & Hrel); exists ep.
  - split; [by apply elem_of_elements|].
    rewrite !orb_true_iff, bool_decide_eq_true, !is_parent_of_spec in Hrel. tauto.
  - split; [by apply elem_of_elements|].
    rewrite !orb_true_iff, bool_decide_eq_true, !is_parent_of_spec. tauto.
Qed.


End StepFacts.

(** ** The calls made by the pass *)

Section PassCalls.
Context `{Platform}.

Lemma match_rule_elem (nm : string) (rs : list Rule) (r : Rule) :
  match_rule nm rs = Some r → r ∈ rs.
Proof.
  unfold match_rule. induction rs as [|r' rs IH]; cbn [match_rule_loop]; [done|].
  destruct (rule_hit _ _ _ r').
  - intros [= ->]. apply list_elem_of_here.
  - intros Hr. apply list_elem_of_further. by apply IH.
Qed.

(** The path returned by [move_with_unique] is one of the probe paths, the
    first one without [ensure_unique]. *)
Lemma move_with_unique_probe (src dst_dir : Path) (nm : string) (eu : bool)
    (w : World) (c : Path) :
  (move_with_unique src dst_dir nm eu w).1 = Ok c →
  ∃ i, c = probe dst_dir nm i ∧ (eu = false → i = O).
Proof.
  unfold move_with_unique. unfold bind at 1.
  destruct (mkdir_parents dst_dir w) as [[[]|e] w1]; [|done].
  rewrite name_join. destruct eu.
  - pose proof (probe_inj dst_dir nm) as Hinj.
    destruct (PathLib.splitext nm) as [stem ext] eqn:Hs. cbn [fst snd] in Hinj.
    destruct (unique_candidate_run
                (fun i => PathLib.join dst_dir (suffixed stem ext i))
                (PathLib.join dst_dir nm) w1 Hinj) as (k & Huc & _).
    unfold bind. rewrite Huc. unfold ret. cbn [snd]. lazy beta iota.
    destruct (shutil_move _ _ _) as [[[]|e] w2]; [|done].
    intros [= <-]. exists k. split; [|done]. unfold probe. rewrite Hs. by destruct k.
  - unfold bind, ret. lazy beta iota.
    destruct (shutil_move _ _ _) as [[[]|e] w2]; [|done].
    intros [= <-]. by exists O.
Qed.

Lemma move_with_unique_result (src dst_dir : Path) (nm : string) (eu : bool)
    (w : World) (c : Path) :
  (move_with_unique src dst_dir nm eu w).1 = Ok c → ∃ i, c = probe dst_dir nm i.
Proof.
  intros Hrun. apply move_with_unique_probe in Hrun as (i & -> & _). by exists i.
Qed.

Lemma is_candidate_file_world (p : Path) (a : Z) (ie inames : list string) (w : World) :
  (is_candidate_file p a ie inames w).2 = w.
Proof. by rewrite is_candidate_file_run. Qed.

Lemma is_candidate_dir_world (p : Path) (a : Z) (w : World) :
  (is_candidate_dir p a w).2 = w.
Proof. by rewrite is_candidate_dir_run. Qed.

(** The calls of one round of the loop over files. *)
Lemma file_step_calls (P : Event -> Prop) (cfg : Config) (dry : bool) (now : Datetime)
    (p : Path) (n : nat) :
  (dry = false → ∀ q, P (EvMkdir q)) →
  (dry = false → ∀ q, P (EvRename p q)) →
  (dry = false → ∀ q, P (EvTouch q)) →
  (dry = true → ∀ rule td,
     match_rule (PathLib.name p) (rules cfg) = Some rule → to_dir rule = Some td →
     P (EvLog (LogDryFile p (expand_path td now) (build_target_name p rule now 0)
                 (rule_name rule)))) →
  (dry = false → ∀ rule td i,
     match_rule (PathLib.name p) (rules cfg) = Some rule → to_dir rule = Some td →
     (ensure_unique rule = false → i = O) →
     P (EvLog (LogMovedFile p (probe (expand_path td now) (build_target_name p rule now 0) i)
                 (rule_name rule)))) →
  respects (adds_calls P) (file_step cfg dry now p n).
Proof.
  intros HPm HPr HPt HPd HPf. unfold file_step.
  apply respects_bind; [apply _| |].
  { apply respects_reader; [apply _|]. apply is_candidate_file_world. }
  intros c. destruct c; cbn [negb]; [|apply respects_ret, _].
  destruct (match_rule (PathLib.name p) (rules cfg)) as [rule|] eqn:Hrule;
    [|apply respects_ret, _].
  destruct (to_dir rule) as [td|] eqn:Htd; [|intros w; apply reflexivity].
  apply (respects_bind_ok _ (fun x => x = td)); [apply respects_ret, _|by intros w a [= <-]|].
  intros ? ->. destruct dry.
  - apply respects_bind; [apply _|apply emit_calls; by apply HPd|].
    intros _. apply respects_ret, _.
  - apply (respects_bind_ok _ (fun c => ∃ i, c = probe (expand_path td now)
                                               (build_target_name p rule now 0) i ∧
                                             (ensure_unique rule = false → i = O))).
    + apply move_with_unique_calls; [by apply HPm|by apply HPr].
    + intros w c. apply move_with_unique_probe.
    + intros c (i & -> & Hi).
      apply respects_bind; [apply _|apply mark_managed_dir_calls; by apply HPt|]. intros _.
      apply respects_bind; [apply _|apply emit_calls; by apply HPf|]. intros _.
      apply respects_ret, _.
Qed.

(** The calls of one round of the loop over directories. *)
Lemma dir_step_calls (P : Event -> Prop) (cfg : Config) (dry : bool) (excl : gset Path)
    (root d : Path) (n : nat) :
  (dry = false → ∀ q, P (EvMkdir q)) →
  (dry = false → ∀ q, P (EvRename d q)) →
  P (EvLog (LogDryDir d root)) →
  (∀ moved, P (EvLog (LogMovedDir d moved))) →
  respects (adds_calls P) (dir_step cfg dry excl root d n).
Proof.
  intros HPm HPr HPd HPl w. rewrite dir_step_run.
  destruct (dir_skippedb cfg excl (files w) (clock w) d); [apply reflexivity|].
  destruct dry.
  - revert w. apply respects_bind; [apply _|by apply emit_calls|].
    intros _. apply respects_ret, _.
  - revert w. apply respects_bind; [apply _| |].
    { apply move_dir_with_unique_calls; [by apply HPm|by apply HPr]. }
    intros moved. apply respects_bind; [apply _|by apply emit_calls|].
    intros _. apply respects_ret, _.
Qed.

End PassCalls.

Section PassFacts.
Context `{Platform}.

Lemma build_target_name_counter_zero (src : Path) (rule : Rule) (dt : Datetime) :
  build_target_name src rule dt 0 = name_without_counter src rule dt.
Proof. done. Qed.

(** C10.  [process_once] builds every file name with counter 0, so that
    the counter placeholder stands for the empty string in every name of
    the pass: each line that a pass, dry or real, adds to the log about a
    file speaks of the rule that [match_rule] returns for it; the name
    that a dry run reports is [name_without_counter], and the target that
    a real run reports for a name that is a single path segment is named
    by that name, or by that name with the suffix of the mover, and by
    the name itself where the rule switches [ensure_unique] off: names are
    told apart by the suffix of the mover only. *)
Theorem process_once_counter_always_zero (cfg : Config) (dry : bool) (now : Datetime)
    (w : World) :
  ∃ delta, calls (process_once cfg dry now w).2 = calls w ++ delta ∧
           Forall (built_with_counter_zero cfg now) delta.
Proof.
  revert w. change (respects (adds_calls (built_with_counter_zero cfg now))
                      (process_once cfg dry now)).
  unfold process_once.
  apply respects_bind; [apply _|by apply respects_reader; try apply _|]. intros e.
  destruct e; cbn [negb].
  - apply respects_bind; [apply _| |].
    + unfold file_phase. apply respects_bind; [apply _|by apply iterdir_calls|].
      intros l. apply respects_for_loop; [apply _..|]. intros p n.
      apply file_step_calls; try done.
      * intros _ rule td Hin Htd. exists rule.
        by rewrite build_target_name_counter_zero.
      * intros _ rule td i Hin Htd Hi. exists rule.
        split; [done|]. intros _. exists i. split; [|done].
        rewrite build_target_name_counter_zero. unfold probe.
        destruct i; apply name_join.
    + intros n. destruct (collect_unmanaged_dirs cfg); [|apply respects_ret, _].
      unfold dir_phase. apply respects_bind; [apply _|by apply iterdir_calls|].
      intros l. apply respects_for_loop; [apply _..|]. intros d k.
      by apply dir_step_calls.
  - apply respects_bind; [apply _|by apply emit_calls|]. intros _.
    apply respects_ret, _.
Qed.





(** The run of [iterdir]. *)
Lemma iterdir_run (d : Path) (w : World) :
  iterdir d w =
  match files w !! d with
  | Some (Dir _) => (Ok (entries (files w) d), with_call (EvListdir d (entries (files w) d)) w)
  | Some (File _) => (Raised NotADirectoryError, w)
  | None => (Raised FileNotFoundError, w)
  end.
Proof. unfold iterdir. run_monad. by destruct (files w !! d) as [[m|t]|]. Qed.




End PassFacts.



(** ** Frames of the file-system calls *)

#[global] Instance lframe_refl S : Reflexive (lframe S).
Proof. by intros w. Qed.

#[global] Instance lframe_trans S : Transitive (lframe S).
Proof.
  intros w1 w2 w3 [C1 F1] [C2 F2]. split; [congruence|].
  intros q Hq. by rewrite F2, F1.
Qed.

#[global] Instance fframe_refl S : Reflexive (fframe S).
Proof. by intros w. Qed.

#[global] Instance fframe_trans S : Transitive (fframe S).
Proof.
  intros w1 w2 w3 [C1 F1] [C2 F2]. split; [congruence|].
  intros q Hq. by rewrite F2, F1.
Qed.

#[global] Instance dframe_refl S : Reflexive (dframe S).
Proof. by intros w. Qed.

#[global] Instance dframe_trans S : Transitive (dframe S).
Proof.
  intros w1 w2 w3 [C1 F1] [C2 F2]. split; [congruence|].
  intros q Hq. by rewrite F2, F1.
Qed.

Lemma lframe_weaken (S S' : Path -> Prop) (w w' : World) :
  (∀ q, S q → S' q) → lframe S w w' → lframe S' w w'.
Proof. intros HS [C F]. split; [done|]. intros q Hq. apply F. auto. Qed.

Lemma fframe_weaken (S S' : Path -> Prop) (w w' : World) :
  (∀ q, S q → S' q) → fframe S w w' → fframe S' w w'.
Proof. intros HS [C F]. split; [done|]. intros q Hq. apply F. auto. Qed.

Lemma dframe_weaken (S S' : Path -> Prop) (w w' : World) :
  (∀ q, S q → S' q) → dframe S w w' → dframe S' w w'.
Proof. intros HS [C F]. split; [done|]. intros q Hq. apply F. auto. Qed.

Lemma lframe_fframe (S : Path -> Prop) (w w' : World) : lframe S w w' → fframe S w w'.
Proof. intros [C F]. split; [done|]. intros q Hq. unfold fview. by rewrite F. Qed.

Lemma lframe_dframe (S : Path -> Prop) (w w' : World) : lframe S w w' → dframe S w w'.
Proof. intros [C F]. split; [done|]. intros q Hq. unfold dview. by rewrite F. Qed.

(** Making directories: the three frames of [mkdir_parents]. *)
Lemma mkdir_parents_frames (p : Path) (w : World) :
  let w' := (mkdir_parents p w).2 in
  lframe (fun q => q `prefix_of` p) w w' ∧
  fframe (fun _ => False) w w' ∧
  dframe (fun q => q `prefix_of` p) w w'.
Proof.
  intros w'. destruct (mkdir_parents_effect p w) as (C & F & L & _).
  assert (lframe (fun q => q `prefix_of` p) w w') as HL by done.
  split; [done|]. split; [|by apply lframe_dframe]. by split.
Qed.

(** The run of [touch]. *)
Lemma touch_run (p : Path) (w : World) :
  touch p w =
  match files w !! p with
  | Some n => (Ok tt, with_call (EvTouch p)
                        (set_files (<[p := with_mtime (clock w) n]> (files w)) w))
  | None =>
      match files w !! parent p with
      | Some (Dir _) =>
          (Ok tt, with_call (EvTouch p)
                    (set_files (<[p := File (clock w)]> (bump (clock w) (parent p) (files w))) w))
      | Some (File _) => (Raised NotADirectoryError, w)
      | None => (Raised FileNotFoundError, w)
      end
  end.
Proof.
  unfold touch, create. run_monad.
  destruct (files w !! p) as [n|]; [done|].
  by destruct (files w !! parent p) as [[m|t]|].
Qed.

Lemma fview_insert_file_ne (fs : gmap Path Node) (p q : Path) (n : Node) :
  p ≠ q → fview (<[p := n]> fs) q = fview fs q.
Proof. intros Hne. unfold fview. by rewrite lookup_insert_ne. Qed.

(** Marking a directory: the three frames of [mark_managed_dir]. *)
Lemma mark_managed_dir_frames (d : Path) (marker : string) (w : World) :
  let w' := (mark_managed_dir d marker w).2 in
  let q0 := PathLib.join d marker in
  lframe (fun q => q = q0 ∨ q = d) w w' ∧
  fframe (fun q => q = q0) w w' ∧
  dframe (fun q => q = q0 ∨ q = d) w w'.
Proof.
  intros w' q0. unfold w', mark_managed_dir, catch. fold q0. rewrite touch_run.
  assert (parent q0 = d) as Hpar by apply parent_join.
  destruct (files w !! q0) as [n|] eqn:Hq0.
  - cbn [snd files with_call set_files].
    assert (lframe (fun q => q = q0 ∨ q = d) w
              (with_call (EvTouch q0) (set_files (<[q0 := with_mtime (clock w) n]> (files w)) w)))
      as HL.
    { split; [done|]. intros q Hq. cbn. rewrite lookup_insert_ne; [done|]. intros ->. tauto. }
    split; [done|]. split; [|by apply lframe_dframe].
    split; [done|]. intros q Hq. cbn. by apply fview_insert_file_ne.
  - rewrite Hpar. destruct (files w !! d) as [[m|t]|] eqn:Hd; cbn [snd]; try done.
    assert (lframe (fun q => q = q0 ∨ q = d) w
              (with_call (EvTouch q0)
                 (set_files (<[q0 := File (clock w)]> (bump (clock w) d (files w))) w)))
      as HL.
    { split; [done|]. intros q Hq. cbn.
      rewrite lookup_insert_ne by (intros ->; tauto).
      rewrite lookup_bump. rewrite decide_False; [done|]. intros ->. tauto. }
    split; [done|]. split; [|by apply lframe_dframe].
    split; [done|]. intros q Hq. cbn.
    rewrite fview_insert_file_ne by (intros ->; done).
    apply fview_bump. intros m. congruence.
Qed.

(** The renaming of a regular file: nothing changes, or the file takes the
    place of [rd]. *)
Lemma rename_entry_file_cases (src rd : Path) (m : Z) (w : World) :
  files w !! src = Some (File m) →
  (rename_entry src rd w).2 = w ∨
  ∃ t, src ≠ rd ∧ files w !! parent rd = Some (Dir t) ∧
       rename_entry src rd w
       = (Ok tt, with_call (EvRename src rd)
                   (set_files (bump (clock w) (parent src)
                                 (bump (clock w) (parent rd)
                                    (<[rd := File m]> (delete src (files w))))) w)).
Proof.
  intros Hsrc. unfold rename_entry. run_monad. rewrite Hsrc.
  destruct (bool_decide (src = rd)) eqn:Heq; [by left|].
  apply bool_decide_eq_false in Heq.
  destruct (files w !! parent rd) as [[m'|t]|] eqn:Hpar; try by left.
  destruct (bool_decide (src `prefix_of` rd)); [by left|].
  right. exists t. by repeat split.
Qed.

(** The destination of [shutil.move]: [dst], or [dst / src.name], and no
    directory when [src] is a regular file. *)
Lemma real_destination_file (src dst : Path) (m : Z) (w : World) (rd : Path) :
  files w !! src = Some (File m) →
  (real_destination src dst w).1 = Ok rd →
  (rd = dst ∨ rd = PathLib.join dst (PathLib.name src) ∧ is_Some (dview (files w) dst)) ∧
  dview (files w) rd = None.
Proof.
  intros Hsrc. unfold real_destination. unfold bind at 1. rewrite is_dir_run.
  destruct (bool_decide (is_Some (dview (files w) dst))) eqn:Hd.
  - apply bool_decide_eq_true in Hd.
    destruct (bool_decide (src = dst)) eqn:Hsd.
    { apply bool_decide_eq_true in Hsd. subst dst. destruct Hd as [t Hd].
      unfold dview in Hd. by rewrite Hsrc in Hd. }
    unfold path_exists. run_monad.
    destruct (bool_decide (is_Some (files w !! PathLib.join dst (PathLib.name src)))) eqn:Hex;
      [done|].
    apply bool_decide_eq_false in Hex. intros [= <-]. split; [by right|].
    unfold dview. destruct (files w !! PathLib.join dst (PathLib.name src)); [|done].
    destruct Hex. eauto.
  - apply bool_decide_eq_false in Hd. unfold ret. intros [= <-]. split; [by left|].
    destruct (dview (files w) dst) eqn:E; [|done]. destruct Hd. eauto.
Qed.

(** The three frames of the renaming of a regular file. *)
Lemma rename_entry_file_frames (src rd : Path) (m : Z) (w : World) :
  files w !! src = Some (File m) → dview (files w) rd = None →
  let w' := (rename_entry src rd w).2 in
  lframe (fun q => q = src ∨ q = parent src ∨ q = rd ∨ q = parent rd) w w' ∧
  fframe (fun q => q = src ∨ q = parent src ∨ q = rd) w w' ∧
  dframe (fun q => q = parent src ∨ q = parent rd) w w'.
Proof.
  intros Hsrc Hnd w'.
  destruct (rename_entry_file_cases src rd m w Hsrc) as [Hsame|(t & Hne & Hpar & Hrun)].
  { unfold w'. rewrite Hsame. by repeat split. }
  assert (parent rd ≠ rd) as Hprd.
  { intros E. rewrite E in Hpar. unfold dview in Hnd. by rewrite Hpar in Hnd. }
  unfold w'. rewrite Hrun. cbn [snd].
  split; [|split]; (split; [done|]); intros q Hq; cbn [files with_call set_files].
  - rewrite !lookup_bump.
    rewrite decide_False by (intros <-; intuition).
    rewrite decide_False by (intros <-; intuition).
    rewrite lookup_insert_ne by (intros <-; intuition).
    rewrite lookup_delete_ne by (intros <-; intuition). done.
  - unfold fview. rewrite !lookup_bump.
    rewrite decide_False by (intros <-; intuition).
    rewrite lookup_insert_ne by (intros <-; intuition).
    rewrite lookup_delete_ne by (intros <-; intuition).
    case_decide as E; [|done]. subst q. by rewrite Hpar.
  - unfold dview. rewrite !lookup_bump.
    rewrite decide_False by (intros <-; intuition).
    rewrite decide_False by (intros <-; intuition).
    destruct (decide (rd = q)) as [<-|Hrq].
    { rewrite lookup_insert_eq. unfold dview in Hnd.
      by destruct (files w !! rd) as [[m'|t']|]. }
    rewrite lookup_insert_ne by done.
    destruct (decide (src = q)) as [<-|Hsq].
    { by rewrite lookup_delete_eq, Hsrc. }
    by rewrite lookup_delete_ne.
Qed.

(** The three frames of [shutil.move] for a regular file. *)
Lemma shutil_move_file_frames (src dst : Path) (m : Z) (w : World) :
  files w !! src = Some (File m) →
  let w' := (shutil_move src dst w).2 in
  let r := PathLib.join dst (PathLib.name src) in
  lframe (fun q => q = src ∨ q = parent src ∨ q = dst ∨ q = parent dst ∨ q = r) w w' ∧
  fframe (fun q => q = src ∨ q = parent src ∨ q = dst ∨ q = r) w w' ∧
  dframe (fun q => q = parent src ∨ q = dst ∨ q = parent dst) w w'.
Proof.
  intros Hsrc w' r. unfold w', shutil_move, bind.
  pose proof (real_destination_world src dst w) as Hw.
  pose proof (real_destination_file src dst m w) as Hrd.
  destruct (real_destination src dst w) as [[rd|e] w1]; cbn [fst snd] in *; subst w1;
    [|by repeat split].
  destruct (Hrd rd Hsrc eq_refl) as [Hwhich Hnd].
  destruct (rename_entry_file_frames src rd m w Hsrc Hnd) as (HL & HF & HD).
  subst r.
  assert (parent (PathLib.join dst (PathLib.name src)) = dst) as Hpr by apply parent_join.
  split; [|split].
  - eapply lframe_weaken; [|exact HL]. intros q. cbn beta.
    destruct Hwhich as [->|[-> _]]; rewrite ?Hpr; solve [intuition (subst; auto 8)].
  - eapply fframe_weaken; [|exact HF]. intros q. cbn beta.
    destruct Hwhich as [->|[-> _]]; solve [intuition (subst; auto 8)].
  - eapply dframe_weaken; [|exact HD]. intros q. cbn beta.
    destruct Hwhich as [->|[-> _]]; rewrite ?Hpr; solve [intuition (subst; auto 8)].
Qed.

(** The path found by the loop is the first candidate or one of the later
    ones. *)
Lemma unique_candidate_result (next : nat -> Path) (c0 : Path) (w : World) (r : nat * Path) :
  (unique_candidate next c0 w).1 = Ok r → r.2 = c0 ∨ ∃ j, r.2 = next j.
Proof.
  unfold unique_candidate. run_monad.
  destruct (while_exists (files w) next (S (size (files w))) 0 c0) as [[k c]|] eqn:Hw; [|done].
  intros [= <-]. apply while_exists_found in Hw as (_ & -> & _).
  cbn [snd]. case_decide; eauto.
Qed.

(** The three frames of [move_with_unique] for a regular file. *)
Lemma move_with_unique_file_frames (p out : Path) (nm : string) (eu : bool) (m : Z)
    (w : World) (r : Outcome Path) (w' : World) :
  files w !! p = Some (File m) →
  move_with_unique p out nm eu w = (r, w') →
  lframe (file_step_lset out p) w w' ∧
  fframe (file_step_fset out p) w w' ∧
  dframe (file_step_dset out p) w w'.
Proof.
  intros Hp. unfold move_with_unique. unfold bind at 1.
  destruct (mkdir_parents_frames out w) as (HL1 & HF1 & HD1).
  destruct (mkdir_parents out w) as [[[]|e] w1]; cbn [snd] in *.
  2: { intros [= _ <-]. split; [|split].
       - eapply lframe_weaken; [|exact HL1]. intros q Hq. by left.
       - eapply fframe_weaken; [|exact HF1]. done.
       - eapply dframe_weaken; [|exact HD1]. intros q Hq. by left. }
  assert (files w1 !! p = Some (File m)) as Hp1.
  { destruct HF1 as [_ HF1]. specialize (HF1 p (fun x => x)). unfold fview in HF1.
    rewrite Hp in HF1. by destruct (files w1 !! p) as [[m'|t']|]; simplify_eq. }
  assert (∀ c, is_child out c →
            let w2 := (shutil_move p c w1).2 in
            lframe (file_step_lset out p) w w2 ∧
            fframe (file_step_fset out p) w w2 ∧
            dframe (file_step_dset out p) w w2) as Hmove.
  { intros c Hc w2. destruct (shutil_move_file_frames p c m w1 Hp1) as (HL2 & HF2 & HD2).
    fold w2 in HL2, HF2, HD2. destruct Hc as [Hcne Hcpar].
    split; [|split].
    - etrans; [eapply lframe_weaken; [|exact HL1]|eapply lframe_weaken; [|exact HL2]];
        intros q; unfold file_step_lset, is_child; cbn beta.
      + by left.
      + intros [->|[->|[->|[->| -> ]]]]; rewrite ?Hcpar; auto 8.
        right. right. right. right. by exists c.
    - etrans; [eapply fframe_weaken; [|exact HF1]|eapply fframe_weaken; [|exact HF2]];
        intros q; unfold file_step_fset, is_child; cbn beta.
      + done.
      + intros [->|[->|[->| -> ]]]; auto 8. right. right. right. by exists c.
    - etrans; [eapply dframe_weaken; [|exact HD1]|eapply dframe_weaken; [|exact HD2]];
        intros q; unfold file_step_dset, is_child; cbn beta.
      + by left.
      + intros [->|[->| -> ]]; rewrite ?Hcpar; auto 8. }
  assert (∀ (mc : M Path),
            (∀ w0, (mc w0).2 = w0) → (∀ w0 c, (mc w0).1 = Ok c → is_child out c) →
            (c <- mc ; exec shutil_move p c ; ret c) w1 = (r, w') →
            lframe (file_step_lset out p) w w' ∧
            fframe (file_step_fset out p) w w' ∧
            dframe (file_step_dset out p) w w') as Hgen.
  { intros mc Hworld Hchild. unfold bind at 1.
    specialize (Hworld w1). specialize (Hchild w1).
    destruct (mc w1) as [[c|e] w1']; cbn [fst snd] in *; subst w1'.
    - specialize (Hmove c (Hchild c eq_refl)). cbn zeta in Hmove.
      unfold bind. destruct (shutil_move p c w1) as [[[]|e] w2]; by intros [= _ <-].
    - intros [= _ <-]. split; [|split].
      + eapply lframe_weaken; [|exact HL1]. intros q Hq. by left.
      + eapply fframe_weaken; [|exact HF1]. done.
      + eapply dframe_weaken; [|exact HD1]. intros q Hq. by left. }
  rewrite name_join. destruct eu.
  - destruct (PathLib.splitext nm) as [stem ext]. apply Hgen.
    + intros w0. unfold bind.
      pose proof (unique_candidate_world
                    (fun i => PathLib.join out (suffixed stem ext i))
                    (PathLib.join out nm) w0) as Hw.
      by destruct (unique_candidate _ _ w0) as [[r0|e] w0'].
    + intros w0 c. unfold bind.
      pose proof (unique_candidate_result
                    (fun i => PathLib.join out (suffixed stem ext i))
                    (PathLib.join out nm) w0) as Hr.
      destruct (unique_candidate _ _ w0) as [[r0|e] w0']; [|done].
      unfold ret. intros [= <-]. apply is_child_join.
      destruct (Hr r0 eq_refl) as [->|[j ->]]; eauto.
  - apply Hgen; [done|]. intros w0 c [= <-]. apply is_child_join. eauto.
Qed.

(** ** One round of the loop over files, dry and real *)

Section FileStep.
Context `{Platform}.

Lemma candidate_fileb_fview (fs fs' : gmap Path Node) (time : Z) (p : Path) (a : Z)
    (ie inames : list string) :
  fview fs p = fview fs' p →
  candidate_fileb fs time p a ie inames = candidate_fileb fs' time p a ie inames.
Proof.
  unfold candidate_fileb, fview. intros E.
  destruct (fs !! p) as [[m|t]|], (fs' !! p) as [[m'|t']|]; by simplify_eq.
Qed.

Lemma file_choice_fview (cfg : Config) (fs fs' : gmap Path Node) (time : Z) (p : Path) :
  fview fs p = fview fs' p → file_choice cfg fs time p = file_choice cfg fs' time p.
Proof. intros E. unfold file_choice. by rewrite (candidate_fileb_fview fs fs'). Qed.

Lemma file_choice_file (cfg : Config) (fs : gmap Path Node) (time : Z) (p : Path) (rule : Rule) :
  file_choice cfg fs time p = Some rule → ∃ m, fs !! p = Some (File m).
Proof.
  unfold file_choice, candidate_fileb.
  destruct (fs !! p) as [[m|t]|]; try done. eauto.
Qed.

(** The run of a round of the dry loop. *)
Lemma file_step_dry_run (cfg : Config) (now : Datetime) (p : Path) (n : nat) (w : World) :
  file_step cfg true now p n w =
  match file_choice cfg (files w) (clock w) p with
  | None => (Ok n, w)
  | Some rule =>
      match to_dir rule with
      | None => (Raised KeyError, w)
      | Some td =>
          (Ok (S n),
           with_call (EvLog (LogDryFile p (expand_path td now)
                               (build_target_name p rule now 0) (rule_name rule))) w)
      end
  end.
Proof.
  unfold file_step, file_choice. fold (min_age cfg).
  unfold bind at 1. rewrite is_candidate_file_run.
  destruct (candidate_fileb _ _ _ _ _ _); [|done]. cbn [negb].
  destruct (match_rule _ _) as [rule|]; [|done].
  by destruct (to_dir rule).
Qed.

(** The effect of a round of the real loop. *)
Lemma file_step_real_effect (cfg : Config) (now : Datetime) (p : Path) (n : nat)
    (w : World) (r : Outcome nat) (w' : World) :
  file_step cfg false now p n w = (r, w') →
  match file_choice cfg (files w) (clock w) p with
  | None => r = Ok n ∧ w' = w
  | Some rule =>
      match to_dir rule with
      | None => r = Raised KeyError ∧ w' = w
      | Some td =>
          (∀ n', r = Ok n' → n' = S n) ∧
          lframe (file_step_lset (expand_path td now) p) w w' ∧
          fframe (file_step_fset (expand_path td now) p) w w' ∧
          dframe (file_step_dset (expand_path td now) p) w w'
      end
  end.
Proof.
  pose proof (file_choice_file cfg (files w) (clock w) p) as Hfile.
  unfold file_step, file_choice in *. fold (min_age cfg) in *. fold (marker_name cfg).
  unfold bind at 1. rewrite is_candidate_file_run.
  destruct (candidate_fileb _ _ _ _ _ _); [|by intros [= <- <-]]. cbn [negb].
  destruct (match_rule _ _) as [rule|]; [|by intros [= <- <-]].
  destruct (Hfile rule eq_refl) as [m Hp]. clear Hfile.
  destruct (to_dir rule) as [td|]; [|by intros [= <- <-]].
  unfold bind at 1, ret at 1. unfold bind at 1.
  set (out := expand_path td now).
  destruct (move_with_unique p out (build_target_name p rule now 0) (ensure_unique rule) w)
    as [[target|e] w2] eqn:Hmove.
  - apply (move_with_unique_file_frames _ _ _ _ m) in Hmove as (HL & HF & HD); [|done].
    unfold bind at 1.
    destruct (mark_managed_dir_frames out (marker_name cfg) w2) as (HL' & HF' & HD').
    destruct (mark_managed_dir out (marker_name cfg) w2) as [[[]|e] w3]; cbn [snd] in *.
    + unfold bind, emit, ret. intros [= <- <-]. split; [by intros n' [= <-]|].
      split; [|split].
      * etrans; [exact HL|]. eapply lframe_weaken; [|split; [apply HL'|apply HL']].
        intros q [->| ->]; unfold file_step_lset.
        -- right. right. right. left. apply is_child_join. eauto.
        -- by left.
      * etrans; [exact HF|]. eapply fframe_weaken; [|split; [apply HF'|apply HF']].
        intros q ->. unfold file_step_fset. right. right. left. apply is_child_join. eauto.
      * etrans; [exact HD|]. eapply dframe_weaken; [|split; [apply HD'|apply HD']].
        intros q [->| ->]; unfold file_step_dset.
        -- right. right. apply is_child_join. eauto.
        -- by left.
    + intros [= <- <-]. split; [done|].
      split; [|split].
      * etrans; [exact HL|]. eapply lframe_weaken; [|exact HL'].
        intros q [->| ->]; unfold file_step_lset.
        -- right. right. right. left. apply is_child_join. eauto.
        -- by left.
      * etrans; [exact HF|]. eapply fframe_weaken; [|exact HF'].
        intros q ->. unfold file_step_fset. right. right. left. apply is_child_join. eauto.
      * etrans; [exact HD|]. eapply dframe_weaken; [|exact HD'].
        intros q [->| ->]; unfold file_step_dset.
        -- right. right. apply is_child_join. eauto.
        -- by left.
  - apply (move_with_unique_file_frames _ _ _ _ m) in Hmove as (HL & HF & HD); [|done].
    by intros [= <- <-].
Qed.

End FileStep.

(** ** The exclusion set *)

Lemma foldl_union_elem {A} (step : gset Path -> A -> gset Path) (init : gset Path)
    (l : list A) (q : Path) :
  (∀ acc a, acc ⊆ step acc a) →
  (q ∈ init ∨ ∃ a, a ∈ l ∧ ∀ acc, q ∈ step acc a) →
  q ∈ foldl step init l.
Proof.
  intros Hmono. revert init. induction l as [|a l IH]; intros init; cbn [foldl].
  - intros [Hq|(a & Ha & _)]; [done|]. by apply elem_of_nil in Ha.
  - intros [Hq|(a' & Ha' & Hstep)]; apply IH.
    + left. by apply Hmono.
    + apply elem_of_cons in Ha' as [->|Ha']; [left; apply Hstep|right; eauto].
Qed.

Section ExclusionFacts.
Context `{Platform}.

Lemma exclude_has_target (cfg : Config) (now : Datetime) (wd : Path) :
  expand_path (unmanaged_target_template cfg) now ∈ build_unmanaged_exclude_paths cfg now wd.
Proof.
  unfold build_unmanaged_exclude_paths. apply elem_of_union_r. by apply elem_of_singleton.
Qed.

Lemma exclude_has_top (cfg : Config) (now : Datetime) (wd : Path) (rule : Rule)
    (td x : string) (rest : list string) :
  rule ∈ rules cfg → to_dir rule = Some td → td ≠ EmptyString →
  relative_to (expand_path td now) wd = Some (x :: rest) →
  PathLib.join wd x ∈ build_unmanaged_exclude_paths cfg now wd.
Proof.
  intros Hin Htd Hne Hrel. unfold build_unmanaged_exclude_paths.
  apply elem_of_union_l. apply foldl_union_elem.
  - clear Hrel. intros acc r. cbv zeta. destruct (negb _); [done|].
    destruct (relative_to _ _) as [[|? ?]|]; cbv iota; try done.
    apply union_subseteq_l.
  - right. exists rule. split; [done|]. intros acc.
    rewrite Htd. cbn [default from_option]. unfold id.
    rewrite (proj2 (truthy_true td) Hne). cbn [negb]. rewrite Hrel.
    apply elem_of_union_r. by apply elem_of_singleton.
Qed.

(** An entry of the watch directory on the way to the destination of a
    rule is covered by the exclusion set. *)
Lemma excluded_on_the_way (cfg : Config) (now : Datetime) (watch : Path) (rule : Rule)
    (td : string) (d : Path) :
  rule ∈ rules cfg → to_dir rule = Some td → td ≠ EmptyString →
  is_child watch d → d `prefix_of` expand_path td now →
  skip_by_excludes (build_unmanaged_exclude_paths cfg now watch) d = true.
Proof.
  intros Hin Htd Hne Hd Hpre. apply is_child_join in Hd as [x ->].
  apply skip_by_excludes_spec. exists (PathLib.join watch x). split; [|by left].
  destruct Hpre as [k Hk]. unfold PathLib.join in Hk. rewrite <- app_assoc in Hk.
  eapply exclude_has_top; try done.
  unfold relative_to. rewrite bool_decide_eq_true_2 by (rewrite Hk; by eexists).
  rewrite Hk, drop_app_length. done.
Qed.

(** An entry that is the archive root, above it or below it is covered by
    the exclusion set. *)
Lemma excluded_near_target (cfg : Config) (now : Datetime) (watch d : Path) :
  let root := expand_path (unmanaged_target_template cfg) now in
  d `prefix_of` root ∨ root `prefix_of` d →
  skip_by_excludes (build_unmanaged_exclude_paths cfg now watch) d = true.
Proof.
  intros root Hrel. apply skip_by_excludes_spec. exists root.
  split; [apply exclude_has_target|].
  destruct (decide (d = root)) as [->|Hne]; [by left|].
  destruct Hrel as [Hp|Hp]; [right; left|right; right]; split; auto.
Qed.

Lemma dir_skippedb_view (cfg : Config) (excl : gset Path) (fs fs' : gmap Path Node)
    (time : Z) (d : Path) :
  sweep_view cfg fs d = sweep_view cfg fs' d →
  dir_skippedb cfg excl fs time d = dir_skippedb cfg excl fs' time d.
Proof.
  unfold sweep_view, dir_skippedb, candidate_dirb, dview. intros [= Hd Hm].
  rewrite Hm. f_equal. f_equal. f_equal. f_equal.
  destruct (fs !! d) as [[m|t]|], (fs' !! d) as [[m'|t']|]; by simplify_eq.
Qed.

Lemma join_ne (d : Path) (x : string) : PathLib.join d x ≠ d.
Proof.
  intros E. apply (f_equal length) in E. unfold PathLib.join in E.
  rewrite length_app in E. simpl in E. lia.
Qed.

Lemma join_join_ne (d : Path) (x y : string) : PathLib.join (PathLib.join d x) y ≠ d.
Proof.
  intros E. apply (f_equal length) in E. unfold PathLib.join in E.
  rewrite !length_app in E. simpl in E. lia.
Qed.

(** A round of the real loop over files leaves the view of the sweep as it
    is. *)
Lemma file_step_keeps_sweep (cfg : Config) (now : Datetime) (watch : Path) (rule : Rule)
    (td : string) (p : Path) (w w' : World) :
  destinations_apart cfg now watch →
  rule ∈ rules cfg → to_dir rule = Some td → is_child watch p →
  lframe (file_step_lset (expand_path td now) p) w w' →
  dframe (file_step_dset (expand_path td now) p) w w' →
  sweep_agree cfg (build_unmanaged_exclude_paths cfg now watch) watch (files w') (files w).
Proof.
  intros Hapart Hin Htd Hp [_ HL] [_ HD] d Hd Hskip.
  destruct (Hapart rule td Hin Htd) as [Hne Hout].
  set (out := expand_path td now) in *.
  assert (¬ d `prefix_of` out) as Hway.
  { intros Hpre. by rewrite (excluded_on_the_way cfg now watch rule td d) in Hskip. }
  apply is_child_join in Hp as [y ->]. apply is_child_join in Hd as [x ->].
  unfold sweep_view. f_equal.
  - apply HD. unfold file_step_dset. rewrite parent_join.
    intros [Hpre|[E|[_ E]]]; [done|by apply join_ne in E|].
    rewrite parent_join in E. congruence.
  - rewrite HL; [done|]. unfold file_step_lset. rewrite parent_join.
    intros [Hpre|[E|[E|[[_ E]|(c & [_ Hc] & E)]]]].
    + apply Hway. etrans; [|exact Hpre]. by exists [marker_name cfg].
    + apply join_inj in E as [E _]. by apply join_ne in E.
    + by apply join_join_ne in E.
    + rewrite parent_join in E. apply Hway. by rewrite E.
    + apply join_inj in E as [E _]. subst c. rewrite parent_join in Hc. congruence.
Qed.

End ExclusionFacts.

(** ** The two runs of a pass, side by side *)

(** The sorted listing of a directory: its entries, each once. *)
Lemma sorted_entries_elem (fs : gmap Path Node) (d p : Path) :
  p ∈ sorted (entries fs d) ↔ is_child d p ∧ is_Some (fs !! p).
Proof.
  unfold sorted, entries. rewrite merge_sort_Permutation, list_elem_of_filter.
  by rewrite elem_of_elements, elem_of_dom.
Qed.

Lemma sorted_entries_NoDup (fs : gmap Path Node) (d : Path) : NoDup (sorted (entries fs d)).
Proof.
  unfold sorted, entries. rewrite merge_sort_Permutation.
  apply NoDup_filter, NoDup_elements.
Qed.

Lemma sweep_agree_trans `{Platform} (cfg : Config) (excl : gset Path) (watch : Path)
    (a b c : gmap Path Node) :
  sweep_agree cfg excl watch a b → sweep_agree cfg excl watch b c →
  sweep_agree cfg excl watch a c.
Proof. intros Hab Hbc d Hd Hs. by rewrite (Hab d Hd Hs), (Hbc d Hd Hs). Qed.

Section FileLoop.
Context `{Platform}.

(** Another entry of the watch directory is not in the footprint of the
    processing of [p]. *)
Lemma sibling_outside (watch out p p' : Path) :
  out ≠ watch → is_child watch p → is_child watch p' → p' ≠ p →
  ¬ file_step_fset out p p'.
Proof.
  intros Hout Hp Hp' Hne.
  apply is_child_join in Hp as [y ->]. apply is_child_join in Hp' as [x ->].
  unfold file_step_fset. rewrite parent_join, name_join.
  intros [E|[E|[[_ E]|(c & [_ Hc] & E)]]].
  - done.
  - by apply join_ne in E.
  - rewrite parent_join in E. congruence.
  - apply join_inj in E as [-> ->]. done.
Qed.

(** The loop over files: when the real run gets through, the dry run counts
    what the real run counts, and the real run leaves the sweep what it would
    have read before. *)
Lemma file_loop_agree (cfg : Config) (now : Datetime) (watch : Path) (l : list Path) :
  destinations_apart cfg now watch → NoDup l → Forall (is_child watch) l →
  ∀ (n : nat) (w v : World) (r : nat) (w' : World),
    clock w = clock v →
    (∀ p, p ∈ l → fview (files w) p = fview (files v) p) →
    for_loop l (file_step cfg false now) n w = (Ok r, w') →
    ∃ v', for_loop l (file_step cfg true now) n v = (Ok r, v') ∧
          files v' = files v ∧ clock v' = clock v ∧ clock w' = clock w ∧
          sweep_agree cfg (build_unmanaged_exclude_paths cfg now watch) watch
            (files w') (files w).
Proof.
  intros Hapart Hnd Hch. induction l as [|p l IH]; intros n w v r w' Hclock Hview.
  - cbn. intros [= <- <-]. by exists v.
  - apply NoDup_cons in Hnd as [Hp Hnd]. apply Forall_cons in Hch as [Hpc Hch].
    cbn [for_loop]. intros Hreal. unfold bind in Hreal at 1.
    destruct (file_step cfg false now p n w) as [[n1|e] w1] eqn:Hstep; [|done].
    apply file_step_real_effect in Hstep. revert Hreal.
    unfold bind at 1.
    rewrite file_step_dry_run.
    assert (file_choice cfg (files v) (clock v) p = file_choice cfg (files w) (clock w) p)
      as ->.
    { rewrite <- Hclock. symmetry. apply file_choice_fview, Hview, list_elem_of_here. }
    destruct (file_choice cfg (files w) (clock w) p) as [rule|] eqn:Hchoice.
    + destruct (to_dir rule) as [td|] eqn:Htd; [|by destruct Hstep].
      destruct Hstep as (Hn & HL & HF & HD). rewrite (Hn n1 eq_refl).
      assert (rule ∈ rules cfg) as Hin.
      { unfold file_choice in Hchoice. destruct (candidate_fileb _ _ _ _ _ _); [|done].
        by apply match_rule_elem in Hchoice. }
      destruct (Hapart rule td Hin Htd) as [_ Hout].
      intros Hrest.
      destruct (IH Hnd Hch (S n) w1
                  (with_call (EvLog (LogDryFile p (expand_path td now)
                                       (build_target_name p rule now 0) (rule_name rule))) v)
                  r w') as (v' & Hdry & Hf & Hc & Hc' & Hsw).
      * cbn. rewrite <- Hclock. apply HL.
      * intros p' Hp'. cbn. rewrite <- (Hview p') by (by apply list_elem_of_further). apply HF.
        apply (sibling_outside watch); [done..| |].
        -- by eapply Forall_forall in Hch.
        -- intros ->. done.
      * done.
      * exists v'. split; [exact Hdry|]. split; [exact Hf|]. split; [exact Hc|].
        split; [by rewrite Hc'; apply HL|].
        eapply sweep_agree_trans; [exact Hsw|].
        by eapply file_step_keeps_sweep.
    + destruct Hstep as [[= ->] ->]. intros Hrest.
      apply (IH Hnd Hch n w v r w'); [done| |done].
      intros p' Hp'. by apply Hview, list_elem_of_further.
Qed.

End FileLoop.

(** ** The move of a directory *)

(** Renaming a tree moves what is below the source and may replace what is
    below the destination; every other entry stays. *)
Lemma lookup_move_tree (src dst q : Path) (fs : gmap Path Node) :
  ¬ src `prefix_of` q → ¬ dst `prefix_of` q → move_tree src dst fs !! q = fs !! q.
Proof.
  intros Hsrc Hdst. unfold move_tree.
  apply (map_fold_weak_ind (fun acc m => acc !! q = m !! q)); [done|].
  intros k n m acc Hk IH. unfold retarget. case_bool_decide as Hpre.
  - rewrite lookup_insert_ne.
    + rewrite lookup_insert_ne; [done|]. by intros ->.
    + intros <-. apply Hdst. by eexists.
  - destruct (decide (k = q)) as [->|Hne].
    + by rewrite !lookup_insert_eq.
    + by rewrite !lookup_insert_ne.
Qed.

Lemma lookup_renamed (src dst q : Path) (n : Node) (fs : gmap Path Node) :
  ¬ src `prefix_of` q → ¬ dst `prefix_of` q → renamed src dst n fs !! q = fs !! q.
Proof.
  intros Hsrc Hdst. destruct n as [m|t]; cbn.
  - rewrite lookup_insert_ne by (by intros ->).
    apply lookup_delete_ne. by intros ->.
  - by apply lookup_move_tree.
Qed.

(** What [os.rename] may change, whatever is renamed. *)
Lemma rename_entry_lframe (src rd : Path) (w : World) :
  lframe (fun q => src `prefix_of` q ∨ rd `prefix_of` q ∨ q = parent src ∨ q = parent rd)
    w (rename_entry src rd w).2.
Proof.
  unfold rename_entry. run_monad.
  destruct (files w !! src) as [n|]; [|done].
  destruct (bool_decide (src = rd)); [done|].
  destruct (files w !! parent rd) as [[m|t]|]; [done| |done].
  destruct (bool_decide (src `prefix_of` rd)); [done|].
  assert (lframe (fun q => src `prefix_of` q ∨ rd `prefix_of` q ∨ q = parent src ∨ q = parent rd)
            w (set_files (bump (clock w) (parent src)
                            (bump (clock w) (parent rd) (renamed src rd n (files w)))) w)) as HL.
  { split; [done|]. intros q Hq. cbn.
    rewrite !lookup_bump. rewrite !decide_False by (intros <-; apply Hq; auto).
    apply lookup_renamed; tauto. }
  destruct n as [m|t']; [exact HL|].
  destruct (files w !! rd); [done|exact HL].
Qed.

Lemma real_destination_result (src dst : Path) (w : World) (rd : Path) :
  (real_destination src dst w).1 = Ok rd → rd = dst ∨ rd = PathLib.join dst (PathLib.name src).
Proof.
  unfold real_destination, is_dir, path_exists. run_monad.
  destruct (match files w !! dst with Some (Dir _) => true | _ => false end);
    [|by intros [= <-]; left].
  destruct (bool_decide (src = dst)); [by intros [= <-]; left|].
  destruct (bool_decide (is_Some _)); [done|]. intros [= <-]. by right.
Qed.


Lemma shutil_move_lframe (root src dst : Path) (w : World) :
  is_child root dst →
  lframe (dir_step_lset root src) w (shutil_move src dst w).2.
Proof.
  intros [Hne Hpar]. unfold shutil_move, bind.
  pose proof (real_destination_world src dst w) as Hw.
  pose proof (real_destination_result src dst w) as Hrd.
  destruct (real_destination src dst w) as [[rd|e] w1]; cbn [fst snd] in *; subst w1; [|done].
  eapply lframe_weaken; [|apply rename_entry_lframe].
  assert (root `prefix_of` dst) as Hroot.
  { rewrite <- Hpar. unfold parent. exists [List.last dst EmptyString].
    by apply app_removelast_last. }
  intros q. unfold dir_step_lset.
  destruct (Hrd rd eq_refl) as [->| ->]; rewrite ?parent_join, ?Hpar.
  - intros [Hq|[Hq|[->| ->]]]; auto.
    right. left. by etrans.
  - intros [Hq|[Hq|[->| ->]]]; auto.
    right. left. etrans; [exact Hroot|]. etrans; [|exact Hq]. by eexists.
Qed.

Lemma move_dir_with_unique_lframe (d root : Path) (eu : bool) (w : World) :
  lframe (dir_step_lset root d) w (move_dir_with_unique d root eu w).2.
Proof.
  unfold move_dir_with_unique. unfold bind at 1.
  destruct (mkdir_parents_frames root w) as (HL1 & _ & _).
  assert (lframe (dir_step_lset root d) w (mkdir_parents root w).2) as HL.
  { eapply lframe_weaken; [|exact HL1]. intros q Hq. by left. }
  clear HL1.
  destruct (mkdir_parents root w) as [[[]|e] w1]; cbn [snd] in *; [|done].
  assert (∀ (mc : M Path),
            (∀ w0, (mc w0).2 = w0) → (∀ w0 c, (mc w0).1 = Ok c → is_child root c) →
            lframe (dir_step_lset root d) w
              ((c <- mc ; exec shutil_move d c ; ret c) w1).2) as Hgen.
  { intros mc Hworld Hchild. unfold bind at 1.
    specialize (Hworld w1). specialize (Hchild w1).
    destruct (mc w1) as [[c|e] w1']; cbn [fst snd] in *; subst w1'; [|done].
    pose proof (shutil_move_lframe root d c w1 (Hchild c eq_refl)) as HL2.
    unfold bind. destruct (shutil_move d c w1) as [[[]|e] w2]; cbn [snd] in *; by etrans. }
  destruct eu.
  - apply Hgen.
    + intros w0. unfold bind.
      pose proof (unique_candidate_world
                    (fun i => PathLib.join root (suffixed (PathLib.name d) EmptyString i))
                    (PathLib.join root (PathLib.name d)) w0) as Hw.
      by destruct (unique_candidate _ _ w0) as [[r0|e] w0'].
    + intros w0 c. unfold bind.
      pose proof (unique_candidate_result
                    (fun i => PathLib.join root (suffixed (PathLib.name d) EmptyString i))
                    (PathLib.join root (PathLib.name d)) w0) as Hr.
      destruct (unique_candidate _ _ w0) as [[r0|e] w0']; [|done].
      unfold ret. intros [= <-]. apply is_child_join.
      destruct (Hr r0 eq_refl) as [->|[j ->]]; eauto.
  - apply Hgen; [done|]. intros w0 c [= <-]. apply is_child_join. eauto.
Qed.

(** ** The loop over directories, dry and real *)

Lemma swept_cons (cfg : Config) (excl : gset Path) (fs : gmap Path Node) (time : Z)
    (d : Path) (l : list Path) :
  swept cfg excl fs time (d :: l)
  = if dir_skippedb cfg excl fs time d then swept cfg excl fs time l
    else d :: swept cfg excl fs time l.
Proof.
  unfold swept. rewrite filter_cons.
  destruct (dir_skippedb cfg excl fs time d); by case_decide.
Qed.

Lemma swept_agree (cfg : Config) (excl : gset Path) (fs fs' : gmap Path Node) (time : Z)
    (l : list Path) :
  (∀ d, d ∈ l → dir_skippedb cfg excl fs time d = dir_skippedb cfg excl fs' time d) →
  swept cfg excl fs time l = swept cfg excl fs' time l.
Proof.
  induction l as [|d l IH]; intros Hl; [done|].
  rewrite !swept_cons, <- (Hl d) by apply list_elem_of_here.
  rewrite IH; [done|]. intros d' Hd'. by apply Hl, list_elem_of_further.
Qed.

Lemma dir_skippedb_false (cfg : Config) (excl : gset Path) (fs : gmap Path Node) (time : Z)
    (d : Path) :
  dir_skippedb cfg excl fs time d = false →
  skip_by_excludes excl d = false ∧ is_Some (fs !! d).
Proof.
  unfold dir_skippedb, candidate_dirb. intros Hs.
  repeat (apply orb_false_iff in Hs as [Hs ?]). split; [done|].
  destruct (fs !! d); [by eexists|done].
Qed.

(** The dry loop counts the entries that the sweep would act upon, and
    changes nothing. *)
Lemma dir_loop_dry (cfg : Config) (excl : gset Path) (root : Path) (l : list Path)
    (n : nat) (v : World) :
  ∃ v', for_loop l (dir_step cfg true excl root) n v
        = (Ok (n + length (swept cfg excl (files v) (clock v) l))%nat, v') ∧
        files v' = files v ∧ clock v' = clock v.
Proof.
  revert n v. induction l as [|d l IH]; intros n v.
  - exists v. cbn. by rewrite Nat.add_0_r.
  - cbn [for_loop]. unfold bind at 1. rewrite dir_step_run, swept_cons.
    destruct (dir_skippedb cfg excl (files v) (clock v) d); [apply IH|].
    unfold bind at 1, emit at 1, ret at 1. cbn [fst snd].
    destruct (IH (S n) {| files := files v; clock := clock v;
                          calls := calls v ++ [EvLog (LogDryDir d root)] |})
      as (v' & -> & Hf & Hc).
    exists v'. cbn [length files clock] in *. split; [|done]. do 2 f_equal. lia.
Qed.

Section DirLoop.
Context `{Platform}.
Context (cfg : Config) (now : Datetime) (watch : Path).

Local Abbreviation excl := (build_unmanaged_exclude_paths cfg now watch).
Local Abbreviation root := (expand_path (unmanaged_target_template cfg) now).

(** The move of [d] leaves the sweep what it reads of another entry that
    the exclusion set does not cover. *)
Lemma dir_step_keeps_sweep (d d' : Path) (w w' : World) :
  is_child watch d → is_child watch d' → d' ≠ d →
  skip_by_excludes excl d' = false →
  lframe (dir_step_lset root d) w w' →
  sweep_view cfg (files w') d' = sweep_view cfg (files w) d'.
Proof.
  intros Hd Hd' Hne Hskip [_ HL].
  assert (¬ (d' `prefix_of` root ∨ root `prefix_of` d')) as Hfar.
  { intros Hnear. apply (excluded_near_target cfg now watch) in Hnear.
    congruence. }
  apply is_child_join in Hd as [y ->]. apply is_child_join in Hd' as [x ->].
  assert (¬ PathLib.join watch y `prefix_of` PathLib.join watch x) as Hsib.
  { intros Hp. apply prefix_join_inv in Hp as [E|Hp]; [by symmetry in E|].
    by apply join_not_prefix in Hp. }
  unfold sweep_view, dview. rewrite !HL; [done| |].
  - unfold dir_step_lset. rewrite parent_join.
    intros [Hq|[Hq|[Hq|E]]].
    + apply Hfar. left. etrans; [|exact Hq]. by eexists.
    + apply prefix_join_inv in Hq as [E|Hq]; apply Hfar; [|by right].
      left. rewrite E. by eexists.
    + apply prefix_join_inv in Hq as [E|Hq]; [|done].
      apply (f_equal length) in E. unfold PathLib.join in E.
      rewrite !length_app in E. simpl in E. lia.
    + by apply join_join_ne in E.
  - unfold dir_step_lset. rewrite parent_join.
    intros [Hq|[Hq|[Hq|E]]]; [tauto|tauto|done|by apply join_ne in E].
Qed.

(** The real loop, when it gets through, counts the entries that the sweep
    acts upon in the file system it starts with. *)
Lemma dir_loop_real (l : list Path) :
  NoDup l → Forall (is_child watch) l →
  ∀ (n : nat) (w : World) (r : nat) (w' : World),
    for_loop l (dir_step cfg false excl root) n w = (Ok r, w') →
    r = (n + length (swept cfg excl (files w) (clock w) l))%nat.
Proof.
  intros Hnd Hch. induction l as [|d l IH]; intros n w r w'.
  - cbn. intros [= <- <-]. by rewrite Nat.add_0_r.
  - apply NoDup_cons in Hnd as [Hd Hnd]. apply Forall_cons in Hch as [Hdc Hch].
    cbn [for_loop]. unfold bind at 1. rewrite dir_step_run, swept_cons.
    destruct (dir_skippedb cfg excl (files w) (clock w) d); [by apply IH|].
    unfold bind at 1.
    pose proof (move_dir_with_unique_lframe d root true w) as HL.
    destruct (move_dir_with_unique d root true w) as [[moved|e] w1]; cbn [snd] in HL; [|done].
    unfold bind at 1, emit at 1, ret at 1. cbn [fst snd].
    intros Hrest. apply (IH Hnd Hch) in Hrest. cbn [files clock length] in Hrest.
    rewrite Hrest. destruct HL as [Hclock HL'].
    rewrite Hclock.
    rewrite (swept_agree cfg excl (files w1) (files w)); [cbn [length]; lia|].
    intros d' Hd'.
    destruct (skip_by_excludes excl d') eqn:Hskip.
    + unfold dir_skippedb. rewrite Hskip. by rewrite !orb_true_r.
    + apply dir_skippedb_view.
      apply (dir_step_keeps_sweep d d' w w1); [done| | |done|by split].
      * by eapply Forall_forall in Hch.
      * intros ->. done.
Qed.

(** Two file systems that look the same to the sweep give the same
    entries to act upon, up to their order. *)
Lemma swept_Permutation (fs fs' : gmap Path Node) (time : Z) :
  sweep_agree cfg excl watch fs fs' →
  swept cfg excl fs time (sorted (entries fs watch))
  ≡ₚ swept cfg excl fs' time (sorted (entries fs' watch)).
Proof.
  intros Hagree.
  assert (∀ a b, sweep_agree cfg excl watch a b → ∀ d,
            d ∈ swept cfg excl a time (sorted (entries a watch)) →
            d ∈ swept cfg excl b time (sorted (entries b watch))) as Hincl.
  { intros a b Hab d. unfold swept. rewrite !list_elem_of_filter, !sorted_entries_elem.
    intros (Hs & Hc & _). destruct (dir_skippedb_false _ _ _ _ _ Hs) as [Hskip _].
    rewrite <- (dir_skippedb_view cfg excl a b time d (Hab d Hc Hskip)).
    split; [done|]. split; [done|].
    rewrite (dir_skippedb_view cfg excl a b time d (Hab d Hc Hskip)) in Hs.
    by apply dir_skippedb_false in Hs as [_ ?]. }
  apply NoDup_Permutation.
  - apply NoDup_filter, sorted_entries_NoDup.
  - apply NoDup_filter, sorted_entries_NoDup.
  - intros d. split; apply Hincl; [done|].
    intros d' Hd' Hs. symmetry. by apply Hagree.
Qed.

(** Part 2 of the pass: the dry run counts what the real run counts, when
    the real run gets through. *)
Lemma dir_phase_agree (n : nat) (w v : World) (r : nat) (w' : World) :
  clock w = clock v → is_Some (dview (files v) watch) →
  sweep_agree cfg excl watch (files w) (files v) →
  dir_phase cfg false now watch n w = (Ok r, w') →
  ∃ v', dir_phase cfg true now watch n v = (Ok r, v') ∧
        files v' = files v ∧ clock v' = clock v.
Proof.
  intros Hclock [t Hwatch] Hagree. unfold dir_phase.
  unfold bind at 1 2. rewrite !iterdir_run.
  unfold dview in Hwatch.
  destruct (files v !! watch) as [[m|t']|]; [done| |done].
  destruct (files w !! watch) as [[m|t'']|]; [done| |done].
  intros Hreal. apply dir_loop_real in Hreal.
  - destruct (dir_loop_dry cfg excl root (sorted (entries (files v) watch)) n
                (with_call (EvListdir watch (entries (files v) watch)) v))
      as (v' & Hdry & Hf & Hc).
    exists v'. split; [|done]. rewrite Hdry, Hreal. do 2 f_equal.
    cbn [files clock with_call]. rewrite Hclock. f_equal.
    apply Permutation_length. symmetry. by apply swept_Permutation.
  - apply sorted_entries_NoDup.
  - apply Forall_forall. intros d Hd. by apply sorted_entries_elem in Hd as [? _].
Qed.

End DirLoop.

Section DryRun.
Context `{Platform}.

(** A dry run leaves the file system and the clock as they are. *)
Lemma process_once_dry_same_files (cfg : Config) (now : Datetime) :
  respects same_files (process_once cfg true now).
Proof.
  assert (∀ e, respects same_files (emit e)) as Hemit by done.
  unfold process_once.
  apply respects_bind; [apply _|by apply respects_reader; try apply _|]. intros e.
  destruct e; cbn [negb].
  - apply respects_bind; [apply _| |].
    + unfold file_phase. apply respects_bind; [apply _| |].
      * intros w. rewrite iterdir_run. by destruct (files w !! _) as [[m|t]|].
      * intros l. apply respects_for_loop; [apply _..|]. intros p n w.
        rewrite file_step_dry_run.
        destruct (file_choice _ _ _ _) as [rule|]; [|done]. by destruct (to_dir rule).
    + intros n. destruct (collect_unmanaged_dirs cfg); [|apply respects_ret, _].
      unfold dir_phase. apply respects_bind; [apply _| |].
      * intros w. rewrite iterdir_run. by destruct (files w !! _) as [[m|t]|].
      * intros l. apply respects_for_loop; [apply _..|]. intros d k w.
        rewrite dir_step_run. by destruct (dir_skippedb _ _ _ _ _).
  - apply respects_bind; [apply _|apply Hemit|]. intros _. apply respects_ret, _.
Qed.

(** The calls of a dry run change nothing. *)
Lemma process_once_dry_calls (cfg : Config) (now : Datetime) :
  respects (adds_calls (fun e => is_mutation e = false)) (process_once cfg true now).
Proof.
  unfold process_once.
  apply respects_bind; [apply _|by apply respects_reader; try apply _|]. intros e.
  destruct e; cbn [negb].
  - apply respects_bind; [apply _| |].
    + unfold file_phase. apply respects_bind; [apply _|by apply iterdir_calls|].
      intros l. apply respects_for_loop; [apply _..|]. intros p n.
      by apply file_step_calls.
    + intros n. destruct (collect_unmanaged_dirs cfg); [|apply respects_ret, _].
      unfold dir_phase. apply respects_bind; [apply _|by apply iterdir_calls|].
      intros l. apply respects_for_loop; [apply _..|]. intros d k.
      by apply dir_step_calls.
  - apply respects_bind; [apply _|by apply emit_calls|]. intros _.
    apply respects_ret, _.
Qed.

(** The runs of the pass and of its first part, step by step. *)
Lemma process_once_run (cfg : Config) (dry : bool) (now : Datetime) (w : World) :
  let watch := expand_path (watch_dir cfg) now in
  process_once cfg dry now w =
  if bool_decide (is_Some (files w !! watch)) then
    (processed <- file_phase cfg dry now watch O ;
     if collect_unmanaged_dirs cfg then dir_phase cfg dry now watch processed
     else ret processed) w
  else (Ok O, with_call (EvLog (LogWatchMissing watch)) w).
Proof.
  intros watch. unfold process_once. fold watch. unfold bind at 1, path_exists.
  run_monad. by destruct (bool_decide (is_Some (files w !! watch))).
Qed.

Lemma file_phase_run (cfg : Config) (dry : bool) (now : Datetime) (watch : Path)
    (k : nat) (w : World) :
  file_phase cfg dry now watch k w =
  match files w !! watch with
  | Some (Dir _) =>
      for_loop (sorted (entries (files w) watch)) (file_step cfg dry now) k
        (with_call (EvListdir watch (entries (files w) watch)) w)
  | Some (File _) => (Raised NotADirectoryError, w)
  | None => (Raised FileNotFoundError, w)
  end.
Proof.
  unfold file_phase. unfold bind at 1. rewrite iterdir_run.
  by destruct (files w !! watch) as [[m|t]|].
Qed.

(** The count of the dry run is the count of the real run that gets
    through, when the destinations are apart from the watch directory. *)
Lemma process_once_dry_count (cfg : Config) (now : Datetime) (w : World) (n : nat)
    (w' : World) :
  destinations_apart cfg now (expand_path (watch_dir cfg) now) →
  process_once cfg false now w = (Ok n, w') →
  (process_once cfg true now w).1 = Ok n.
Proof.
  intros Hapart. rewrite !process_once_run.
  set (watch := expand_path (watch_dir cfg) now) in *.
  destruct (bool_decide (is_Some (files w !! watch))); [|by intros [= <- _]].
  unfold bind at 1 2. rewrite !file_phase_run.
  destruct (files w !! watch) as [[m|t]|] eqn:Hwatch; [done| |done].
  destruct (for_loop (sorted (entries (files w) watch)) (file_step cfg false now) 0%nat
              (with_call (EvListdir watch (entries (files w) watch)) w))
    as [[n1|e] w1] eqn:Hreal; [|done].
  apply (file_loop_agree cfg now watch)
    with (v := with_call (EvListdir watch (entries (files w) watch)) w)
    in Hreal as (v1 & -> & Hf & Hc & Hc' & Hsw); try done.
  - destruct (collect_unmanaged_dirs cfg); [|by intros [= <- _]].
    intros Hdir.
    apply (dir_phase_agree cfg now watch) with (v := v1) in Hdir as (v2 & -> & _); try done.
    + by rewrite Hc, Hc'.
    + rewrite Hf. cbn. unfold dview. rewrite Hwatch. by eexists.
    + by rewrite Hf.
  - apply sorted_entries_NoDup.
  - apply Forall_forall. intros d Hd. by apply sorted_entries_elem in Hd as [? _].
Qed.

(** C5 (amended).  A pass in dry-run mode changes nothing: the file system
    is left as it was, and no call of the run is a move, the making of a
    directory or the touching of a marker.  Its count is the count of the
    real run on the same snapshot whenever that run gets through without an
    exception, provided that the marker name is a single path segment,
    that the watch directory, the destinations and the archive root are
    written without [..], that every rule has a destination that is not
    empty and that no destination is the watch directory itself. *)
Theorem process_once_dry_run (cfg : Config) (now : Datetime) (w : World) :
  let watch := expand_path (watch_dir cfg) now in
  let dry := process_once cfg true now w in
  (files dry.2 = files w ∧
   ∃ delta, calls dry.2 = calls w ++ delta ∧ Forall (fun e => is_mutation e = false) delta) ∧
  (is_segment (marker_name cfg) = true →
   plain_paths cfg now →
   destinations_apart cfg now watch →
   ∀ n, (process_once cfg false now w).1 = Ok n → dry.1 = Ok n).
Proof.
  intros watch dry. split; [split|].
  - apply (process_once_dry_same_files cfg now w).
  - apply (process_once_dry_calls cfg now w).
  - intros _ _ Hapart n.
    destruct (process_once cfg false now w) as [r w'] eqn:Hreal. cbn [fst].
    intros ->. by eapply process_once_dry_count.
Qed.

End DryRun.

(** In the sample configuration both runs count the two files and the one
    folder. *)
Lemma process_once_dry_run_witness :
  let watch := @expand_path Sample.posix (watch_dir Sample.config) Sample.now in
  is_segment (marker_name Sample.config) = true ∧
  @plain_paths Sample.posix Sample.config Sample.now ∧
  @destinations_apart Sample.posix Sample.config Sample.now watch ∧
  (@process_once Sample.posix Sample.config false Sample.now Sample.world).1 = Ok 3%nat ∧
  (@process_once Sample.posix Sample.config true Sample.now Sample.world).1 = Ok 3%nat.
Proof.
  intros watch.
  assert (is_segment (marker_name Sample.config) = true) as Hmarker by reflexivity.
  assert (@plain_paths Sample.posix Sample.config Sample.now) as Hplain.
  { split; [vm_compute; reflexivity|]. split; [|vm_compute; reflexivity].
    repeat constructor. }
  assert (@destinations_apart Sample.posix Sample.config Sample.now watch) as Hapart.
  { intros rule td Hin Htd.
    apply elem_of_cons in Hin as [->|Hin];
      [|apply elem_of_cons in Hin as [->|Hin]; [|by apply elem_of_nil in Hin]];
      injection Htd as <-; (split; [discriminate|vm_compute; discriminate]). }
  split; [exact Hmarker|]. split; [exact Hplain|].
  split; [exact Hapart|]. split; [vm_compute; reflexivity|].
  destruct (@process_once_dry_run Sample.posix Sample.config Sample.now Sample.world)
    as [_ Hcount].
  apply (Hcount Hmarker Hplain Hapart). vm_compute. reflexivity.
Defined.

(** When a rule sorts into the watch directory itself, the real run renames
    the first file in place and touches the marker, which is then too young
    to be processed: the dry run counts 2, the real run 1. *)
Lemma process_once_dry_run_counts_more :
  (@process_once Sample.posix Sample.config_stay true Sample.now Sample.world_stay).1
  = Ok 2%nat ∧
  (@process_once Sample.posix Sample.config_stay false Sample.now Sample.world_stay).1
  = Ok 1%nat.
Proof. split; vm_compute; reflexivity. Qed.

(** When the destination of a rule is taken by a regular file, the dry run
    counts the file and the real run raises. *)
Lemma process_once_real_run_raises :
  (@process_once Sample.posix Sample.config_blocked true Sample.now Sample.world_blocked).1
  = Ok 1%nat ∧
  (@process_once Sample.posix Sample.config_blocked false Sample.now Sample.world_blocked).1
  = Raised FileExistsError.
Proof. split; vm_compute; reflexivity. Qed.

(** When a rule has an empty destination, the files go to the working
    directory, which the exclusion set does not cover: the folder they are
    moved into is marked and no longer collected. *)
Lemma process_once_empty_destination :
  (@process_once Sample.posix_sub Sample.config_sub true Sample.now Sample.world_sub).1
  = Ok 2%nat ∧
  (@process_once Sample.posix_sub Sample.config_sub false Sample.now Sample.world_sub).1
  = Ok 1%nat.
Proof. split; vm_compute; reflexivity. Qed.

(** ** More on rule matching *)

Section MatchingMore.
Context `{Platform}.

Lemma match_rule_loop_app (nm ext : string) (mime : option string) (a b : list Rule) :
  match_rule_loop nm ext mime (a ++ b)
  = match match_rule_loop nm ext mime a with
    | Some r => Some r
    | None => match_rule_loop nm ext mime b
    end.
Proof.
  induction a as [|r a IH]; [done|]. cbn [app match_rule_loop].
  by destruct (rule_hit nm ext mime r).
Qed.

Lemma match_rule_loop_hit (nm ext : string) (mime : option string) (rules : list Rule)
    (r : Rule) :
  match_rule_loop nm ext mime rules = Some r → rule_hit nm ext mime r = true.
Proof.
  induction rules as [|r' rules IH]; [done|]. cbn [match_rule_loop].
  destruct (rule_hit nm ext mime r') eqn:Hhit; [by intros [= <-]|done].
Qed.

(** X1.  A catch-all rule shadows the rules after it: every name is matched
    by the catch-all rule or by a rule before it, and the rules after it
    are never looked at. *)
Theorem match_rule_catch_all_shadows (nm : string) (before after : list Rule) (r : Rule) :
  match_all r = true →
  is_Some (match_rule nm (before ++ r :: after)) ∧
  match_rule nm (before ++ r :: after) = match_rule nm (before ++ [r]).
Proof.
  intros Hall. unfold match_rule. rewrite !match_rule_loop_app.
  destruct (match_rule_loop nm (ext_of nm) (guess_type nm) before) as [r'|]; [by eauto|].
  cbn [match_rule_loop].
  assert (rule_hit nm (ext_of nm) (guess_type nm) r = true) as ->; [|by eauto].
  apply rule_hit_matches. unfold rule_matches. auto.
Qed.

Lemma lstrip_no_lead (c : ascii) (s : string) :
  Str.startswith (Str.lstrip c s) (String c EmptyString) = false.
Proof.
  unfold Str.startswith. induction s as [|a s IH]; [done|].
  cbn [Str.lstrip]. destruct (Ascii.eqb a c) eqn:E; [done|].
  rewrite prefix_char. by rewrite Ascii.eqb_sym.
Qed.

(** X2.  The extension of a file is compared without its dot, the entries
    of [match_ext] as they are written: a rule whose only matchers are
    extensions written with a leading dot is returned for no file. *)
Theorem match_rule_dotted_ext_never (nm : string) (rules : list Rule) (r : Rule) :
  (∀ e, e ∈ match_ext r → Str.startswith (lower e) "." = true) →
  match_mime r = [] → match_glob r = [] → match_all r = false →
  match_rule nm rules ≠ Some r.
Proof.
  intros Hdot Hmime Hglob Hall Hm. apply match_rule_loop_hit in Hm.
  apply rule_hit_matches in Hm as [He|[(m & pref & _ & _ & Hin & _)|[(g & Hin & _)|Ha]]].
  - unfold ext_matches in He. apply list_elem_of_fmap in He as (e & He & Hin).
    specialize (Hdot e Hin). rewrite <- He in Hdot.
    unfold ext_of in Hdot. by rewrite lstrip_no_lead in Hdot.
  - rewrite Hmime in Hin. by apply elem_of_nil in Hin.
  - rewrite Hglob in Hin. by apply elem_of_nil in Hin.
  - congruence.
Qed.

End MatchingMore.

Lemma match_rule_catch_all_shadows_witness :
  match_all Sample.rule_rest = true ∧
  is_Some (@match_rule Sample.posix "notes.txt"
             ([Sample.rule_pdf] ++ Sample.rule_rest :: [Sample.rule_images])).
Proof.
  split; [reflexivity|].
  apply (@match_rule_catch_all_shadows Sample.posix "notes.txt"
           [Sample.rule_pdf] [Sample.rule_images] Sample.rule_rest). reflexivity.
Defined.

(** ** More on names *)

Lemma replace_char_map (b : ascii) (s : string) :
  Str.replace (String b EmptyString) "_" s
  = map_chars (fun c => if Ascii.eqb b c then "_"%char else c) s.
Proof.
  unfold Str.replace. induction s as [|a s IH]; [done|].
  cbn [Str.replace_from map_chars]. rewrite prefix_char.
  destruct (Ascii.eqb b a); cbn [String.length Nat.pred]; by rewrite IH.
Qed.

Lemma map_chars_compose (f g : ascii -> ascii) (s : string) :
  map_chars g (map_chars f s) = map_chars (fun c => g (f c)) s.
Proof. induction s as [|a s IH]; [done|]. cbn. by rewrite IH. Qed.

Lemma map_chars_ext (f g : ascii -> ascii) (s : string) :
  (∀ c, f c = g c) → map_chars f s = map_chars g s.
Proof. intros E. induction s as [|a s IH]; [done|]. cbn. by rewrite E, IH. Qed.

Lemma length_map_chars (f : ascii -> ascii) (s : string) :
  String.length (map_chars f s) = String.length s.
Proof. induction s as [|a s IH]; [done|]. cbn. by rewrite IH. Qed.

(** X3.  The nine replacements of the sanitizing loop amount to one pass
    over the name: each of the characters the loop names becomes an
    underscore and every other character stays where it is, so the length
    of the name is kept. *)
Theorem sanitize_one_pass (s : string) :
  sanitize s = map_chars clean_char s ∧
  String.length (sanitize s) = String.length s.
Proof.
  assert (sanitize s = map_chars clean_char s) as E.
  { unfold sanitize, bad_chars. cbn [foldl]. rewrite !replace_char_map.
    rewrite !map_chars_compose. apply map_chars_ext. intros c.
    unfold clean_char, bad_chars.
    destruct c as [[] [] [] [] [] [] [] []]; vm_compute; reflexivity. }
  split; [exact E|]. rewrite E. apply length_map_chars.
Qed.

Lemma occurs_brace (k s : string) :
  Str.contains "{" s = false → occurs (String "{" k) s = false.
Proof.
  induction s as [|a s IH]; [done|]. cbn [Str.contains occurs].
  intros Hc. apply orb_false_iff in Hc as [Ha Hs]. rewrite (IH Hs), orb_false_r.
  cbn [String.prefix]. destruct (ascii_dec "{" a) as [<-|Hne]; [done|done].
Qed.

Section TemplateMore.
Context `{Platform}.

(** X4.  Without a rename template (the key is absent or empty) a file
    keeps its stem, sanitized, and gets its extension in lower case, whatever
    the timestamp and the counter; this holds for a stem without an opening
    brace, the placeholders being expanded in the stem as well. *)
Theorem build_target_name_default (src : Path) (rule : Rule) (dt : Datetime) (counter : Z) :
  rename rule = None ∨ rename rule = Some EmptyString →
  Str.contains "{" (PathLib.stem_of (PathLib.name src)) = false →
  build_target_name src rule dt counter
  = sanitize (PathLib.stem_of (PathLib.name src)) +:+ ext_part (ext_of (PathLib.name src)).
Proof.
  intros Hren Hstem. unfold build_target_name. fold (ext_part (ext_of (PathLib.name src))).
  f_equal. f_equal.
  assert (rename_template rule = "{stem}") as ->.
  { unfold rename_template. destruct Hren as [E|E]; rewrite E; reflexivity. }
  set (stem := PathLib.stem_of (PathLib.name src)) in *.
  unfold replace_all, name_repl. fold stem. cbn [foldl fst snd].
  assert (Str.replace "{stem}" stem "{stem}" = stem) as ->.
  { unfold Str.replace. cbn. apply append_nil_r. }
  by do 4 (rewrite (replace_absent _ _ stem) by (by apply occurs_brace)).
Qed.

End TemplateMore.

Lemma build_target_name_default_witness :
  @build_target_name Sample.posix (Sample.downloads ++ ["Photo.JPG"]) Sample.rule_images
    Sample.now 0
  = "Photo.jpg".
Proof.
  rewrite (@build_target_name_default Sample.posix).
  - vm_compute. reflexivity.
  - left. reflexivity.
  - vm_compute. reflexivity.
Defined.

(** ** The marker of a managed directory *)

(** X5.  Marking never raises.  With a marker name that is a single path
    segment, it makes an existing directory a managed one, and it leaves
    the file system as it is when the directory is missing. *)
Theorem mark_managed_dir_round_trip (d : Path) (marker : string) (w : World) :
  let w' := (mark_managed_dir d marker w).2 in
  is_segment marker = true →
  (mark_managed_dir d marker w).1 = Ok tt ∧
  (is_Some (dview (files w) d) → (is_managed_dir d marker w').1 = Ok true) ∧
  (files w !! d = None → files w !! PathLib.join d marker = None → files w' = files w).
Proof.
  intros w' _. subst w'. unfold mark_managed_dir, catch. rewrite touch_run, parent_join.
  rewrite is_managed_dir_run. unfold dview. cbn zeta.
  destruct (files w !! PathLib.join d marker) as [n|] eqn:Hm.
  - cbn. split; [done|]. split; [|done]. intros _.
    rewrite lookup_insert_eq. by rewrite bool_decide_eq_true_2.
  - destruct (files w !! d) as [[m|t]|] eqn:Hd; cbn.
    + split; [done|]. split; [by intros [? ?]|done].
    + split; [done|]. split; [|done]. intros _.
      rewrite lookup_insert_eq. by rewrite bool_decide_eq_true_2.
    + split; [done|]. split; [by intros [? ?]|done].
Qed.

Lemma mark_managed_dir_round_trip_witness :
  let d := ["home"; "u"; "Sorted"] in
  is_segment ".dorg_managed" = true ∧
  is_Some (dview (files Sample.world) d) ∧
  (is_managed_dir d ".dorg_managed" (mark_managed_dir d ".dorg_managed" Sample.world).2).1
  = Ok true.
Proof.
  intros d.
  assert (is_segment ".dorg_managed" = true) as Hseg by reflexivity.
  assert (is_Some (dview (files Sample.world) d)) as Hd by (vm_compute; eauto).
  split; [exact Hseg|]. split; [exact Hd|].
  by apply (mark_managed_dir_round_trip d ".dorg_managed" Sample.world Hseg).
Defined.

(** ** Folders that the sweep leaves alone *)

Section SweepMore.
Context `{Platform}.

Lemma exclude_has_name (cfg : Config) (now : Datetime) (wd : Path) (nm : string) :
  nm ∈ unmanaged_dirs_exclude cfg →
  PathLib.join wd nm ∈ build_unmanaged_exclude_paths cfg now wd.
Proof.
  intros Hin. unfold build_unmanaged_exclude_paths.
  apply elem_of_union_l. apply foldl_union_elem.
  - intros acc r. cbv zeta. destruct (negb _); [done|].
    destruct (relative_to _ _) as [[|? ?]|]; cbv iota; try done.
    apply union_subseteq_l.
  - left. apply foldl_union_elem.
    + intros acc a. apply union_subseteq_l.
    + right. exists nm. split; [done|]. intros acc.
      apply elem_of_union_r. by apply elem_of_singleton.
Qed.

(** X6.  The sweep, dry or real, passes over a folder, whatever its age and
    its content, when the folder is the archive root, lies above it or
    below it, when it is named in [unmanaged_dirs_exclude] (by a name that
    is a single path segment), or when it is the folder of the watch
    directory through which the destination of a rule is reached. *)
Theorem dir_step_protected (cfg : Config) (dry : bool) (now : Datetime) (watch d : Path)
    (n : nat) (w : World) :
  let excl := build_unmanaged_exclude_paths cfg now watch in
  let root := expand_path (unmanaged_target_template cfg) now in
  d `prefix_of` root ∨ root `prefix_of` d
  ∨ (∃ nm, nm ∈ unmanaged_dirs_exclude cfg ∧ is_segment nm = true ∧ d = PathLib.join watch nm)
  ∨ (∃ rule td, rule ∈ rules cfg ∧ to_dir rule = Some td ∧ td ≠ EmptyString ∧
                is_child watch d ∧ d `prefix_of` expand_path td now) →
  dir_step cfg dry excl root d n w = (Ok n, w).
Proof.
  intros excl root Hd.
  assert (skip_by_excludes excl d = true) as Hskip.
  { destruct Hd as [Hd|[Hd|[(nm & Hin & _ & ->)|(rule & td & Hin & Htd & Hne & Hc & Hp)]]].
    - apply excluded_near_target. by left.
    - apply excluded_near_target. by right.
    - apply skip_by_excludes_spec. exists (PathLib.join watch nm).
      split; [by apply exclude_has_name|by left].
    - by eapply excluded_on_the_way. }
  rewrite dir_step_run. unfold dir_skippedb. rewrite Hskip. by rewrite !orb_true_r.
Qed.

End SweepMore.

(** The folder [misc] of the sample, old enough, not hidden and not marked,
    is collected by the sweep of the sample configuration, and passed over
    once it is named in [unmanaged_dirs_exclude]. *)
Lemma dir_step_protected_witness :
  let d := Sample.downloads ++ ["misc"] in
  let root := @expand_path Sample.posix (unmanaged_target_template Sample.config) Sample.now in
  (∃ nm, nm ∈ unmanaged_dirs_exclude Sample.config_keep ∧ is_segment nm = true ∧
         d = PathLib.join Sample.downloads nm) ∧
  files Sample.world !! d = Some (Dir 50) ∧
  (dir_step Sample.config false
     (@build_unmanaged_exclude_paths Sample.posix Sample.config Sample.now Sample.downloads)
     root d 0%nat Sample.world).1 = Ok 1%nat ∧
  dir_step Sample.config_keep false
    (@build_unmanaged_exclude_paths Sample.posix Sample.config_keep Sample.now Sample.downloads)
    root d 0%nat Sample.world
  = (Ok 0%nat, Sample.world).
Proof.
  intros d root.
  assert (∃ nm, nm ∈ unmanaged_dirs_exclude Sample.config_keep ∧ is_segment nm = true ∧
                d = PathLib.join Sample.downloads nm) as Hd.
  { exists "misc". split; [apply list_elem_of_here|]. split; reflexivity. }
  split; [exact Hd|]. split; [vm_compute; reflexivity|]. split; [vm_compute; reflexivity|].
  apply (@dir_step_protected Sample.posix Sample.config_keep false Sample.now Sample.downloads d).
  right. right. left. exact Hd.
Defined.

(** ** Edge cases of the pass *)

Section PassEdges.
Context `{Platform}.


(** X8.  A rule without [to_dir] stops the pass, dry or real, with
    [KeyError] at the first file for which it is the rule chosen; nothing
    is done for that file. *)
Theorem file_step_missing_to_dir (cfg : Config) (dry : bool) (now : Datetime) (p : Path)
    (n : nat) (w : World) (rule : Rule) :
  file_choice cfg (files w) (clock w) p = Some rule → to_dir rule = None →
  file_step cfg dry now p n w = (Raised KeyError, w).
Proof.
  intros Hchoice Hto. destruct dry.
  - by rewrite file_step_dry_run, Hchoice, Hto.
  - destruct (file_step cfg false now p n w) as [r w'] eqn:Hrun.
    apply file_step_real_effect in Hrun. rewrite Hchoice, Hto in Hrun.
    by destruct Hrun as [-> ->].
Qed.




End PassEdges.

(** ** What a pass may move *)

Lemma respects_for_loop_elem {A S} (T : World -> World -> Prop)
    `{!Reflexive T, !Transitive T} (l : list A) (body : A -> S -> M S) (s : S) :
  (∀ x s', x ∈ l → respects T (body x s')) → respects T (for_loop l body s).
Proof.
  revert s. induction l as [|x l IH]; intros s Hbody; cbn [for_loop].
  - by apply respects_ret.
  - apply respects_bind; [done| |].
    + apply Hbody, list_elem_of_here.
    + intros s'. apply IH. intros y s'' Hy. by apply Hbody, list_elem_of_further.
Qed.

Section Movable.
Context `{Platform}.

Lemma file_step_moves (cfg : Config) (dry : bool) (now : Datetime) (watch p : Path)
    (n : nat) :
  is_child watch p →
  respects (adds_calls (moves_movable cfg now watch)) (file_step cfg dry now p n).
Proof.
  intros Hc w. destruct (file_choice cfg (files w) (clock w) p) as [rule|] eqn:Hchoice.
  - apply file_step_calls; try done. intros _ q. cbn.
    split; [done|]. unfold file_choice, candidate_fileb in Hchoice.
    destruct (files w !! p) as [[m|t]|]; try done.
    destruct (bool_decide (PathLib.name p ∈ ignore_names cfg)) eqn:Hn; [done|].
    apply bool_decide_eq_false in Hn. split; [done|]. left.
    destruct (existsb _ (ignore_ext cfg)); [done|]. split; [done|].
    destruct (bool_decide _); [by eexists|done].
  - destruct dry.
    + rewrite file_step_dry_run, Hchoice. apply reflexivity.
    + destruct (file_step cfg false now p n w) as [r w'] eqn:Hrun.
      apply file_step_real_effect in Hrun. rewrite Hchoice in Hrun.
      destruct Hrun as [_ ->]. apply reflexivity.
Qed.

Lemma dir_step_moves (cfg : Config) (dry : bool) (now : Datetime) (watch d : Path)
    (n : nat) :
  collect_unmanaged_dirs cfg = true → is_child watch d →
  respects (adds_calls (moves_movable cfg now watch))
    (dir_step cfg dry (build_unmanaged_exclude_paths cfg now watch)
       (expand_path (unmanaged_target_template cfg) now) d n).
Proof.
  intros Hcollect Hc w.
  destruct (dir_skippedb cfg (build_unmanaged_exclude_paths cfg now watch)
              (files w) (clock w) d) eqn:Hskip.
  - rewrite dir_step_run, Hskip. apply reflexivity.
  - apply dir_step_calls; try done. intros _ q. cbn.
    unfold dir_skippedb in Hskip.
    repeat (apply orb_false_iff in Hskip as [Hskip ?]).
    split; [done|]. split; [by apply (bool_decide_eq_false_1 _)|]. right. done.
Qed.

Lemma iterdir_children (watch : Path) (w : World) (l : list Path) :
  (iterdir watch w).1 = Ok l → ∀ p, p ∈ sorted l → is_child watch p.
Proof.
  rewrite iterdir_run. destruct (files w !! watch) as [[m|t]|]; try done.
  intros [= <-] p Hp. by apply sorted_entries_elem in Hp as [? _].
Qed.

(** X10.  Every move that a pass makes, dry or real and whether it
    completes or raises, has for source an entry of the watch directory
    itself whose name is not in [ignore_names]; the source is named like a
    file to sort (no ignored suffix, a rule for its name) or like a folder
    to collect (collection switched on, no leading dot, not covered by the
    exclusion set). *)
Theorem process_once_moves_movable (cfg : Config) (dry : bool) (now : Datetime) (w : World) :
  let watch := expand_path (watch_dir cfg) now in
  ∃ delta, calls (process_once cfg dry now w).2 = calls w ++ delta ∧
           Forall (moves_movable cfg now watch) delta.
Proof.
  intros watch. revert w.
  change (respects (adds_calls (moves_movable cfg now watch)) (process_once cfg dry now)).
  unfold process_once. fold watch.
  apply respects_bind; [apply _|by apply respects_reader; try apply _|]. intros e.
  destruct e; cbn [negb].
  - apply respects_bind; [apply _| |].
    + unfold file_phase.
      apply (respects_bind_ok _ (fun l => ∀ p, p ∈ sorted l → is_child watch p)).
      * by apply iterdir_calls.
      * intros w l. apply iterdir_children.
      * intros l Hl. apply respects_for_loop_elem; [apply _..|].
        intros p n Hp. by apply file_step_moves, Hl.
    + intros n. destruct (collect_unmanaged_dirs cfg) eqn:Hcollect; [|apply respects_ret, _].
      unfold dir_phase.
      apply (respects_bind_ok _ (fun l => ∀ p, p ∈ sorted l → is_child watch p)).
      * by apply iterdir_calls.
      * intros w l. apply iterdir_children.
      * intros l Hl. apply respects_for_loop_elem; [apply _..|].
        intros d k Hd. by apply dir_step_moves, Hl.
  - apply respects_bind; [apply _|by apply emit_calls|]. intros _.
    apply respects_ret, _.
Qed.

End Movable.

(** ** The move of a folder with all that is in it *)

(** When nothing is below the destination, what was below the source is
    found below the destination. *)
Lemma lookup_move_tree_moved (src dst rest : Path) (fs : gmap Path Node) :
  (∀ k, is_Some (fs !! k) → ¬ dst `prefix_of` k) →
  move_tree src dst fs !! (dst ++ rest) = fs !! (src ++ rest).
Proof.
  unfold move_tree. revert rest.
  apply (map_fold_weak_ind (fun acc m =>
           ∀ rest, (∀ k, is_Some (m !! k) → ¬ dst `prefix_of` k) →
                   acc !! (dst ++ rest) = m !! (src ++ rest))); [done|].
  intros i x m acc Hi IH rest Hfree.
  assert (∀ k, is_Some (m !! k) → ¬ dst `prefix_of` k) as Hfree'.
  { intros k Hk. apply Hfree. destruct (decide (i = k)) as [->|Hne].
    - rewrite lookup_insert_eq. by eexists.
    - by rewrite lookup_insert_ne. }
  specialize (IH rest Hfree'). unfold retarget. case_bool_decide as Hpre.
  - destruct Hpre as [r ->]. rewrite drop_app_length.
    destruct (decide (r = rest)) as [->|Hne].
    + by rewrite !lookup_insert_eq.
    + rewrite !lookup_insert_ne; [done|by intros E%app_inv_head..].
  - rewrite !lookup_insert_ne; [done| |].
    + intros ->. apply Hpre. by eexists.
    + intros ->. apply (Hfree (dst ++ rest)); [|by eexists].
      rewrite lookup_insert_eq. by eexists.
Qed.

(** When neither path lies below the other, nothing is left below the
    source. *)
Lemma lookup_move_tree_gone (src dst rest : Path) (fs : gmap Path Node) :
  ¬ src `prefix_of` dst → ¬ dst `prefix_of` src →
  move_tree src dst fs !! (src ++ rest) = None.
Proof.
  intros Hsd Hds. unfold move_tree.
  apply (map_fold_weak_ind (fun acc m => acc !! (src ++ rest) = None)); [done|].
  intros i x m acc Hi IH. unfold retarget. case_bool_decide as Hpre.
  - rewrite lookup_insert_ne; [done|]. intros E.
    destruct (prefix_weak_total src dst (src ++ rest)) as [?|?]; try done.
    + by eexists.
    + rewrite <- E. by eexists.
  - rewrite lookup_insert_ne; [done|]. intros ->. apply Hpre. by eexists.
Qed.

Lemma probe_dir_child (root : Path) (nm : string) (i : nat) :
  ∃ x, probe_dir root nm i = PathLib.join root x.
Proof. destruct i; cbn; eauto. Qed.

(** The run of [move_dir_with_unique] with [ensure_unique] on a folder. *)
Lemma move_dir_with_unique_tree (src root : Path) (t : Z) (w : World) :
  tree_shaped (files w) →
  files w !! src = Some (Dir t) →
  ¬ src `prefix_of` root →
  (mkdir_parents root w).1 = Ok tt →
  ∃ i w',
    move_dir_with_unique src root true w = (Ok (probe_dir root (PathLib.name src) i), w') ∧
    files w !! probe_dir root (PathLib.name src) i = None ∧
    (∀ j, (j < i)%nat → is_Some (files w !! probe_dir root (PathLib.name src) j)) ∧
    (∀ rest, files w' !! (probe_dir root (PathLib.name src) i ++ rest)
             = files w !! (src ++ rest)) ∧
    (∀ rest, files w' !! (src ++ rest) = None) ∧
    (∀ q n, ¬ src `prefix_of` q → files w !! q = Some (File n) →
            files w' !! q = Some (File n)).
Proof.
  intros Htree Hsrc Hnroot Hmk.
  pose proof (mkdir_parents_effect root w) as (Hclock & Hfv & Hframe & Hdirs & Htree1).
  pose proof (mkdir_parents_ok root w Hmk) as [tr Hroot].
  specialize (Htree1 Htree).
  unfold move_dir_with_unique. unfold bind at 1.
  destruct (mkdir_parents root w) as [[[]|e] w1] eqn:Hrun; cbn [fst snd] in *; [|done].
  assert (files w1 !! src = Some (Dir t)) as Hsrc1 by (by rewrite Hframe).
  set (nm := PathLib.name src).
  set (next := fun i => PathLib.join root (suffixed nm EmptyString i)).
  assert (∀ a b, next a = next b → a = b) as Hinj.
  { intros a b E. apply join_inj in E as [_ E]. by apply suffixed_inj in E. }
  destruct (unique_candidate_run next (PathLib.join root nm) w1 Hinj)
    as (k & Huc & Hfree & Hfirst & Hmid).
  assert ((if decide (k = O) then PathLib.join root nm else next k) = probe_dir root nm k)
    as Hprobe by (by destruct k).
  rewrite Hprobe in Huc, Hfree.
  assert (∀ j, ¬ probe_dir root nm j `prefix_of` root) as Hnp.
  { intros j. destruct (probe_dir_child root nm j) as [x ->]. apply join_not_prefix. }
  remember (probe_dir root nm k) as c eqn:Hceq.
  destruct (probe_dir_child root nm k) as [x Hcx]. rewrite <- Hceq in Hcx.
  assert (parent c = root) as Hpar by (rewrite Hcx; apply parent_join).
  assert (∀ q, is_Some (files w1 !! q) → ¬ c `prefix_of` q) as Hbelow.
  { intros q [n Hq] Hp. destruct (decide (c = q)) as [->|Hne]; [congruence|].
    destruct (tree_ancestor_dir (files w1) q c n) as [t' Ht']; try done. congruence. }
  assert (¬ src `prefix_of` c) as Hsc.
  { rewrite Hcx. intros Hp. apply prefix_join_inv in Hp as [E|Hp]; [|done].
    rewrite <- Hcx in E. congruence. }
  assert (¬ c `prefix_of` src) as Hcs.
  { apply Hbelow. by eexists. }
  assert (src ≠ []) as Hsne.
  { intros ->. apply Hnroot. apply prefix_nil. }
  destruct (Htree1 src _ Hsrc1 Hsne) as [tp Hps].
  exists k. eexists. rewrite <- !Hceq. split.
  { unfold bind. fold nm. fold next. rewrite Huc. unfold ret. cbn [snd]. lazy beta iota.
    rewrite (shutil_move_fresh src c w1 Hfree), Hsrc1, Hpar, Hroot.
    rewrite bool_decide_eq_false_2 by done. reflexivity. }
  cbn [files renamed].
  split; [by rewrite <- Hframe by (rewrite Hceq; apply Hnp)|]. split.
  { intros j Hj. rewrite <- Hframe by apply Hnp.
    destruct j; [apply Hfirst; lia|]. apply Hmid. lia. }
  split; [|split].
  - intros rest. rewrite !lookup_bump.
    rewrite decide_False.
    + rewrite decide_False.
      * rewrite lookup_move_tree_moved by done. apply Hframe.
        intros Hp. apply Hnroot. etrans; [|exact Hp]. by eexists.
      * intros E. apply (Hnp k). rewrite <- Hceq. rewrite E. by eexists.
    + intros E. apply (Hbelow (parent src)); [by eexists|]. rewrite E. by eexists.
  - intros rest. rewrite !lookup_bump.
    rewrite lookup_move_tree_gone by done. by repeat case_decide.
  - intros q n Hq Hqn.
    assert (files w1 !! q = Some (File n)) as Hq1.
    { specialize (Hfv q). unfold fview in Hfv. rewrite Hqn in Hfv.
      by destruct (files w1 !! q) as [[m'|t']|]; simplify_eq. }
    rewrite !lookup_bump.
    rewrite decide_False by (intros E; congruence).
    rewrite decide_False by (intros E; congruence).
    rewrite lookup_move_tree; [done|done|]. apply Hbelow. by eexists.
Qed.

(** X11.  The move of a folder with [ensure_unique]: in a tree-shaped file
    system, for a folder that does not lie above the destination directory
    and a destination directory that can be made, the move succeeds; the
    path it returns is the first free one among [name], [name_1],
    [name_2], ... (the counter put after the whole name); all that was in
    the folder is found below that path, nothing is left at the old place,
    and every regular file outside the folder is left as it was. *)
Theorem move_dir_with_unique_moves_tree (src root : Path) (t : Z) (w : World) :
  tree_shaped (files w) →
  files w !! src = Some (Dir t) →
  ¬ src `prefix_of` root →
  (mkdir_parents root w).1 = Ok tt →
  ∃ i w',
    move_dir_with_unique src root true w = (Ok (probe_dir root (PathLib.name src) i), w') ∧
    files w !! probe_dir root (PathLib.name src) i = None ∧
    (∀ j, (j < i)%nat → is_Some (files w !! probe_dir root (PathLib.name src) j)) ∧
    (∀ rest, files w' !! (probe_dir root (PathLib.name src) i ++ rest)
             = files w !! (src ++ rest)) ∧
    (∀ rest, files w' !! (src ++ rest) = None) ∧
    (∀ q n, ¬ src `prefix_of` q → files w !! q = Some (File n) →
            files w' !! q = Some (File n)).
Proof. apply move_dir_with_unique_tree. Qed.

Lemma move_dir_with_unique_moves_tree_witness :
  let src := Sample.downloads ++ ["misc"] in
  let root := ["home"; "u"; "Folders"] in
  tree_shaped (files Sample.world) ∧
  files Sample.world !! src = Some (Dir 50) ∧
  ¬ src `prefix_of` root ∧
  (mkdir_parents root Sample.world).1 = Ok tt ∧
  ∃ i w',
    move_dir_with_unique src root true Sample.world
    = (Ok (probe_dir root (PathLib.name src) i), w') ∧
    files w' !! (probe_dir root (PathLib.name src) i ++ ["x"]) = Some (File 50).
Proof.
  intros src root.
  assert (tree_shaped (files Sample.world)) as Htree.
  { apply tree_shaped_check. apply (bool_decide_unpack _). vm_compute. exact I. }
  assert (files Sample.world !! src = Some (Dir 50)) as Hsrc by (vm_compute; reflexivity).
  assert (¬ src `prefix_of` root) as Hn.
  { apply (bool_decide_unpack _). vm_compute. exact I. }
  assert ((mkdir_parents root Sample.world).1 = Ok tt) as Hmk by (vm_compute; reflexivity).
  repeat (split; [assumption|]).
  destruct (move_dir_with_unique_moves_tree src root 50 Sample.world Htree Hsrc Hn Hmk)
    as (i & w' & Hrun & _ & _ & Hin & _).
  exists i, w'. split; [assumption|]. rewrite Hin. vm_compute. reflexivity.
Defined.

(** ** The move without [ensure_unique] *)

(** X12.  Without [ensure_unique] no free name is looked for: a regular
    file that has the target name in the destination directory is replaced
    by the file moved, and its content is lost. *)
Theorem move_with_unique_replaces (src dst_dir : Path) (target_name : string)
    (m m' : Z) (w : World) :
  tree_shaped (files w) →
  files w !! src = Some (File m) →
  (mkdir_parents dst_dir w).1 = Ok tt →
  files w !! PathLib.join dst_dir target_name = Some (File m') →
  src ≠ PathLib.join dst_dir target_name →
  ∃ w',
    move_with_unique src dst_dir target_name false w
    = (Ok (PathLib.join dst_dir target_name), w') ∧
    files w' !! PathLib.join dst_dir target_name = Some (File m) ∧
    files w' !! src = None.
Proof.
  intros Htree Hsrc Hmk Hdst Hne.
  pose proof (mkdir_parents_effect dst_dir w) as (Hclock & Hfv & Hframe & Hdirs & Htree1).
  pose proof (mkdir_parents_ok dst_dir w Hmk) as [t Hdir].
  specialize (Htree1 Htree).
  unfold move_with_unique. unfold bind at 1.
  destruct (mkdir_parents dst_dir w) as [[[]|e] w1] eqn:Hrun; cbn [fst snd] in *; [|done].
  set (c := PathLib.join dst_dir target_name) in *.
  assert (∀ q n, files w !! q = Some (File n) → files w1 !! q = Some (File n)) as Hkeep.
  { intros q n Hq. specialize (Hfv q). unfold fview in Hfv. rewrite Hq in Hfv.
    by destruct (files w1 !! q) as [[m0|t0]|]; simplify_eq. }
  pose proof (Hkeep _ _ Hsrc) as Hsrc1. pose proof (Hkeep _ _ Hdst) as Hdst1.
  assert (¬ src `prefix_of` c) as Hnpre.
  { intros Hp. destruct (tree_ancestor_dir (files w1) c src (File m')) as [t' Ht']; try done.
    congruence. }
  assert (src ≠ []) as Hsne.
  { intros ->. apply Hnpre, prefix_nil. }
  destruct (Htree1 src _ Hsrc1 Hsne) as [tp Hps].
  assert (parent c = dst_dir) as Hpar by apply parent_join.
  eexists. split.
  { unfold bind at 1, ret at 1. unfold bind at 1.
    unfold shutil_move, real_destination, rename_entry, is_dir, path_exists. run_monad.
    rewrite Hdst1, Hsrc1. rewrite bool_decide_eq_false_2 by done.
    rewrite Hpar, Hdir.
    rewrite bool_decide_eq_false_2 by done. reflexivity. }
  cbn [files set_files renamed]. rewrite !lookup_bump. split.
  - rewrite decide_False by (intros E; congruence).
    rewrite decide_False by (intros E; congruence).
    by rewrite lookup_insert_eq.
  - assert (<[c := File m]> (delete src (files w1)) !! src = None) as Hgone.
    { rewrite lookup_insert_ne by done. apply lookup_delete_eq. }
    repeat case_decide; by rewrite Hgone.
Qed.

Lemma move_with_unique_replaces_witness :
  let src := Sample.downloads ++ ["report.pdf"] in
  let dst := ["home"; "u"; "Sorted"] in
  tree_shaped (files Sample.world) ∧
  files Sample.world !! src = Some (File 50) ∧
  (mkdir_parents dst Sample.world).1 = Ok tt ∧
  files Sample.world !! PathLib.join dst "report.pdf" = Some (File 1) ∧
  src ≠ PathLib.join dst "report.pdf" ∧
  ∃ w', move_with_unique src dst "report.pdf" false Sample.world
        = (Ok (PathLib.join dst "report.pdf"), w') ∧
        files w' !! PathLib.join dst "report.pdf" = Some (File 50).
Proof.
  intros src dst.
  assert (tree_shaped (files Sample.world)) as Htree.
  { apply tree_shaped_check. apply (bool_decide_unpack _). vm_compute. exact I. }
  assert (files Sample.world !! src = Some (File 50)) as Hsrc by (vm_compute; reflexivity).
  assert ((mkdir_parents dst Sample.world).1 = Ok tt) as Hmk by (vm_compute; reflexivity).
  assert (files Sample.world !! PathLib.join dst "report.pdf" = Some (File 1)) as Hdst
    by (vm_compute; reflexivity).
  assert (src ≠ PathLib.join dst "report.pdf") as Hne by discriminate.
  repeat (split; [assumption|]).
  destruct (move_with_unique_replaces src dst "report.pdf" 50 1 Sample.world
              Htree Hsrc Hmk Hdst Hne) as (w' & Hrun & Hin & _).
  exists w'. split; assumption.
Defined.

(** ** The count of a pass and its log *)

Lemma reports_app (a b : list Event) : reports (a ++ b) = (reports a + reports b)%nat.
Proof. unfold reports. by rewrite filter_app, length_app. Qed.

Lemma reports_none (d : list Event) :
  Forall (fun e => is_report e = false) d → reports d = O.
Proof.
  unfold reports. induction 1 as [|e d He _ IH]; [done|].
  rewrite filter_cons. case_decide; [congruence|done].
Qed.

Lemma counted_refl (w : World) : counted 0 w w.
Proof. exists []. by rewrite app_nil_r. Qed.

Lemma counted_trans (a b : nat) (w1 w2 w3 : World) :
  counted a w1 w2 → counted b w2 w3 → counted (a + b) w1 w3.
Proof.
  intros (d1 & E1 & R1) (d2 & E2 & R2). exists (d1 ++ d2).
  rewrite E2, E1, app_assoc, reports_app. by subst.
Qed.

Lemma counted_quiet (w w' : World) :
  adds_calls (fun e => is_report e = false) w w' → counted 0 w w'.
Proof. intros (d & E & Hd). exists d. split; [done|]. by apply reports_none. Qed.

Lemma counted_call (e : Event) (w : World) :
  counted (if is_report e then 1 else 0) w (with_call e w).
Proof.
  exists [e]. split; [done|]. unfold reports. rewrite filter_cons.
  destruct (is_report e); case_decide; done.
Qed.

(** A loop whose rounds add what they report to the count. *)
Lemma for_loop_counted {A} (body : A -> nat -> M nat) (l : list A) :
  (∀ x n w n' w', body x n w = (Ok n', w') → ∃ k, n' = (n + k)%nat ∧ counted k w w') →
  ∀ n w n' w', for_loop l body n w = (Ok n', w') →
               ∃ k, n' = (n + k)%nat ∧ counted k w w'.
Proof.
  intros Hbody. induction l as [|x l IH]; intros n w n' w'; cbn [for_loop].
  - intros [= <- <-]. exists O. split; [lia|apply counted_refl].
  - unfold bind. destruct (body x n w) as [[n1|e] w1] eqn:Hx; [|done].
    intros Hrest. destruct (Hbody _ _ _ _ _ Hx) as (k1 & -> & Hc1).
    destruct (IH _ _ _ _ Hrest) as (k2 & -> & Hc2).
    exists (k1 + k2)%nat. split; [lia|by eapply counted_trans].
Qed.

Section Counting.
Context `{Platform}.

Lemma file_step_counted (cfg : Config) (dry : bool) (now : Datetime) (p : Path)
    (n : nat) (w : World) (n' : nat) (w' : World) :
  file_step cfg dry now p n w = (Ok n', w') →
  ∃ k, n' = (n + k)%nat ∧ counted k w w'.
Proof.
  destruct dry.
  - rewrite file_step_dry_run.
    destruct (file_choice cfg (files w) (clock w) p) as [rule|].
    + destruct (to_dir rule) as [td|]; [|done]. intros [= <- <-].
      exists 1%nat. split; [lia|]. apply (counted_call (EvLog (LogDryFile _ _ _ _))).
    + intros [= <- <-]. exists O. split; [lia|apply counted_refl].
  - unfold file_step. unfold bind at 1. rewrite is_candidate_file_run.
    destruct (candidate_fileb _ _ _ _ _ _); cbn [negb];
      [|intros [= <- <-]; exists O; split; [lia|apply counted_refl]].
    destruct (match_rule _ _) as [rule|];
      [|intros [= <- <-]; exists O; split; [lia|apply counted_refl]].
    destruct (to_dir rule) as [td|]; [|done].
    unfold bind at 1, ret at 1. unfold bind at 1.
    pose proof (move_with_unique_calls (fun e => is_report e = false) p (expand_path td now)
                  (build_target_name p rule now 0) (ensure_unique rule)
                  (fun _ => eq_refl) (fun _ => eq_refl) w) as Hmove.
    destruct (move_with_unique p _ _ _ w) as [[target|e] w2]; cbn [snd] in Hmove; [|done].
    unfold bind at 1.
    pose proof (mark_managed_dir_calls (fun e => is_report e = false) (expand_path td now)
                  (default ".dorg_managed" (managed_marker cfg)) (fun _ => eq_refl) w2)
      as Hmark.
    destruct (mark_managed_dir _ _ w2) as [[[]|e] w3]; cbn [snd] in Hmark; [|done].
    unfold bind, emit, ret. intros [= <- <-].
    exists 1%nat. split; [lia|].
    apply (counted_trans 0 1 w w3); [apply counted_quiet; by etrans|].
    apply (counted_call (EvLog (LogMovedFile p target (rule_name rule)))).
Qed.

Lemma dir_step_counted (cfg : Config) (dry : bool) (excl : gset Path) (root d : Path)
    (n : nat) (w : World) (n' : nat) (w' : World) :
  dir_step cfg dry excl root d n w = (Ok n', w') →
  ∃ k, n' = (n + k)%nat ∧ counted k w w'.
Proof.
  rewrite dir_step_run.
  destruct (dir_skippedb cfg excl (files w) (clock w) d);
    [intros [= <- <-]; exists O; split; [lia|apply counted_refl]|].
  destruct dry.
  - unfold bind, emit, ret. intros [= <- <-]. exists 1%nat. split; [lia|].
    apply (counted_call (EvLog (LogDryDir d root))).
  - unfold bind at 1.
    pose proof (move_dir_with_unique_calls (fun e => is_report e = false) d root true
                  (fun _ => eq_refl) (fun _ => eq_refl) w) as Hmove.
    destruct (move_dir_with_unique d root true w) as [[moved|e] w2]; cbn [snd] in Hmove;
      [|done].
    unfold bind, emit, ret. intros [= <- <-]. exists 1%nat. split; [lia|].
    apply (counted_trans 0 1 w w2); [by apply counted_quiet|].
    apply (counted_call (EvLog (LogMovedDir d moved))).
Qed.

(** X13.  The count that a pass returns, dry or real, is the number of
    items it has logged: one line for every file and every folder counted
    ([DRY] lines in a dry run, lines of moves in a real run), and no such
    line for anything else. *)
Theorem process_once_count_is_logged (cfg : Config) (dry : bool) (now : Datetime)
    (w : World) (n : nat) (w' : World) :
  process_once cfg dry now w = (Ok n, w') →
  ∃ delta, calls w' = calls w ++ delta ∧ reports delta = n.
Proof.
  rewrite process_once_run.
  set (watch := expand_path (watch_dir cfg) now).
  destruct (bool_decide (is_Some (files w !! watch))).
  2: { intros [= <- <-]. apply (counted_call (EvLog (LogWatchMissing watch))). }
  unfold bind at 1. rewrite file_phase_run.
  destruct (files w !! watch) as [[m|t]|]; [done| |done].
  destruct (for_loop _ _ _ _) as [[n1|e] w1] eqn:Hfiles; [|done].
  apply (for_loop_counted (file_step cfg dry now)) in Hfiles as (k1 & -> & Hc1);
    [|apply file_step_counted].
  assert (counted k1 w w1) as Hc1'.
  { apply (counted_trans 0 k1 w (with_call (EvListdir watch (entries (files w) watch)) w) w1);
      [|done].
    apply (counted_call (EvListdir watch (entries (files w) watch))). }
  destruct (collect_unmanaged_dirs cfg); [|by intros [= <- <-]].
  unfold dir_phase. unfold bind at 1. rewrite iterdir_run.
  destruct (files w1 !! watch) as [[m|t']|]; [done| |done].
  intros Hdirs.
  apply (for_loop_counted (dir_step cfg dry _ _)) in Hdirs as (k2 & -> & Hc2);
    [|intros *; apply dir_step_counted].
  change (counted (0 + k1 + k2) w w').
  eapply counted_trans; [exact Hc1'|].
  apply (counted_trans 0 k2 w1 (with_call (EvListdir watch (entries (files w1) watch)) w1) w');
    [|done].
  apply (counted_call (EvListdir watch (entries (files w1) watch))).
Qed.

End Counting.

Lemma process_once_count_is_logged_witness :
  ∃ w', @process_once Sample.posix Sample.config false Sample.now Sample.world
        = (Ok 3%nat, w') ∧
        ∃ delta, calls w' = calls Sample.world ++ delta ∧ reports delta = 3%nat.
Proof.
  exists (@process_once Sample.posix Sample.config false Sample.now Sample.world).2.
  assert (@process_once Sample.posix Sample.config false Sample.now Sample.world
          = (Ok 3%nat,
             (@process_once Sample.posix Sample.config false Sample.now Sample.world).2))
    as Hrun.
  { destruct (@process_once Sample.posix Sample.config false Sample.now Sample.world)
      as [r w'] eqn:E.
    assert (r = Ok 3%nat) as ->; [|done].
    change r with (r, w').1. rewrite <- E. vm_compute. reflexivity. }
  split; [exact Hrun|].
  exact (@process_once_count_is_logged Sample.posix Sample.config false Sample.now
           Sample.world 3%nat _ Hrun).
Defined.

(** ** What a completed pass leaves behind *)








Lemma siblings_prefix (watch d p : Path) :
  is_child watch d → is_child watch p → d `prefix_of` p → p = d.
Proof.
  intros [x ->]%is_child_join [y ->]%is_child_join Hp.
  apply prefix_join_inv in Hp as [E|Hp]; [done|]. by apply join_not_prefix in Hp.
Qed.

Section Leaves.
Context `{Platform}.
Context (cfg : Config) (now : Datetime) (watch : Path).
Context (Hout : ∀ rule td, rule ∈ rules cfg → to_dir rule = Some td →
                           expand_path td now ≠ watch).

Lemma file_choice_elem (fs : gmap Path Node) (time : Z) (p : Path) (rule : Rule) :
  file_choice cfg fs time p = Some rule → rule ∈ rules cfg.
Proof.
  unfold file_choice. destruct (candidate_fileb _ _ _ _ _ _); [|done].
  apply match_rule_elem.
Qed.




End Leaves.

Section LeavesFolders.
Context `{Platform}.
Context (cfg : Config) (now : Datetime) (watch : Path).

Local Abbreviation excl := (build_unmanaged_exclude_paths cfg now watch).
Local Abbreviation root := (expand_path (unmanaged_target_template cfg) now).


End LeavesFolders.

Section LeavesPass.
Context `{Platform}.


End LeavesPass.

(** A folder that has been renamed is no longer at its old place. *)
Lemma rename_entry_dir_gone (src rd : Path) (t : Z) (w w' : World) :
  files w !! src = Some (Dir t) → src ≠ rd → ¬ rd `prefix_of` src →
  rename_entry src rd w = (Ok tt, w') → files w' !! src = None.
Proof.
  intros Hsrc Hne Hrs. unfold rename_entry. run_monad. rewrite Hsrc.
  rewrite bool_decide_eq_false_2 by done.
  destruct (files w !! parent rd) as [[m'|t0]|]; [done| |done].
  destruct (bool_decide (src `prefix_of` rd)) eqn:Hpre; [done|].
  apply bool_decide_eq_false in Hpre.
  destruct (files w !! rd); [done|].
  intros [= <-]. cbn [files set_files renamed]. rewrite !lookup_bump.
  pose proof (lookup_move_tree_gone src rd [] (files w) Hpre Hrs) as Hg.
  rewrite app_nil_r in Hg. rewrite Hg. by repeat case_decide.
Qed.

Lemma move_dir_with_unique_gone (d root : Path) (eu : bool) (t : Z) (w : World)
    (c : Path) (w' : World) :
  files w !! d = Some (Dir t) → ¬ root `prefix_of` d → ¬ d `prefix_of` root →
  move_dir_with_unique d root eu w = (Ok c, w') → files w' !! d = None.
Proof.
  intros Hd Hrd Hdr. unfold move_dir_with_unique. unfold bind at 1.
  destruct (mkdir_parents_frames root w) as ([_ HL1] & _ & _).
  destruct (mkdir_parents root w) as [[[]|e] w1]; cbn [snd] in *; [|done].
  assert (files w1 !! d = Some (Dir t)) as Hd1 by (by rewrite HL1).
  assert (∀ (mc : M Path),
            (∀ w0, (mc w0).2 = w0) → (∀ w0 c0, (mc w0).1 = Ok c0 → is_child root c0) →
            (c0 <- mc ; exec shutil_move d c0 ; ret c0) w1 = (Ok c, w') →
            files w' !! d = None) as Hgen.
  { intros mc Hworld Hchild. unfold bind at 1.
    specialize (Hworld w1). specialize (Hchild w1).
    destruct (mc w1) as [[c0|e] w1']; cbn [fst snd] in *; subst w1'; [|done].
    destruct (proj1 (is_child_join root c0) (Hchild c0 eq_refl)) as [x ->].
    unfold bind at 1. unfold shutil_move, bind at 1.
    pose proof (real_destination_world d (PathLib.join root x) w1) as Hw.
    pose proof (real_destination_result d (PathLib.join root x) w1) as Hres.
    destruct (real_destination d (PathLib.join root x) w1) as [[rd|e] w2];
      cbn [fst snd] in *; subst w2; [|done].
    assert (root `prefix_of` rd) as Hroot.
    { destruct (Hres rd eq_refl) as [->| ->]; [by eexists|].
      etrans; [|by eexists]. by eexists. }
    destruct (rename_entry d rd w1) as [[[]|e] w2] eqn:Hren; [|done].
    unfold ret. intros [= _ <-].
    apply (rename_entry_dir_gone _ _ t) in Hren; [done|done| |].
    - intros ->. by apply Hrd.
    - intros Hp. apply Hrd. by etrans. }
  destruct eu.
  - apply Hgen.
    + intros w0. unfold bind.
      pose proof (unique_candidate_world
                    (fun i => PathLib.join root (suffixed (PathLib.name d) EmptyString i))
                    (PathLib.join root (PathLib.name d)) w0) as Hw.
      by destruct (unique_candidate _ _ w0) as [[r0|e] w0'].
    + intros w0 c0. unfold bind.
      pose proof (unique_candidate_result
                    (fun i => PathLib.join root (suffixed (PathLib.name d) EmptyString i))
                    (PathLib.join root (PathLib.name d)) w0) as Hr.
      destruct (unique_candidate _ _ w0) as [[r0|e] w0']; [|done].
      unfold ret. intros [= <-]. apply is_child_join.
      destruct (Hr r0 eq_refl) as [->|[j ->]]; eauto.
  - apply Hgen; [done|]. intros w0 c0 [= <-]. apply is_child_join. eauto.
Qed.

Section SweptGone.
Context `{Platform}.
Context (cfg : Config) (now : Datetime) (watch : Path).

Local Abbreviation excl := (build_unmanaged_exclude_paths cfg now watch).
Local Abbreviation root := (expand_path (unmanaged_target_template cfg) now).

Lemma dir_step_lframe (d : Path) (n : nat) (w : World) :
  lframe (dir_step_lset root d) w (dir_step cfg false excl root d n w).2.
Proof.
  rewrite dir_step_run.
  destruct (dir_skippedb cfg excl (files w) (clock w) d); [done|].
  unfold bind at 1.
  pose proof (move_dir_with_unique_lframe d root true w) as HL.
  by destruct (move_dir_with_unique d root true w) as [[moved|e] w1].
Qed.

Lemma not_skipped_far (d : Path) :
  skip_by_excludes excl d = false → ¬ root `prefix_of` d ∧ ¬ d `prefix_of` root.
Proof.
  intros Hskip. split; intros Hp.
  - rewrite (excluded_near_target cfg now watch d) in Hskip; [done|by right].
  - rewrite (excluded_near_target cfg now watch d) in Hskip; [done|by left].
Qed.

(** The folder that a round of the real loop has collected is gone. *)
Lemma dir_step_real_gone (d : Path) (n : nat) (w : World) (n' : nat) (w' : World) :
  dir_skippedb cfg excl (files w) (clock w) d = false →
  dir_step cfg false excl root d n w = (Ok n', w') → files w' !! d = None.
Proof.
  intros Hskip. rewrite dir_step_run, Hskip.
  pose proof (dir_skippedb_false _ _ _ _ _ Hskip) as [Hex _].
  apply not_skipped_far in Hex as [Hrd Hdr].
  unfold dir_skippedb, candidate_dirb in Hskip.
  destruct (files w !! d) as [[m|t]|] eqn:Hd; try done.
  unfold bind at 1.
  destruct (move_dir_with_unique d root true w) as [[moved|e] w1] eqn:Hmove; [|done].
  apply (move_dir_with_unique_gone _ _ _ t) in Hmove; [|done..].
  unfold bind, emit, ret. by intros [= _ <-].
Qed.

(** The rounds for other entries leave alone an entry that the exclusion
    set does not cover. *)
Lemma dir_loop_keeps (q : Path) (l : list Path) :
  is_child watch q → skip_by_excludes excl q = false →
  Forall (is_child watch) l → q ∉ l →
  ∀ (n : nat) (w : World) (r : Outcome nat) (w' : World),
    for_loop l (dir_step cfg false excl root) n w = (r, w') →
    files w' !! q = files w !! q.
Proof.
  intros Hq Hskip Hch Hnot. apply not_skipped_far in Hskip as [Hrq Hqr].
  induction l as [|d l IH]; intros n w r w'; cbn [for_loop].
  - by intros [= _ <-].
  - apply Forall_cons in Hch as [Hd Hch]. apply not_elem_of_cons in Hnot as [Hqd Hnot].
    unfold bind. destruct (dir_step_lframe d n w) as [_ HL].
    assert (files (dir_step cfg false excl root d n w).2 !! q = files w !! q) as Hone.
    { apply HL. unfold dir_step_lset. intros [?|[?|[Hp|E]]]; try done.
      - apply Hqd. by eapply siblings_prefix.
      - destruct Hd as [_ Hd]. rewrite Hd in E. subst q.
        apply is_child_join in Hq as [s Hs]. symmetry in Hs. by apply join_ne in Hs. }
    destruct (dir_step cfg false excl root d n w) as [[n1|e] w1]; cbn [snd] in Hone.
    + intros Hrest. rewrite <- Hone. by eapply IH.
    + by intros [= _ <-].
Qed.

(** After the loop over folders has got through, no entry that it has
    collected is left in the watch directory. *)
Lemma dir_loop_leaves (l : list Path) :
  NoDup l → Forall (is_child watch) l →
  ∀ (n : nat) (w : World) (n' : nat) (w' : World),
    for_loop l (dir_step cfg false excl root) n w = (Ok n', w') →
    ∀ d, d ∈ swept cfg excl (files w) (clock w) l → files w' !! d = None.
Proof.
  intros Hnd Hch. induction l as [|d0 l IH]; intros n w n' w'; cbn [for_loop].
  - intros _ d Hd. by apply elem_of_nil in Hd.
  - apply NoDup_cons in Hnd as [Hd0 Hnd]. apply Forall_cons in Hch as [Hc0 Hch].
    unfold bind.
    pose proof (dir_step_lframe d0 n w) as HL.
    destruct (dir_step cfg false excl root d0 n w) as [[n1|e] w1] eqn:Hstep; [|done].
    cbn [snd] in HL.
    intros Hrest d Hd. unfold swept in Hd. apply list_elem_of_filter in Hd as [Hskip Hd].
    pose proof (dir_skippedb_false _ _ _ _ _ Hskip) as [Hex _].
    apply elem_of_cons in Hd as [->|Hd].
    + rewrite (dir_loop_keeps d0 l Hc0 Hex Hch Hd0 _ _ _ _ Hrest).
      by eapply dir_step_real_gone.
    + apply (IH Hnd Hch _ _ _ _ Hrest). unfold swept. apply list_elem_of_filter.
      split; [|done]. rewrite <- Hskip. destruct HL as [-> HL'].
      apply dir_skippedb_view.
      apply (dir_step_keeps_sweep cfg now watch d0 d w w1); [done| | |done|].
      * by eapply Forall_forall in Hch.
      * by intros ->.
      * split; [|done]. by destruct (dir_step_lframe d0 n w) as [Hc _]; rewrite Hstep in Hc.
Qed.

End SweptGone.

(** ** The sweep over the folders *)



Section SweepMoves.
Context `{Platform}.


End SweepMoves.

Section SweepTheorem.
Context `{Platform}.


End SweepTheorem.



Section SweptPass.
Context `{Platform}.

(** X15.  A real pass that completes has collected the folders it set out
    to collect.  The configuration is well formed: the marker and the
    excluded names are single path segments, and the watch directory, the
    destinations and the archive root are written without [..].  When the
    collection is switched on, every rule has a destination that is not
    empty and none has the watch directory itself for destination, none of
    the entries that the sweep would not have skipped when the pass began
    is left in the watch directory when it ends.  The watch directory is
    taken to be there. *)
Theorem process_once_clears_swept (cfg : Config) (now : Datetime) (w : World)
    (n : nat) (w' : World) :
  let watch := expand_path (watch_dir cfg) now in
  let excl := build_unmanaged_exclude_paths cfg now watch in
  plain_names cfg →
  plain_paths cfg now →
  destinations_apart cfg now watch →
  collect_unmanaged_dirs cfg = true →
  is_Some (files w !! watch) →
  process_once cfg false now w = (Ok n, w') →
  ∀ d, d ∈ swept cfg excl (files w) (clock w) (sorted (entries (files w) watch)) →
       files w' !! d = None.
Proof.
  intros watch excl _ _ Hapart Hcollect Hex. rewrite process_once_run. fold watch.
  rewrite bool_decide_eq_true_2 by done. clear Hex. rewrite Hcollect.
  unfold bind at 1. rewrite file_phase_run.
  destruct (files w !! watch) as [[m|t]|]; [done| |done].
  destruct (for_loop _ _ _ _) as [[n1|e] w1] eqn:Hfiles; [|done].
  apply (file_loop_agree cfg now watch)
    with (v := with_call (EvListdir watch (entries (files w) watch)) w)
    in Hfiles as (v1 & _ & _ & _ & Hclock & Hagree); try done.
  2: apply sorted_entries_NoDup.
  2: { apply Forall_forall. intros d Hd. by apply sorted_entries_elem in Hd as [? _]. }
  cbn [files clock with_call] in Hclock, Hagree.
  unfold dir_phase. unfold bind at 1. rewrite iterdir_run.
  destruct (files w1 !! watch) as [[m|t']|]; [done| |done].
  intros Hdirs d Hd.
  eapply (dir_loop_leaves cfg now watch); [| |exact Hdirs|].
  - apply sorted_entries_NoDup.
  - apply Forall_forall. intros d' Hd'. by apply sorted_entries_elem in Hd' as [? _].
  - cbn [files clock with_call]. unfold swept in *.
    apply list_elem_of_filter in Hd as [Hskip Hd].
    apply sorted_entries_elem in Hd as [Hc Hsome].
    pose proof (dir_skippedb_false _ _ _ _ _ Hskip) as [Hexc _].
    assert (dir_skippedb cfg excl (files w1) (clock w1) d = false) as Hskip1.
    { rewrite Hclock, <- Hskip. apply dir_skippedb_view. by apply Hagree. }
    apply list_elem_of_filter. split; [done|].
    apply sorted_entries_elem. split; [done|].
    by apply dir_skippedb_false in Hskip1 as [_ ?].
Qed.

End SweptPass.

(** ** The marker left by the loop over files *)

Lemma rename_entry_file_keeps_dir (src rd q : Path) (m t : Z) (w : World) :
  files w !! src = Some (File m) → files w !! q = Some (Dir t) → q ≠ rd →
  is_Some (dview (files (rename_entry src rd w).2) q).
Proof.
  intros Hsrc Hq Hne.
  assert (is_Some (dview (files w) q)) as Hsame by (unfold dview; rewrite Hq; eauto).
  destruct (rename_entry_file_cases src rd m w Hsrc) as [->|(t0 & _ & _ & ->)]; [done|].
  cbn [snd files with_call set_files].
  assert (<[rd := File m]> (delete src (files w)) !! q = Some (Dir t)) as Hin.
  { rewrite lookup_insert_ne by done. rewrite lookup_delete_ne; [done|]. congruence. }
  destruct (bump_dir (clock w) (parent rd) q _ t Hin) as [t1 H1].
  destruct (bump_dir (clock w) (parent src) q _ t1 H1) as [t2 H2].
  unfold dview. rewrite H2. eauto.
Qed.

Lemma move_with_unique_dest_dir (p out : Path) (nm : string) (eu : bool) (m : Z)
    (w : World) (target : Path) (w' : World) :
  files w !! p = Some (File m) →
  move_with_unique p out nm eu w = (Ok target, w') →
  is_Some (dview (files w') out).
Proof.
  intros Hp. unfold move_with_unique. unfold bind at 1.
  destruct (mkdir_parents_frames out w) as (_ & HF1 & _).
  pose proof (mkdir_parents_ok out w) as Hok.
  destruct (mkdir_parents out w) as [[[]|e] w1]; cbn [fst snd] in *; [|done].
  destruct (Hok eq_refl) as [t Hout]. clear Hok.
  assert (files w1 !! p = Some (File m)) as Hp1.
  { destruct HF1 as [_ HF1]. specialize (HF1 p (fun x => x)). unfold fview in HF1.
    rewrite Hp in HF1. by destruct (files w1 !! p) as [[m'|t']|]; simplify_eq. }
  assert (∀ (mc : M Path),
            (∀ w0, (mc w0).2 = w0) → (∀ w0 c, (mc w0).1 = Ok c → is_child out c) →
            (c <- mc ; exec shutil_move p c ; ret c) w1 = (Ok target, w') →
            is_Some (dview (files w') out)) as Hgen.
  { intros mc Hworld Hchild. unfold bind at 1.
    specialize (Hworld w1). specialize (Hchild w1).
    destruct (mc w1) as [[c|e] w1']; cbn [fst snd] in *; subst w1'; [|done].
    destruct (proj1 (is_child_join out c) (Hchild c eq_refl)) as [x ->].
    unfold bind at 1. unfold shutil_move, bind at 1.
    pose proof (real_destination_world p (PathLib.join out x) w1) as Hw.
    pose proof (real_destination_result p (PathLib.join out x) w1) as Hres.
    destruct (real_destination p (PathLib.join out x) w1) as [[rd|e] w2];
      cbn [fst snd] in *; subst w2; [|done].
    pose proof (rename_entry_file_keeps_dir p rd out m t w1 Hp1 Hout) as Hkeep.
    destruct (rename_entry p rd w1) as [[[]|e] w2]; [|done].
    unfold ret. intros [= _ <-]. apply Hkeep.
    destruct (Hres rd eq_refl) as [->| ->]; intros E; symmetry in E.
    - by apply join_ne in E.
    - by apply join_join_ne in E. }
  rewrite name_join. destruct eu.
  - destruct (PathLib.splitext nm) as [stem ext]. apply Hgen.
    + intros w0. unfold bind.
      pose proof (unique_candidate_world
                    (fun i => PathLib.join out (suffixed stem ext i))
                    (PathLib.join out nm) w0) as Hw.
      by destruct (unique_candidate _ _ w0) as [[r0|e] w0'].
    + intros w0 c. unfold bind.
      pose proof (unique_candidate_result
                    (fun i => PathLib.join out (suffixed stem ext i))
                    (PathLib.join out nm) w0) as Hr.
      destruct (unique_candidate _ _ w0) as [[r0|e] w0']; [|done].
      unfold ret. intros [= <-]. apply is_child_join.
      destruct (Hr r0 eq_refl) as [->|[j ->]]; eauto.
  - apply Hgen; [done|]. intros w0 c [= <-]. apply is_child_join. eauto.
Qed.

Lemma mark_managed_dir_marks (d : Path) (marker : string) (w : World) :
  is_Some (dview (files w) d) →
  is_Some (files (mark_managed_dir d marker w).2 !! PathLib.join d marker).
Proof.
  unfold mark_managed_dir, catch, dview. rewrite touch_run, parent_join.
  destruct (files w !! PathLib.join d marker) as [n|] eqn:Hm.
  - intros _. cbn. rewrite lookup_insert_eq. eauto.
  - destruct (files w !! d) as [[m|t]|]; intros [? ?]; try done.
    cbn. rewrite lookup_insert_eq. eauto.
Qed.

Section Marks.
Context `{Platform}.

(** X16.  With a marker name that is a single path segment, the file that
    a real pass processes is counted once, and the directory it has been
    moved to carries the marker afterwards: [is_managed_dir] answers true
    for the destination of the rule. *)
Theorem file_step_marks_destination (cfg : Config) (now : Datetime) (p : Path) (n : nat)
    (w : World) (n' : nat) (w' : World) (rule : Rule) (td : string) :
  is_segment (marker_name cfg) = true →
  file_choice cfg (files w) (clock w) p = Some rule → to_dir rule = Some td →
  file_step cfg false now p n w = (Ok n', w') →
  n' = S n ∧ (is_managed_dir (expand_path td now) (marker_name cfg) w').1 = Ok true.
Proof.
  intros _ Hchoice Htd.
  pose proof (file_choice_file cfg (files w) (clock w) p rule Hchoice) as [m Hp].
  unfold file_step, file_choice in *. fold (min_age cfg) in *. fold (marker_name cfg).
  unfold bind at 1. rewrite is_candidate_file_run.
  destruct (candidate_fileb _ _ _ _ _ _); [|done]. cbn [negb]. rewrite Hchoice, Htd.
  unfold bind at 1, ret at 1. unfold bind at 1.
  set (out := expand_path td now).
  destruct (move_with_unique p out (build_target_name p rule now 0) (ensure_unique rule) w)
    as [[target|e] w2] eqn:Hmove; [|done].
  apply (move_with_unique_dest_dir _ _ _ _ m) in Hmove; [|done].
  unfold bind at 1.
  pose proof (mark_managed_dir_marks out (marker_name cfg) w2 Hmove) as Hmark.
  destruct (mark_managed_dir out (marker_name cfg) w2) as [[[]|e] w3]; cbn [snd] in *; [|done].
  unfold bind, emit, ret. intros [= <- <-]. split; [done|].
  rewrite is_managed_dir_run. cbn [fst files]. by rewrite bool_decide_eq_true_2.
Qed.

End Marks.

Lemma file_step_marks_destination_witness :
  let p := Sample.downloads ++ ["a.PNG"] in
  let r := @file_step Sample.posix Sample.config false Sample.now p 0%nat Sample.world in
  is_segment (marker_name Sample.config) = true ∧
  r.1 = Ok 1%nat ∧
  (is_managed_dir (Sample.downloads ++ ["Images"]) ".dorg_managed" r.2).1 = Ok true.
Proof.
  intros p r.
  assert (r = (Ok 1%nat, r.2)) as Hrun.
  { destruct r as [o w'] eqn:E. assert (o = Ok 1%nat) as ->; [|done].
    change o with (o, w').1. rewrite <- E. vm_compute. reflexivity. }
  split; [reflexivity|]. split; [by rewrite Hrun|].
  destruct (@file_step_marks_destination Sample.posix Sample.config Sample.now p 0%nat
              Sample.world 1%nat r.2 Sample.rule_images "~/Downloads/Images")
    as [_ Hmarked].
  - reflexivity.
  - vm_compute. reflexivity.
  - reflexivity.
  - exact Hrun.
  - exact Hmarked.
Defined.



(** ** The cleaning of the configuration text *)

Lemma prefix_two (a b c : ascii) (s : string) :
  String.prefix (String a (String b EmptyString)) (String c s)
  = Ascii.eqb a c && String.prefix (String b EmptyString) s.
Proof.
  cbn [String.prefix].
  destruct (ascii_dec a c) as [E|E], (Ascii.eqb_spec a c) as [E'|E']; try congruence; done.
Qed.

Lemma prefix_one_nil (b : ascii) : String.prefix (String b EmptyString) EmptyString = false.
Proof. done. Qed.

(** The first character that the removal of line comments lets through. *)
Lemma sub_line_comments_head_inside (x : ascii) (s : string) :
  Ascii.eqb x "010" = false →
  String.prefix (String x EmptyString) (sub_line_comments true s) = false.
Proof.
  intros Hx. induction s as [|c s IH]; [done|]. cbn [sub_line_comments].
  destruct (Ascii.eqb_spec c "010") as [->|Hc]; [|done]. by rewrite prefix_char.
Qed.

Lemma sub_line_comments_head (x : ascii) (s : string) :
  Ascii.eqb x "010" = false →
  String.prefix (String x EmptyString) (sub_line_comments false s) = true →
  String.prefix (String x EmptyString) s = true.
Proof.
  intros Hx. destruct s as [|c s]; [done|]. cbn [sub_line_comments].
  destruct (String.prefix "//" (String c s)).
  - by rewrite sub_line_comments_head_inside.
  - by rewrite !prefix_char.
Qed.

Lemma sub_line_comments_clean (inside : bool) (s : string) :
  occurs "//" (sub_line_comments inside s) = false.
Proof.
  revert inside. induction s as [|c s IH]; intros inside; [by destruct inside|].
  cbn [sub_line_comments]. destruct inside.
  - destruct (Ascii.eqb_spec c "010") as [->|Hc]; [|done].
    cbn [occurs]. by rewrite IH.
  - destruct (String.prefix "//" (String c s)) eqn:Hpre; [done|].
    cbn [occurs]. rewrite IH, orb_false_r.
    rewrite prefix_two. rewrite prefix_two in Hpre.
    destruct (Ascii.eqb "/" c); [|done]. cbn [andb] in *.
    destruct (String.prefix "/" (sub_line_comments false s)) eqn:Hhead; [|done].
    apply sub_line_comments_head in Hhead; [|done]. congruence.
Qed.

Lemma sub_line_comments_no_block (inside : bool) (s : string) :
  occurs "/*" s = false → occurs "/*" (sub_line_comments inside s) = false.
Proof.
  revert inside. induction s as [|c s IH]; intros inside; [by destruct inside|].
  cbn [occurs]. intros Hocc. apply orb_false_iff in Hocc as [Hpre Hocc].
  cbn [sub_line_comments]. destruct inside.
  - destruct (Ascii.eqb_spec c "010") as [->|Hc]; [|by apply IH].
    cbn [occurs]. rewrite (IH false Hocc), orb_false_r.
    by rewrite prefix_two.
  - destruct (String.prefix "//" (String c s)); [by apply IH|].
    cbn [occurs]. rewrite (IH false Hocc), orb_false_r.
    rewrite prefix_two. rewrite prefix_two in Hpre.
    destruct (Ascii.eqb "/" c); [|done]. cbn [andb] in *.
    destruct (String.prefix "*" (sub_line_comments false s)) eqn:Hhead; [|done].
    apply sub_line_comments_head in Hhead; [|done]. congruence.
Qed.

Lemma sub_block_comments_none (s : string) :
  occurs "/*" s = false → sub_block_comments O s = s.
Proof.
  induction s as [|c s IH]; [done|]. cbn [occurs]. intros Hocc.
  apply orb_false_iff in Hocc as [Hpre Hocc].
  cbn [sub_block_comments]. rewrite Hpre. by rewrite IH.
Qed.

(** The bracket that ends a trailing comma is the first character let
    through. *)
Lemma sub_trailing_commas_bracket (s : string) (k : nat) (b : ascii) :
  String.get k s = Some b → is_close b = true →
  ∃ out, sub_trailing_commas k s = String b out.
Proof.
  revert k. induction s as [|c s IH]; intros k; [by destruct k|].
  destruct k as [|k]; cbn [String.get sub_trailing_commas].
  - intros [= ->] Hb.
    assert (Ascii.eqb b "," = false) as ->; [|by eauto].
    unfold is_close in Hb.
    destruct (Ascii.eqb_spec b "}") as [->|?]; [done|].
    destruct (Ascii.eqb_spec b "]") as [->|?]; [done|done].
  - apply IH.
Qed.

Lemma sub_trailing_commas_head (s : string) :
  String.prefix "/" (sub_trailing_commas O s) = true → String.prefix "/" s = true.
Proof.
  destruct s as [|c s]; [done|]. cbn [sub_trailing_commas].
  destruct (Ascii.eqb c "," && _) eqn:Hm; [|by rewrite !prefix_char].
  apply andb_true_iff in Hm as [_ Hm].
  destruct (String.get (span_space s) s) as [b|] eqn:Hget; [|done]. cbn in Hm.
  destruct (sub_trailing_commas_bracket s _ b Hget Hm) as [out ->].
  rewrite prefix_char. unfold is_close in Hm.
  destruct (Ascii.eqb_spec b "}") as [->|?]; [done|].
  destruct (Ascii.eqb_spec b "]") as [->|?]; [done|done].
Qed.

Lemma sub_trailing_commas_clean (s : string) (k : nat) :
  occurs "//" s = false → occurs "//" (sub_trailing_commas k s) = false.
Proof.
  revert k. induction s as [|c s IH]; intros k; [by destruct k|].
  cbn [occurs]. intros Hocc. apply orb_false_iff in Hocc as [Hpre Hocc].
  cbn [sub_trailing_commas]. destruct k as [|k]; [|by apply IH].
  destruct (Ascii.eqb c "," && _); [by apply IH|].
  cbn [occurs]. rewrite (IH O Hocc), orb_false_r.
  rewrite prefix_two. rewrite prefix_two in Hpre.
  destruct (Ascii.eqb "/" c); [|done]. cbn [andb] in *.
  destruct (String.prefix "/" (sub_trailing_commas O s)) eqn:Hhead; [|done].
  apply sub_trailing_commas_head in Hhead. congruence.
Qed.

(** X17.  A double slash starts a comment wherever it stands, inside a
    string value as well: in a text without the opening of a block comment,
    nothing that follows a double slash on its line is kept, so that the
    cleaned text holds no double slash at all. *)
Theorem load_config_text_no_double_slash (text : string) :
  occurs "/*" text = false → occurs "//" (_load_config_text text) = false.
Proof.
  intros Hblock. unfold _load_config_text.
  rewrite sub_block_comments_none by (by apply sub_line_comments_no_block).
  apply sub_trailing_commas_clean, sub_line_comments_clean.
Qed.

Lemma load_config_text_no_double_slash_witness :
  occurs "/*" "{url: http://host/path, }" = false ∧
  occurs "//" (_load_config_text "{url: http://host/path, }") = false.
Proof.
  assert (occurs "/*" "{url: http://host/path, }" = false) as Hblock by reflexivity.
  split; [exact Hblock|]. by apply load_config_text_no_double_slash.
Defined.

(** The characters of a text, in their order. *)
Lemma sub_line_comments_sublist (inside : bool) (s : string) :
  sublist (String.list_ascii_of_string (sub_line_comments inside s))
          (String.list_ascii_of_string s).
Proof.
  revert inside. induction s as [|c s IH]; intros inside; [by destruct inside|].
  cbn [sub_line_comments String.list_ascii_of_string]. destruct inside.
  - destruct (Ascii.eqb c "010"); [by apply sublist_skip|by apply sublist_cons].
  - destruct (String.prefix "//" (String c s)); [by apply sublist_cons|by apply sublist_skip].
Qed.

Lemma sub_block_comments_sublist (skip : nat) (s : string) :
  sublist (String.list_ascii_of_string (sub_block_comments skip s))
          (String.list_ascii_of_string s).
Proof.
  revert skip. induction s as [|c s IH]; intros skip; [by destruct skip|].
  cbn [sub_block_comments String.list_ascii_of_string]. destruct skip as [|k].
  - destruct (String.prefix "/*" (String c s)); [|by apply sublist_skip].
    destruct (find_close (tail s)); [by apply sublist_cons|by apply sublist_skip].
  - by apply sublist_cons.
Qed.

Lemma sub_trailing_commas_sublist (skip : nat) (s : string) :
  sublist (String.list_ascii_of_string (sub_trailing_commas skip s))
          (String.list_ascii_of_string s).
Proof.
  revert skip. induction s as [|c s IH]; intros skip; [by destruct skip|].
  cbn [sub_trailing_commas String.list_ascii_of_string]. destruct skip as [|k].
  - destruct (Ascii.eqb c "," && _); [by apply sublist_cons|by apply sublist_skip].
  - by apply sublist_cons.
Qed.

(** X18.  The cleaning only deletes: the characters of the cleaned text
    are characters of the text read, in the same order; nothing is added
    and nothing is moved. *)
Theorem load_config_text_only_deletes (text : string) :
  sublist (String.list_ascii_of_string (_load_config_text text))
          (String.list_ascii_of_string text).
Proof.
  unfold _load_config_text.
  etrans; [apply sub_trailing_commas_sublist|].
  etrans; [apply sub_block_comments_sublist|].
  apply sub_line_comments_sublist.
Qed.

(** ** Moves that fail *)

(** A renaming that raises has changed nothing. *)
Lemma rename_entry_raised (src rd : Path) (w : World) (e : Exn) :
  (rename_entry src rd w).1 = Raised e → (rename_entry src rd w).2 = w.
Proof.
  unfold rename_entry. run_monad.
  destruct (files w !! src) as [n|]; [|done].
  destruct (bool_decide (src = rd)); [done|].
  destruct (files w !! parent rd) as [[m|t]|]; [done| |done].
  destruct (bool_decide (src `prefix_of` rd)); [done|].
  destruct n as [m|t']; [done|]. by destruct (files w !! rd).
Qed.

Lemma shutil_move_raised (src dst : Path) (w : World) (e : Exn) :
  (shutil_move src dst w).1 = Raised e → (shutil_move src dst w).2 = w.
Proof.
  unfold shutil_move, bind.
  pose proof (real_destination_world src dst w) as Hw.
  destruct (real_destination src dst w) as [[rd|e'] w1]; cbn [fst snd] in *; subst w1; [|done].
  pose proof (rename_entry_raised src rd w) as Hr.
  destruct (rename_entry src rd w) as [[[]|e'] w1]; cbn [fst snd] in *; [done|].
  intros _. by apply (Hr e').
Qed.

(** After the making of the destination directory, a move that raises has
    changed nothing more. *)
Lemma move_tail_raised (src : Path) (mc : M Path) (w1 : World) (e : Exn) (w' : World) :
  (∀ w0, (mc w0).2 = w0) →
  (c <- mc ; exec shutil_move src c ; ret c) w1 = (Raised e, w') → w' = w1.
Proof.
  intros Hworld. unfold bind at 1. specialize (Hworld w1).
  destruct (mc w1) as [[c|e0] w2]; cbn [snd] in *; subst w2; [|by intros [= _ <-]].
  unfold bind. pose proof (shutil_move_raised src c w1) as Hr.
  destruct (shutil_move src c w1) as [[[]|e1] w2]; cbn [fst snd] in *; [done|].
  intros [= _ <-]. by apply (Hr e1).
Qed.

(** X19.  A move that raises moves nothing.  When [move_with_unique] or
    [move_dir_with_unique] raises, whatever the reason, every entry that is
    not on the way to the destination directory is as it was, and so is
    every regular file: at most directories on the way to the destination
    have been made. *)
Theorem failed_move_moves_nothing (src dst_dir : Path) (target_name : string)
    (ensure_unique : bool) (w : World) :
  (∀ e w', move_with_unique src dst_dir target_name ensure_unique w = (Raised e, w') →
           (∀ q, ¬ q `prefix_of` dst_dir → files w' !! q = files w !! q) ∧
           (∀ q, fview (files w') q = fview (files w) q)) ∧
  (∀ e w', move_dir_with_unique src dst_dir ensure_unique w = (Raised e, w') →
           (∀ q, ¬ q `prefix_of` dst_dir → files w' !! q = files w !! q) ∧
           (∀ q, fview (files w') q = fview (files w) q)).
Proof.
  destruct (mkdir_parents_frames dst_dir w) as ([_ HL] & [_ HF] & _).
  assert (∀ w1, w1 = (mkdir_parents dst_dir w).2 →
            (∀ q, ¬ q `prefix_of` dst_dir → files w1 !! q = files w !! q) ∧
            (∀ q, fview (files w1) q = fview (files w) q)) as Hmk.
  { intros w1 ->. split; [exact HL|]. intros q. apply HF. by intros ?. }
  split; intros e w'.
  - unfold move_with_unique. unfold bind at 1.
    destruct (mkdir_parents dst_dir w) as [[[]|e0] w1]; cbn [snd] in *;
      [|intros [= _ <-]; by apply Hmk].
    intros Hrun. apply move_tail_raised in Hrun; [subst w'; by apply Hmk|].
    intros w0. destruct ensure_unique; [|done].
    destruct (PathLib.splitext _) as [stem ext]. unfold bind.
    pose proof (unique_candidate_world
                  (fun i => PathLib.join dst_dir (suffixed stem ext i))
                  (PathLib.join dst_dir target_name) w0) as Hw.
    by destruct (unique_candidate _ _ w0) as [[r0|e1] w0'].
  - unfold move_dir_with_unique. unfold bind at 1.
    destruct (mkdir_parents dst_dir w) as [[[]|e0] w1]; cbn [snd] in *;
      [|intros [= _ <-]; by apply Hmk].
    intros Hrun. apply move_tail_raised in Hrun; [subst w'; by apply Hmk|].
    intros w0. destruct ensure_unique; [|done]. unfold bind.
    pose proof (unique_candidate_world
                  (fun i => PathLib.join dst_dir (suffixed (PathLib.name src) EmptyString i))
                  (PathLib.join dst_dir (PathLib.name src)) w0) as Hw.
    by destruct (unique_candidate _ _ w0) as [[r0|e1] w0'].
Qed.

Lemma failed_move_moves_nothing_witness :
  let src := Sample.downloads ++ ["report.pdf"] in
  let dst := ["home"; "u"; "Sorted"; "report.pdf"; "sub"] in
  let r := move_with_unique src dst "report.pdf" true Sample.world in
  r.1 = Raised NotADirectoryError ∧ files r.2 !! src = Some (File 50).
Proof.
  intros src dst r.
  assert (r = (Raised NotADirectoryError, r.2)) as Hrun.
  { destruct r as [o w'] eqn:E. assert (o = Raised NotADirectoryError) as ->; [|done].
    change o with (o, w').1. rewrite <- E. vm_compute. reflexivity. }
  split; [by rewrite Hrun|].
  destruct (failed_move_moves_nothing src dst "report.pdf" true Sample.world) as [Hfile _].
  destruct (Hfile _ _ Hrun) as [Hkeep _].
  rewrite Hkeep; [vm_compute; reflexivity|].
  apply (bool_decide_unpack _). vm_compute. exact I.
Defined.

(** ** Where a pass works *)

Lemma lframe_same (S : Path -> Prop) (w w' : World) :
  files w' = files w → clock w' = clock w → lframe S w w'.
Proof. intros Hf Hc. split; [done|]. intros q _. by rewrite Hf. Qed.

Section Footprint.
Context `{Platform}.
Context (cfg : Config) (now : Datetime).

Local Abbreviation watch := (expand_path (watch_dir cfg) now).
Local Abbreviation excl := (build_unmanaged_exclude_paths cfg now watch).
Local Abbreviation root := (expand_path (unmanaged_target_template cfg) now).

Lemma file_step_footprint (dry : bool) (p : Path) (n : nat) :
  is_child watch p → respects (lframe (pass_footprint cfg now)) (file_step cfg dry now p n).
Proof.
  intros Hp w. destruct dry.
  - rewrite file_step_dry_run.
    destruct (file_choice cfg (files w) (clock w) p) as [rule|]; [|done].
    destruct (to_dir rule); by apply lframe_same.
  - destruct (file_step cfg false now p n w) as [r w'] eqn:Hrun. cbn [snd].
    apply file_step_real_effect in Hrun.
    destruct (file_choice cfg (files w) (clock w) p) as [rule|] eqn:Hchoice.
    + destruct (to_dir rule) as [td|] eqn:Htd; [|by destruct Hrun as [_ ->]].
      destruct Hrun as (_ & HL & _). eapply lframe_weaken; [|exact HL].
      apply file_choice_elem in Hchoice.
      intros q. unfold file_step_lset, pass_footprint.
      intros [Hq|[->|[->|[[_ Hq]|(c & [_ Hc] & ->)]]]].
      * right. left. exists rule, td. auto.
      * left. destruct Hp as [_ <-]. apply parent_prefix.
      * left. by destruct Hp as [_ ->].
      * right. left. exists rule, td. repeat split; try done. right.
        rewrite <- Hq. apply parent_prefix.
      * right. left. exists rule, td. repeat split; try done. right.
        rewrite <- Hc. etrans; [apply parent_prefix|]. by eexists.
    + by destruct Hrun as [_ ->].
Qed.

Lemma dir_step_footprint (dry : bool) (d : Path) (n : nat) :
  collect_unmanaged_dirs cfg = true → is_child watch d →
  respects (lframe (pass_footprint cfg now)) (dir_step cfg dry excl root d n).
Proof.
  intros Hcollect Hd w. destruct dry.
  - rewrite dir_step_run. destruct (dir_skippedb _ _ _ _ _); [done|]. by apply lframe_same.
  - eapply lframe_weaken; [|apply dir_step_lframe].
    intros q. unfold dir_step_lset, pass_footprint. rewrite Hcollect.
    intros [Hq|[Hq|[Hq| ->]]]; auto.
    + left. etrans; [|exact Hq]. destruct Hd as [_ <-]. apply parent_prefix.
    + left. by destruct Hd as [_ ->].
Qed.

Lemma iterdir_footprint (S : Path -> Prop) (d : Path) : respects (lframe S) (iterdir d).
Proof.
  intros w. rewrite iterdir_run. by destruct (files w !! d) as [[m|t]|].
Qed.

(** X20.  A pass works in its own part of the file system only.  The
    configuration is well formed: the marker name is a single path
    segment, the watch directory, the destinations and the archive root
    are written without [..], and the names built for the entries of the
    watch directory are single path segments.  Whether the pass completes
    or raises, it leaves as it was every entry that is neither in the
    watch directory or below it, nor a destination of a rule or above or
    below one, nor, when folders are collected, the archive root or above
    or below it. *)
Theorem process_once_footprint (dry : bool) (w : World) (q : Path) :
  is_segment (marker_name cfg) = true →
  plain_paths cfg now →
  plain_built_names cfg now (entries (files w) watch) →
  ¬ pass_footprint cfg now q →
  files (process_once cfg dry now w).2 !! q = files w !! q.
Proof.
  intros _ _ _ Hq.
  enough (respects (lframe (pass_footprint cfg now)) (process_once cfg dry now)) as Hr.
  { destruct (Hr w) as [_ HL]. by apply HL. }
  unfold process_once.
  apply respects_bind; [apply _|by apply respects_reader; try apply _|]. intros e.
  destruct e; cbn [negb].
  - apply respects_bind; [apply _| |].
    + unfold file_phase.
      apply (respects_bind_ok _ (fun l => ∀ p, p ∈ sorted l → is_child watch p)).
      * apply iterdir_footprint.
      * intros w0 l. apply iterdir_children.
      * intros l Hl. apply respects_for_loop_elem; [apply _..|].
        intros p n Hp. by apply file_step_footprint, Hl.
    + intros n. destruct (collect_unmanaged_dirs cfg) eqn:Hcollect; [|apply respects_ret, _].
      unfold dir_phase.
      apply (respects_bind_ok _ (fun l => ∀ p, p ∈ sorted l → is_child watch p)).
      * apply iterdir_footprint.
      * intros w0 l. apply iterdir_children.
      * intros l Hl. apply respects_for_loop_elem; [apply _..|].
        intros d k Hd. by apply dir_step_footprint, Hl.
  - apply respects_bind; [apply _| |].
    + intros w0. by apply lframe_same.
    + intros _. apply respects_ret, _.
Qed.

End Footprint.

Lemma process_once_footprint_witness :
  let q := ["home"; "u"; "Sorted"; "report.pdf"] in
  is_segment (marker_name Sample.config) = true ∧
  @plain_paths Sample.posix Sample.config Sample.now ∧
  @plain_built_names Sample.posix Sample.config Sample.now
    (entries (files Sample.world) Sample.downloads) ∧
  files (@process_once Sample.posix Sample.config false Sample.now Sample.world).2 !! q
  = Some (File 1).
Proof.
  intros q.
  assert (@plain_built_names Sample.posix Sample.config Sample.now
            (entries (files Sample.world) Sample.downloads)) as Hnames.
  { unfold plain_built_names. apply (bool_decide_unpack _). vm_compute. exact I. }
  split; [reflexivity|]. split; [apply sample_plain_paths|]. split; [exact Hnames|].
  rewrite (@process_once_footprint Sample.posix).
  - vm_compute. reflexivity.
  - reflexivity.
  - apply sample_plain_paths.
  - exact Hnames.
  - unfold pass_footprint. intros [Hw|[(rule & td & Hin & Htd & Hrel)|[_ Hrel]]].
    + revert Hw. apply (bool_decide_unpack _). vm_compute. exact I.
    + apply elem_of_cons in Hin as [->|Hin];
        [|apply elem_of_cons in Hin as [->|Hin]; [|by apply elem_of_nil in Hin]];
        injection Htd as <-; revert Hrel; apply (bool_decide_unpack _); vm_compute; exact I.
    + revert Hrel. apply (bool_decide_unpack _). vm_compute. exact I.
Defined.

(** ** The exceptions of a pass *)

Section RaisesOnly.
Context (P : Exn -> Prop).







End RaisesOnly.



















Section PassErrors.
Context `{Platform}.




End PassErrors.

Lemma match_rule_dotted_ext_never_witness :
  @match_rule Sample.posix "report.pdf" [Sample.rule_dotted] ≠ Some Sample.rule_dotted.
Proof.
  apply (@match_rule_dotted_ext_never Sample.posix); try reflexivity.
  intros e He. apply list_elem_of_singleton in He as ->. reflexivity.
Defined.


Lemma file_step_missing_to_dir_witness :
  @file_step Sample.posix Sample.config_no_dir false Sample.now
    (Sample.downloads ++ ["a.PNG"]) 0%nat Sample.world
  = (Raised KeyError, Sample.world).
Proof.
  apply (@file_step_missing_to_dir Sample.posix) with (rule := Sample.rule_no_dir).
  - vm_compute. reflexivity.
  - reflexivity.
Defined.


Lemma process_once_real_sample :
  @process_once Sample.posix Sample.config false Sample.now Sample.world
  = (Ok 3%nat, (@process_once Sample.posix Sample.config false Sample.now Sample.world).2).
Proof.
  destruct (@process_once Sample.posix Sample.config false Sample.now Sample.world)
    as [r w'] eqn:E.
  assert (r = Ok 3%nat) as ->; [|done].
  change r with (r, w').1. rewrite <- E. vm_compute. reflexivity.
Defined.

Lemma sample_destinations_apart :
  @destinations_apart Sample.posix Sample.config Sample.now Sample.downloads.
Proof.
  intros rule td Hin Htd.
  apply elem_of_cons in Hin as [->|Hin];
    [|apply elem_of_cons in Hin as [->|Hin]; [|by apply elem_of_nil in Hin]];
    injection Htd as <-; (split; [discriminate|vm_compute; discriminate]).
Defined.


Lemma process_once_clears_swept_witness :
  let w' := (@process_once Sample.posix Sample.config false Sample.now Sample.world).2 in
  plain_names Sample.config ∧
  @plain_paths Sample.posix Sample.config Sample.now ∧
  is_Some (files Sample.world !! (Sample.downloads ++ ["misc"])) ∧
  files w' !! (Sample.downloads ++ ["misc"]) = None.
Proof.
  intros w'. split; [apply sample_plain_names|]. split; [apply sample_plain_paths|].
  split; [vm_compute; eauto|].
  apply (@process_once_clears_swept Sample.posix Sample.config Sample.now Sample.world
           3%nat w').
  - apply sample_plain_names.
  - apply sample_plain_paths.
  - apply sample_destinations_apart.
  - reflexivity.
  - vm_compute. eauto.
  - apply process_once_real_sample.
  - apply (bool_decide_unpack _). vm_compute. exact I.
Defined.

